(** * SBOM construction engine: pkg/spdx/spdx.go and pkg/anago/stage.go

    A shallow embedding of the identifier allocator ([buildIDString]),
    of [FileFromPath], of the directory indexer ([PackageFromDirectory])
    with its worker closure, of the artifacts stamping done by
    [GenerateVersionArtifactsBOM], and of the steps of [DefaultStage]
    ([TagRepository], [Build], [GenerateBillOfMaterials], [StageArtifacts])
    with [GenerateAttestation], followed by the properties of each. *)

From Stdlib Require Import String Ascii List Bool Arith Lia Permutation.
Import ListNotations.
Open Scope string_scope.

(** ** Strings as Go has them: byte sequences *)

Module GoStrings.

(** [strings.ReplaceAll(s, old, new)] for a one-byte [old]; the source only
    calls it with the patterns "/" and ":". *)
Fixpoint ReplaceAll (s : string) (old : ascii) (new : string) : string :=
  match s with
  | EmptyString => EmptyString
  | String c s' =>
      if Ascii.eqb c old then new ++ ReplaceAll s' old new
      else String c (ReplaceAll s' old new)
  end.

(** [strings.HasPrefix(s, prefix)] *)
Definition HasPrefix (s pre : string) : bool := String.prefix pre s.

(** Every byte of [s] satisfies [p]. *)
Fixpoint allChars (p : ascii -> bool) (s : string) : bool :=
  match s with
  | EmptyString => true
  | String c s' => p c && allChars p s'
  end.

(** Keeps the bytes of [s] that satisfy [p]. *)
Fixpoint filterChars (p : ascii -> bool) (s : string) : string :=
  match s with
  | EmptyString => EmptyString
  | String c s' => if p c then String c (filterChars p s') else filterChars p s'
  end.

(** [strings.TrimPrefix(s, prefix)] *)
Definition TrimPrefix (s pre : string) : string :=
  if HasPrefix s pre
  then substring (String.length pre) (String.length s - String.length pre) s
  else s.

(** [s != ""] *)
Definition nonEmpty (s : string) : bool := negb (s =? "").

End GoStrings.

(** ** The identifier allocator *)

Module IDString.
Import GoStrings.

Definition inRange (lo hi : nat) (c : ascii) : bool :=
  let n := nat_of_ascii c in (lo <=? n)%nat && (n <=? hi)%nat.

(** The character class of [validIDCharsRe], which is its complement
    [[^a-zA-Z0-9-.]+]: the bytes the expression does not match.  A byte
    above 127 belongs to a rune outside the class (or to an invalid
    encoding, read as U+FFFD), which the expression matches. *)
Definition validIDChar (c : ascii) : bool :=
  inRange 97 122 c || inRange 65 90 c || inRange 48 57 c
  || Ascii.eqb c "-" || Ascii.eqb c ".".

(** [reg.ReplaceAllString(s, "")]: every maximal run of bytes outside the
    class is replaced by the empty string. *)
Definition ReplaceAllString (s : string) : string := filterChars validIDChar s.

(** Lines 112-115: the body of the seed loop up to the test [s != ""]. *)
Definition sanitize (s : string) : string :=
  ReplaceAllString
    (fold_left (fun s r => ReplaceAll s r "-") ["/"; ":"]%char s).

(** Lines 110-122: the loop over the seeds, with its two accumulators. *)
Fixpoint seedLoop (seeds validSeeds : list string) (numValidSeeds : nat)
  : list string * nat :=
  match seeds with
  | [] => (validSeeds, numValidSeeds)
  | s :: seeds' =>
      let s := sanitize s in
      if nonEmpty s then
        seedLoop seeds' (validSeeds ++ [s])%list
          (if negb (HasPrefix s "SPDXRef-") then S numValidSeeds
           else numValidSeeds)
      else seedLoop seeds' validSeeds numValidSeeds
  end.

(** Lines 129-135: the loop that joins the valid seeds. *)
Fixpoint joinLoop (validSeeds : list string) (id : string) : string :=
  match validSeeds with
  | [] => id
  | s :: rest => joinLoop rest ((if nonEmpty id then id ++ "-" else id) ++ s)
  end.

(** [buildIDString(seeds...)].  [uuid] is the string [uuid.New().String()]
    gives when the function asks for one; the source asks for it only when
    [numValidSeeds == 0]. *)
Definition buildIDString (uuid : string) (seeds : list string) : string :=
  let '(validSeeds, numValidSeeds) := seedLoop seeds [] 0 in
  let validSeeds :=
    if (numValidSeeds =? 0)%nat then (validSeeds ++ [uuid])%list else validSeeds in
  joinLoop validSeeds "".

(** A seed that counts towards [numValidSeeds]: not empty once sanitized,
    and without the [SPDXRef-] prefix. *)
Definition meaningful (s : string) : bool :=
  nonEmpty (sanitize s) && negb (HasPrefix (sanitize s) "SPDXRef-").

(** The seeds that survive sanitization, in input order. *)
Definition survivors (seeds : list string) : list string :=
  filter nonEmpty (map sanitize seeds).

Definition isHexDigit (c : ascii) : bool :=
  inRange 48 57 c || inRange 97 102 c.

(** What the properties below need of the canonical text form of a UUID,
    which [uuid.New().String()] of github.com/google/uuid returns: 36 bytes,
    each a lower-case hexadecimal digit or a hyphen. *)
Definition isUUIDString (s : string) : bool :=
  (String.length s =? 36)%nat
  && allChars (fun c => isHexDigit c || Ascii.eqb c "-") s.

End IDString.

(** ** The data model of package spdx *)

Module SPDX.
Import GoStrings.

(** A Go [error] value, by its message. *)
Definition error := string.

(** A Go result pair [(value, error)] of which one side is nil. *)
Definition result (A : Type) : Type := (A + error)%type.

(** [errors.New] and [errors.Wrap]/[errors.Wrapf] of github.com/pkg/errors:
    the message, a colon, and the message of the cause. *)
Definition New (message : string) : error := message.
Definition Wrap (err : error) (message : string) : error :=
  message ++ ": " ++ err.

Definition bind {A B} (r : result A) (k : A -> result B) : result B :=
  match r with
  | inl a => k a
  | inr e => inr e
  end.

(** [v, err := call; if err != nil { return nil, errors.Wrap(err, msg) }] *)
Definition orWrap {A} (r : result A) (message : string) : result A :=
  match r with
  | inl a => inl a
  | inr e => inr (Wrap e message)
  end.

Notation "x <- r ;; k" := (bind r (fun x => k))
  (at level 61, r at next level, right associativity).
Notation "' pat <- r ;; k" := (bind r (fun pat => k))
  (at level 61, pat pattern, r at next level, right associativity).

Definition NONE : string := "NONE".
Definition NOASSERTION : string := "NOASSERTION".

(** Modelled from the spec: the constant [GoModFileName] is declared in
    another file of the package; it names the go.mod manifest. *)
Definition GoModFileName : string := "go.mod".

Record Options := {
  AnalyzeLayers : bool;
  NoGitignore : bool;
  ProcessGoModules : bool;
  OnlyDirectDeps : bool;
  ScanLicenses : bool;
  LicenseCacheDir : string;
  LicenseData : string;
  IgnorePatterns : list string
}.

(** Modelled from the spec: the relationship taxonomy of section 3; the
    constants are declared in another file of the package. *)
Inductive RelationshipType :=
  | GENERATED_FROM | VARIANT_OF | DEPENDS_ON | DEPENDENCY_OF | CONTAINS.

(** Modelled from the spec: the type [License] is declared in another
    package; the source reads its field [LicenseID] only. *)
Record License := { LicenseID : string }.

(** Modelled from the spec: the types [File], [Package] and [Relationship]
    are declared in other files of the package.  The fields are those the source reads or writes
    ([spdx.go] lines 176-208, [stage.go] lines 599-704) and the attributes
    of section 3.  [Peer] is the in-document peer of a relationship. *)
Inductive File : Type := mkFile {
  FileName : string;
  SourceFile : string;
  File_Name : string;
  File_ID : string;
  LicenseInfoInFile : string;
  File_LicenseConcluded : string;
  File_Checksum : list (string * string);
  File_Relationships : list Relationship }
with Package : Type := mkPackage {
  Package_ID : string;
  Package_Name : string;
  Package_Version : string;
  FilesAnalyzed : bool;
  Package_LicenseConcluded : string;
  Files : list File;
  Package_Relationships : list Relationship }
with Relationship : Type := mkRelationship {
  FullRender : bool;
  Peer : option Package;
  PeerReference : string;
  PeerExtReference : string;
  Comment : string;
  RType : RelationshipType }.

(** Modelled from the spec: [NewFile] and [NewPackage] are defined in other
    files of the package; they return the zero value of the struct. *)
Definition NewFile : File := mkFile "" "" "" "" "" "" [] [].
Definition NewPackage : Package := mkPackage "" "" "" false "" [] [].

(** Field assignments, [f.Field = v]. *)
Definition set_FileName (f : File) (v : string) : File :=
  mkFile v (SourceFile f) (File_Name f) (File_ID f) (LicenseInfoInFile f)
    (File_LicenseConcluded f) (File_Checksum f) (File_Relationships f).
Definition set_SourceFile (f : File) (v : string) : File :=
  mkFile (FileName f) v (File_Name f) (File_ID f) (LicenseInfoInFile f)
    (File_LicenseConcluded f) (File_Checksum f) (File_Relationships f).
Definition set_File_Name (f : File) (v : string) : File :=
  mkFile (FileName f) (SourceFile f) v (File_ID f) (LicenseInfoInFile f)
    (File_LicenseConcluded f) (File_Checksum f) (File_Relationships f).
Definition set_LicenseInfoInFile (f : File) (v : string) : File :=
  mkFile (FileName f) (SourceFile f) (File_Name f) (File_ID f) v
    (File_LicenseConcluded f) (File_Checksum f) (File_Relationships f).
Definition set_File_LicenseConcluded (f : File) (v : string) : File :=
  mkFile (FileName f) (SourceFile f) (File_Name f) (File_ID f)
    (LicenseInfoInFile f) v (File_Checksum f) (File_Relationships f).
Definition set_File_Checksum (f : File) (v : list (string * string)) : File :=
  mkFile (FileName f) (SourceFile f) (File_Name f) (File_ID f)
    (LicenseInfoInFile f) (File_LicenseConcluded f) v (File_Relationships f).
Definition set_File_Relationships (f : File) (v : list Relationship) : File :=
  mkFile (FileName f) (SourceFile f) (File_Name f) (File_ID f)
    (LicenseInfoInFile f) (File_LicenseConcluded f) (File_Checksum f) v.

Definition set_Package_Name (p : Package) (v : string) : Package :=
  mkPackage (Package_ID p) v (Package_Version p) (FilesAnalyzed p)
    (Package_LicenseConcluded p) (Files p) (Package_Relationships p).
Definition set_FilesAnalyzed (p : Package) (v : bool) : Package :=
  mkPackage (Package_ID p) (Package_Name p) (Package_Version p) v
    (Package_LicenseConcluded p) (Files p) (Package_Relationships p).
Definition set_Package_LicenseConcluded (p : Package) (v : string) : Package :=
  mkPackage (Package_ID p) (Package_Name p) (Package_Version p)
    (FilesAnalyzed p) v (Files p) (Package_Relationships p).
Definition set_Files (p : Package) (v : list File) : Package :=
  mkPackage (Package_ID p) (Package_Name p) (Package_Version p)
    (FilesAnalyzed p) (Package_LicenseConcluded p) v (Package_Relationships p).
Definition set_Package_Relationships (p : Package) (v : list Relationship)
  : Package :=
  mkPackage (Package_ID p) (Package_Name p) (Package_Version p)
    (FilesAnalyzed p) (Package_LicenseConcluded p) (Files p) v.

(** What the functions of the package get from the operating system and
    from the libraries they import. *)
Record World := {
  Abs : string -> result string;            (* filepath.Abs *)
  Base : string -> string;                  (* filepath.Base *)
  Join : list string -> string;             (* filepath.Join *)
  Separator : string;                       (* string(filepath.Separator) *)
  TempDir : string;                         (* os.TempDir() *)
  Exists : string -> bool;                  (* util.Exists *)
  NewString : string;                       (* uuid.NewString() *)
  (* the checksums of the content of the file at a path, or why it
     cannot be read *)
  Checksums : string -> result (list (string * string));
  (* the reasons for which an insertion is refused *)
  AddFile_refused : Package -> File -> option error;
  AddDependency_refused : Package -> Package -> option error
}.

Section Methods.
Context (world : World).

(** Modelled from the spec: the method [File.ReadSourceFile] is defined in
    another file of the package.  Section 4.3: it computes the content checksums by reading the
    full file content, and a failure to do so is a hard error for the
    file. *)
Definition ReadSourceFile (f : File) (path : string) : File * option error :=
  match Checksums world path with
  | inl sums => (set_File_Checksum f sums, None)
  | inr e => (f, Some e)
  end.

(** Modelled from the spec: the method [Package.AddFile] is defined in
    another file of the package.  Section 4.5: the File is inserted into the owning Package's file
    collection. *)
Definition AddFile (p : Package) (f : File) : Package * option error :=
  match AddFile_refused world p f with
  | Some e => (p, Some e)
  | None => (set_Files p (Files p ++ [f])%list, None)
  end.

(** Modelled from the spec: the methods [Package.AddRelationship] and
    [File.AddRelationship] are defined in other files of the package.
    Section 3: the relationship
    lists are appended to. *)
Definition Package_AddRelationship (p : Package) (r : Relationship) : Package :=
  set_Package_Relationships p (Package_Relationships p ++ [r])%list.
Definition File_AddRelationship (f : File) (r : Relationship) : File :=
  set_File_Relationships f (File_Relationships f ++ [r])%list.

(** The relationship that links a dependency to its parent package. *)
Definition dependsOn (dep : Package) : Relationship :=
  mkRelationship true (Some dep) "" "" "" DEPENDS_ON.

(** Modelled from the spec: the method [Package.AddDependency] is defined
    in another file of the package.  Section 4.6: the sub-package is linked to the parent package via
    a [DEPENDS_ON] relationship. *)
Definition AddDependency (p dep : Package) : Package * option error :=
  match AddDependency_refused world p dep with
  | Some e => (p, Some e)
  | None =>
      (Package_AddRelationship p (dependsOn dep), None)
  end.

(** [FileFromPath], lines 248-257. *)
Definition FileFromPath (filePath : string) : result File :=
  if negb (Exists world filePath) then inr (New "file does not exist")
  else
    let f := NewFile in
    match ReadSourceFile f filePath with
    | (_, Some err) => inr (Wrap err "creating file from path")
    | (f, None) => inl f
    end.

End Methods.

(** ** PackageFromDirectory *)

(** The interface [spdxImplementation], with the methods
    [PackageFromDirectory] calls.  [Reader] stands for [*license.Reader]
    and [Patterns] for the compiled ignore patterns. *)
Record spdxImplementation (Reader Patterns : Type) := {
  GetDirectoryTree : string -> result (list string);
  LicenseReader : Options -> result Reader;
  GetDirectoryLicense : Reader -> string -> Options -> result (option License);
  GetIgnorePatterns : string -> list string -> bool -> result Patterns;
  ApplyIgnorePatterns : list string -> Patterns -> list string;
  GetGoDependencies : string -> Options -> result (list Package);
  (* the method [LicenseFromFile] of the reader *)
  LicenseFromFile : Reader -> string -> option License * option error
}.
Arguments GetDirectoryTree {Reader Patterns}.
Arguments LicenseReader {Reader Patterns}.
Arguments GetDirectoryLicense {Reader Patterns}.
Arguments GetIgnorePatterns {Reader Patterns}.
Arguments ApplyIgnorePatterns {Reader Patterns}.
Arguments GetGoDependencies {Reader Patterns}.
Arguments LicenseFromFile {Reader Patterns}.

(** The statement a goroutine running [processDirectoryFile] is at, by its
    line in spdx.go; [Lexit] once the deferred call has run. *)
Inductive PC := L187 | L191 | L192 | L196 | L203 | L207 | Ldone | Lexit.

Definition PC_eqb (a b : PC) : bool :=
  match a, b with
  | L187, L187 | L191, L191 | L192, L192 | L196, L196
  | L203, L203 | L207, L207 | Ldone, Ldone | Lexit, Lexit => true
  | _, _ => false
  end.

(** How far a goroutine has got. *)
Definition rank (l : PC) : nat :=
  match l with
  | L187 => 0 | L191 => 1 | L192 => 2 | L196 => 3
  | L203 => 4 | L207 => 5 | Ldone => 6 | Lexit => 7
  end.

(** One goroutine started by [go processDirectoryFile(path, pkg)]: its
    argument, where it is, the argument with which [t.Done] was deferred,
    and its local [f]. *)
Record Goroutine := {
  path : string;
  pc : PC;
  deferred : option error;
  f : File
}.

(** What the goroutines share: the variables [err], [lic] and [pkg] of
    [PackageFromDirectory], which the closure captures by reference, and
    the errors the throttler [t] has been told of. *)
Record Frame := {
  err : option error;
  lic : option License;
  pkg : Package;
  t_errs : list error;
  goroutines : list Goroutine
}.

Definition set_goroutines (fr : Frame) (gs : list Goroutine) : Frame :=
  {| err := err fr; lic := lic fr; pkg := pkg fr; t_errs := t_errs fr;
     goroutines := gs |}.

Fixpoint update {A} (l : list A) (i : nat) (x : A) : list A :=
  match l, i with
  | [], _ => []
  | _ :: l', O => x :: l'
  | y :: l', S i' => y :: update l' i' x
  end.

Section PackageFromDirectory.
Context {Reader Patterns : Type}.
Context (world : World) (impl : spdxImplementation Reader Patterns)
        (options : Options).

Section Closure.
(** The variables of the enclosing call the closure reads only. *)
Context (dirPath licenseTag : string) (reader : Reader).

(** One statement of [processDirectoryFile], lines 186-212, run by the
    goroutine [g] on the shared variables.  A statement is taken as one
    atomic step. *)
Definition processDirectoryFile (g : Goroutine) (fr : Frame)
  : Goroutine * Frame :=
  let at_ (l : PC) (g : Goroutine) : Goroutine :=
    {| path := path g; pc := l; deferred := deferred g; f := f g |} in
  let with_f (g : Goroutine) (f' : File) : Goroutine :=
    {| path := path g; pc := pc g; deferred := deferred g; f := f' |} in
  let with_err (fr : Frame) (e : option error) : Frame :=
    {| err := e; lic := lic fr; pkg := pkg fr; t_errs := t_errs fr;
       goroutines := goroutines fr |} in
  match pc g with
  | L187 =>
      (* defer t.Done(err): the argument is evaluated now *)
      let f := NewFile in
      let f := set_FileName f (path g) in
      let f := set_SourceFile f (Join world [dirPath; path g]) in
      ({| path := path g; pc := L191; deferred := err fr; f := f |}, fr)
  | L191 =>
      (* lic, err = reader.LicenseFromFile(f.SourceFile) *)
      let '(l, e) := LicenseFromFile impl reader (SourceFile (f g)) in
      (at_ L192 g,
       {| err := e; lic := l; pkg := pkg fr; t_errs := t_errs fr;
          goroutines := goroutines fr |})
  | L192 =>
      match err fr with
      | Some e =>
          (at_ Ldone g, with_err fr (Some (Wrap e "scanning file for license")))
      | None => (at_ L196 g, fr)
      end
  | L196 =>
      let f := set_LicenseInfoInFile (f g) NONE in
      let f :=
        match lic fr with
        | None => set_File_LicenseConcluded f licenseTag
        | Some l => set_LicenseInfoInFile f (LicenseID l)
        end in
      (at_ L203 (with_f g f), fr)
  | L203 =>
      let '(f, e) := ReadSourceFile world (f g) (Join world [dirPath; path g]) in
      match e with
      | Some e =>
          (at_ Ldone (with_f g f),
           with_err fr (Some (Wrap e "checksumming file")))
      | None => (at_ L207 (with_f g f), with_err fr None)
      end
  | L207 =>
      let f :=
        set_File_Name (f g)
          (TrimPrefix (path g) (dirPath ++ Separator world)) in
      let '(p, e) := AddFile world (pkg fr) f in
      (at_ Ldone (with_f g f),
       {| err :=
            match e with
            | Some e =>
                Some (Wrap e ("adding " ++ path g
                              ++ " as file to the spdx package"))
            | None => None
            end;
          lic := lic fr; pkg := p; t_errs := t_errs fr;
          goroutines := goroutines fr |})
  | Ldone =>
      (* the deferred t.Done(err) *)
      (at_ Lexit g,
       {| err := err fr; lic := lic fr; pkg := pkg fr;
          t_errs :=
            match deferred g with
            | Some e => (t_errs fr ++ [e])%list
            | None => t_errs fr
            end;
          goroutines := goroutines fr |})
  | Lexit => (g, fr)
  end.

(** The number of goroutines that have called [t.Done]. *)
Definition doneCount (gs : list Goroutine) : nat :=
  List.length (filter (fun g => PC_eqb (pc g) Lexit) gs).

(** Modelled from the spec: [throttler.New(5, len(fileList))] and
    [t.Throttle()] belong to the module github.com/nozzle/throttler.
    Section 4.5: never more than 5 scans execute concurrently, so the loop
    of lines 215-218 has started goroutine [i] only when all but at most 4
    of the goroutines before it are done. *)
Definition started (i : nat) (fr : Frame) : bool :=
  (i <? doneCount (goroutines fr) + 5)%nat.

(** The scheduler lets goroutine [i] run one statement; nothing happens
    when [i] is not a goroutine of the call or has not been started. *)
Definition step (fr : Frame) (i : nat) : Frame :=
  match nth_error (goroutines fr) i with
  | Some g =>
      if started i fr then
        let '(g', fr') := processDirectoryFile g fr in
        set_goroutines fr' (update (goroutines fr') i g')
      else fr
  | None => fr
  end.

(** A goroutine is through after at most 7 statements. *)
Definition finish (fr : Frame) (i : nat) : Frame :=
  Nat.iter 7 (fun fr => step fr i) fr.

(** Lines 215-218 under the schedule [sched], the order in which the
    scheduler picks goroutines; once [sched] is used up the goroutines
    still running are run to their end one after the other, which is when
    the last [t.Throttle()] returns. *)
Definition runGoroutines (sched : list nat) (fr : Frame) : Frame :=
  let fr := fold_left step sched fr in
  fold_left finish (seq 0 (List.length (goroutines fr))) fr.

End Closure.

(** Modelled from the spec: [t.Err()] belongs to the module
    github.com/nozzle/throttler.  Section 4.5: the overall call reports
    only the first error encountered across all workers. *)
Definition t_Err (fr : Frame) : option error := hd_error (t_errs fr).

(** Lines 231-235. *)
Fixpoint addDependencies (pkg : Package) (deps : list Package)
  : result Package :=
  match deps with
  | [] => inl pkg
  | dep :: deps' =>
      match AddDependency world pkg dep with
      | (_, Some err) => inr (Wrap err "adding go dependency")
      | (pkg, None) => addDependencies pkg deps'
      end
  end.

(** Lines 224-239, the part of [PackageFromDirectory] after the scan. *)
Definition goModules (dirPath : string) (pkg : Package) : result Package :=
  if Exists world (Join world [dirPath; GoModFileName])
     && ProcessGoModules options
  then
    deps <- orWrap (GetGoDependencies impl dirPath options)
              "scanning go packages" ;;
    addDependencies pkg deps
  else inl pkg.

(** Lines 142-184, up to the creation of the throttler: the absolute
    path, the reader, the license tag, the file list and the package, or
    the error returned. *)
Definition prepare (dirPath : string)
  : result (string * Reader * string * option License * list string * Package) :=
  dirPath <- orWrap (Abs world dirPath) "getting absolute directory path" ;;
  fileList <- orWrap (GetDirectoryTree impl dirPath)
                "building directory tree" ;;
  reader <- orWrap (LicenseReader impl options) "creating license reader" ;;
  let licenseTag := "" in
  lic <- orWrap (GetDirectoryLicense impl reader dirPath options)
           "scanning directory for licenses" ;;
  let licenseTag :=
    match lic with
    | Some l => LicenseID l
    | None => licenseTag
    end in
  patterns <- orWrap (GetIgnorePatterns impl dirPath (IgnorePatterns options)
                        (NoGitignore options))
                "building ignore patterns list" ;;
  let fileList := ApplyIgnorePatterns impl fileList patterns in
  let pkg := NewPackage in
  let pkg := set_FilesAnalyzed pkg true in
  let pkg := set_Package_Name pkg (Base world dirPath) in
  let pkg :=
    if Package_Name pkg =? "" then set_Package_Name pkg (NewString world)
    else pkg in
  let pkg := set_Package_LicenseConcluded pkg licenseTag in
  inl (dirPath, reader, licenseTag, lic, fileList, pkg).

(** The shared variables when the loop of line 215 starts: [err] is nil,
    every error before having made the call return. *)
Definition initialFrame (lic : option License) (pkg : Package)
    (fileList : list string) : Frame :=
  {| err := None; lic := lic; pkg := pkg; t_errs := [];
     goroutines :=
       map (fun path =>
              {| path := path; pc := L187; deferred := None; f := NewFile |})
           fileList |}.

(** [PackageFromDirectory], lines 141-240, under the schedule [sched] of
    its goroutines. *)
Definition PackageFromDirectory (sched : list nat) (dirPath : string)
  : result Package :=
  '(dirPath, reader, licenseTag, lic, fileList, pkg) <- prepare dirPath ;;
  let fr :=
    runGoroutines dirPath licenseTag reader sched
      (initialFrame lic pkg fileList) in
  match t_Err fr with
  | Some err => inr err
  | None => goModules dirPath (SPDX.pkg fr)
  end.

End PackageFromDirectory.

(** The goroutine [g'] is the goroutine [g] at the same statement or at
    a later one. *)
Definition later (g g' : Goroutine) : Prop :=
  path g' = path g /\ rank (pc g) <= rank (pc g').

(** The goroutine [j] has called [t.Done]. *)
Definition exited (gs : list Goroutine) (j : nat) : Prop :=
  exists g, nth_error gs j = Some g /\ pc g = Lexit.

(** Two packages that differ in their file collection at most. *)
Definition sameButFiles (p q : Package) : Prop :=
  Package_ID q = Package_ID p
  /\ Package_Name q = Package_Name p
  /\ Package_Version q = Package_Version p
  /\ FilesAnalyzed q = FilesAnalyzed p
  /\ Package_LicenseConcluded q = Package_LicenseConcluded p
  /\ Package_Relationships q = Package_Relationships p.

End SPDX.

(** ** A directory on which the calls are run *)

Module Sample.
Import GoStrings SPDX.

Definition inList (x : string) (l : list string) : bool :=
  existsb (String.eqb x) l.

(** A file system in which the paths of [present] exist and those of
    [readable] can be read, and the libraries on it. *)
Definition world (present readable : list string) : World :=
  {| Abs := fun p => inl p;
     Base := fun _ => "repo";
     Join := String.concat "/";
     Separator := "/";
     TempDir := "/tmp";
     Exists := fun p => inList p present;
     NewString := "123e4567-e89b-12d3-a456-426614174000";
     Checksums := fun p =>
       if inList p readable then inl [("SHA256", "e3b0c442")]
       else inr "permission denied";
     AddFile_refused := fun _ _ => None;
     AddDependency_refused := fun _ _ => None |}.

Definition Apache : License := {| LicenseID := "Apache-2.0" |}.

(** An implementation that lists [files] in every directory, finds the
    license [dirLicense] at directory level, classifies the files named
    [LICENSE] as Apache-2.0 and no other file, ignores nothing, and resolves
    the dependencies to [deps]. *)
Definition impl (files : list string) (dirLicense : option License)
    (deps : result (list Package)) : spdxImplementation unit unit :=
  {| GetDirectoryTree := fun _ => inl files;
     LicenseReader := fun _ => inl tt;
     GetDirectoryLicense := fun _ _ _ => inl dirLicense;
     GetIgnorePatterns := fun _ _ _ => inl tt;
     ApplyIgnorePatterns := fun l _ => l;
     GetGoDependencies := fun _ _ => deps;
     LicenseFromFile := fun _ p =>
       if p =? "/repo/LICENSE" then (Some Apache, None) else (None, None) |}.

(** [defaultSPDXOptions], lines 83-90. *)
Definition defaultSPDXOptions : Options :=
  {| AnalyzeLayers := true;
     NoGitignore := false;
     ProcessGoModules := true;
     OnlyDirectDeps := false;
     ScanLicenses := true;
     LicenseCacheDir := "/tmp/spdx/downloadCache";
     LicenseData := "/tmp/spdx/licenses";
     IgnorePatterns := [] |}.

(** [PackageFromDirectory("/repo")] on a directory that holds [files], of
    which those of [readable] can be read, with the default options. *)
Definition scan (files readable : list string) (dirLicense : option License)
    (sched : list nat) : result Package :=
  PackageFromDirectory (world [] readable) (impl files dirLicense (inl []))
    defaultSPDXOptions sched "/repo".

(** The frames a call on the single file [bad], which cannot be read, goes
    through: the statements of its only goroutine, one after the other. *)
Definition unreadableFrames : list Frame :=
  let step :=
    step (world [] []) (impl ["bad"] (Some Apache) (inl []))
      "/repo" "Apache-2.0" tt in
  let fr0 :=
    initialFrame (Some Apache)
      (set_Package_LicenseConcluded
         (set_Package_Name (set_FilesAnalyzed NewPackage true) "repo")
         "Apache-2.0")
      ["bad"] in
  map (fun n => Nat.iter n (fun fr => step fr 0) fr0) (seq 0 7).

(** Two dependencies, as [GetGoDependencies] returns them. *)
Definition logrus : Package :=
  mkPackage "" "github.com/sirupsen/logrus" "v1.8.1" false "" [] [].
Definition errors : Package :=
  mkPackage "" "github.com/pkg/errors" "v0.9.1" false "" [] [].

(** The package a call on a directory without files and license returns. *)
Definition emptyPackage (license : string) : Package :=
  mkPackage "" "repo" "" true license [] [].

(** The file the scan makes of [a.txt], which holds no license, in a
    directory whose license is [license]. *)
Definition aTxt (license : string) : File :=
  mkFile "a.txt" "/repo/a.txt" "a.txt" "" NONE license
    [("SHA256", "e3b0c442")] [].

End Sample.

(** ** The artifacts bill of materials of package anago *)

Module Anago.
Import GoStrings SPDX.

(** Modelled from the spec: the types [ExternalDocumentRef], [Document] and
    [DocGenerateOptions] are declared in package spdx, in files other than
    spdx.go.  The fields are those stage.go reads or writes and the
    attributes of section 3. *)
Record ExternalDocumentRef := {
  ExternalDocumentRef_ID : string;
  URI : string;
  ExternalDocumentRef_Checksums : list (string * string)
}.

Record Document := {
  Document_Name : string;
  Document_Namespace : string;
  Packages : list Package;
  Document_Files : list File;
  ExternalDocRefs : list ExternalDocumentRef
}.

Record DocGenerateOptions := {
  Name : string;
  AnalyseLayers : bool;
  OnlyDirectDeps : bool;
  License : string;
  Namespace : string;
  ScanLicenses : bool;
  Tarballs : list string;
  OutputFile : string
}.

(** An element of the list [ListBinaries] returns. *)
Record Binary := { Path : string; Platform : string; Arch : string }.

(** What stage.go gets from the packages it imports and from the rest of
    package anago. *)
Record Release := {
  gitRoot : string;
  LicenseIdentifier : string;
  ListBuildBinaries : string -> string -> result (list Binary);
  ListBuildImages : string -> string -> result (list string);
  ListBuildTarballs : string -> string -> result (list string);
  (* spdx.NewDocBuilder().Generate *)
  Generate : DocGenerateOptions -> result Document;
  (* the method Write of Document *)
  Write : Document -> string -> option error;
  (* the reasons for which a document refuses a file *)
  Document_AddFile_refused : Document -> File -> option error
}.

Definition set_Packages (d : Document) (v : list Package) : Document :=
  {| Document_Name := Document_Name d;
     Document_Namespace := Document_Namespace d;
     Packages := v;
     Document_Files := Document_Files d;
     ExternalDocRefs := ExternalDocRefs d |}.
Definition set_Document_Files (d : Document) (v : list File) : Document :=
  {| Document_Name := Document_Name d;
     Document_Namespace := Document_Namespace d;
     Packages := Packages d;
     Document_Files := v;
     ExternalDocRefs := ExternalDocRefs d |}.
Definition set_ExternalDocRefs (d : Document) (v : list ExternalDocumentRef)
  : Document :=
  {| Document_Name := Document_Name d;
     Document_Namespace := Document_Namespace d;
     Packages := Packages d;
     Document_Files := Document_Files d;
     ExternalDocRefs := v |}.

(** What a call leaves behind: the document handed to [doc.Write] with the
    path it is written to, if the call got that far, and the error
    returned. *)
Record Outcome := {
  written : option (string * Document);
  returned : option error
}.

Section Stage.
Context (world : World) (release : Release).

(** Modelled from the spec: the method [Document.AddFile] is defined in
    package spdx, in a file other than spdx.go.  Section 4.8: directly added
    Files are composed into the Document. *)
Definition Document_AddFile (d : Document) (f : File)
  : Document * option error :=
  match Document_AddFile_refused release d f with
  | Some e => (d, Some e)
  | None => (set_Document_Files d (Document_Files d ++ [f])%list, None)
  end.

(** Modelled from the spec: the method [ExternalDocumentRef.ReadSourceFile]
    is defined in package spdx, in a file other than spdx.go.  Section 3:
    the reference carries the checksum of the referenced document. *)
Definition ExternalDocumentRef_ReadSourceFile (ed : ExternalDocumentRef)
    (path : string) : ExternalDocumentRef * option error :=
  match Checksums world path with
  | inl sums =>
      ({| ExternalDocumentRef_ID := ExternalDocumentRef_ID ed;
          URI := URI ed;
          ExternalDocumentRef_Checksums := sums |}, None)
  | inr e => (ed, Some e)
  end.

(** Lines 306-319. *)
Definition ListBinaries (version : string) : result (list Binary) :=
  ListBuildBinaries release (gitRoot release) version.
Definition ListImageArchives (version : string) : result (list string) :=
  ListBuildImages release (gitRoot release) version.
Definition ListTarballs (version : string) : result (list string) :=
  ListBuildTarballs release (gitRoot release) version.

(** The relationship of lines 609-615, 639-645 and 699-705. *)
Definition sourceCode (version : string) : Relationship :=
  {| FullRender := false;
     Peer := None;
     PeerReference := "SPDXRef-Package-kubernetes";
     PeerExtReference := "kubernetes-" ++ version;
     Comment := "Source code";
     RType := GENERATED_FROM |}.

(** Lines 598-616, the loop of [AddBinariesToSBOM].  The document holds the
    file by pointer, so the relationship added after [sbom.AddFile] is added
    to the file of the document. *)
Fixpoint addBinaries (sbom : Document) (version : string)
    (binaries : list Binary) : Document * option error :=
  match binaries with
  | [] => (sbom, None)
  | bin :: binaries' =>
      let file := NewFile in
      match ReadSourceFile world file (Path bin) with
      | (_, Some err) =>
          (sbom, Some (Wrap err ("reading binary sourcefile from " ++ Path bin)))
      | (file, None) =>
          let file :=
            set_File_Name file
              (Join world ["bin"; Platform bin; Arch bin;
                           Base world (Path bin)]) in
          let file := set_FileName file (File_Name file) in
          let file :=
            set_File_LicenseConcluded file (LicenseIdentifier release) in
          match Document_AddFile sbom
                  (File_AddRelationship file (sourceCode version)) with
          | (sbom, Some err) =>
              (sbom, Some (Wrap err "adding file to artifacts sbom"))
          | (sbom, None) => addBinaries sbom version binaries'
          end
      end
  end.

(** [AddBinariesToSBOM], lines 591-618. *)
Definition AddBinariesToSBOM (sbom : Document) (version : string)
  : Document * option error :=
  match ListBinaries version with
  | inr err => (sbom, Some (Wrap err ("Getting binaries list for " ++ version)))
  | inl binaries => addBinaries sbom version binaries
  end.

(** Lines 628-646, the loop of [AddTarfilesToSBOM]. *)
Fixpoint addTarfiles (sbom : Document) (version : string)
    (tarballs : list string) : Document * option error :=
  match tarballs with
  | [] => (sbom, None)
  | tar :: tarballs' =>
      let file := NewFile in
      match ReadSourceFile world file tar with
      | (_, Some err) =>
          (sbom, Some (Wrap err ("reading tarball sourcefile from " ++ tar)))
      | (file, None) =>
          let file := set_File_Name file (Base world tar) in
          let file :=
            set_File_LicenseConcluded file (LicenseIdentifier release) in
          let file := set_FileName file (Base world tar) in
          match Document_AddFile sbom
                  (File_AddRelationship file (sourceCode version)) with
          | (sbom, Some err) =>
              (sbom, Some (Wrap err "adding file to artifacts sbom"))
          | (sbom, None) => addTarfiles sbom version tarballs'
          end
      end
  end.

(** [AddTarfilesToSBOM], lines 621-648. *)
Definition AddTarfilesToSBOM (sbom : Document) (version : string)
  : Document * option error :=
  match ListTarballs version with
  | inr err =>
      (sbom, Some (Wrap err ("listing release tarballs for " ++ version)))
  | inl tarballs => addTarfiles sbom version tarballs
  end.

(** [BuildBaseArtifactsSBOM], lines 650-653. *)
Definition BuildBaseArtifactsSBOM (options : DocGenerateOptions)
  : result Document :=
  Generate release options.

(** Lines 698-706: every package of the document is stamped; the document
    holds its packages by pointer. *)
Definition stampPackages (doc : Document) (version : string) : Document :=
  set_Packages doc
    (map (fun pkg => Package_AddRelationship pkg (sourceCode version))
         (Packages doc)).

(** [GenerateVersionArtifactsBOM], lines 655-713. *)
Definition GenerateVersionArtifactsBOM (version : string) : Outcome :=
  let fail (err : error) := {| written := None; returned := Some err |} in
  match ListImageArchives version with
  | inr err => fail (Wrap err "getting artifacts list")
  | inl images =>
  match BuildBaseArtifactsSBOM
          {| Name := "Kubernetes Release " ++ version;
             AnalyseLayers := false;
             OnlyDirectDeps := false;
             License := LicenseIdentifier release;
             Namespace := "https://sbom.k8s.io/" ++ version ++ "/release";
             ScanLicenses := false;
             Tarballs := images;
             OutputFile := Join world [] |} with
  | inr err => fail (Wrap err ("generating base artifacts sbom for " ++ version))
  | inl doc =>
  match AddBinariesToSBOM doc version with
  | (_, Some err) => fail (Wrap err ("adding binaries to " ++ version ++ " SBOM"))
  | (doc, None) =>
  match AddTarfilesToSBOM doc version with
  | (_, Some err) => fail (Wrap err ("adding tarballs to " ++ version ++ " SBOM"))
  | (doc, None) =>
  let extRef :=
    {| ExternalDocumentRef_ID := "kubernetes-" ++ version;
       URI := "https://sbom.k8s.io/" ++ version ++ "/source";
       ExternalDocumentRef_Checksums := [] |} in
  match ExternalDocumentRef_ReadSourceFile extRef
          (Join world [TempDir world; "source-bom-" ++ version ++ ".spdx"]) with
  | (_, Some err) =>
      fail (Wrap err "reading the source file as external reference")
  | (extRef, None) =>
  let doc := set_ExternalDocRefs doc (ExternalDocRefs doc ++ [extRef])%list in
  let doc := stampPackages doc version in
  let path :=
    Join world [TempDir world; "release-bom-" ++ version ++ ".spdx"] in
  {| written := Some (path, doc);
     returned :=
       match Write release doc path with
       | Some err => Some (Wrap err ("writing artifacts SBOM for " ++ version))
       | None => None
       end |}
  end end end end end.

End Stage.

End Anago.

(** ** A release on which the artifacts document is built *)

Module SampleStage.
Import SPDX Anago.

Definition image (name : string) : Package :=
  set_Package_Name NewPackage name.

(** A build of one image archive, one binary and one tarball, whose base
    document holds two image packages. *)
Definition release : Release :=
  {| gitRoot := "/workspace/src/k8s.io/kubernetes";
     LicenseIdentifier := "Apache-2.0";
     ListBuildBinaries := fun _ _ =>
       inl [{| Path := "/build/kubectl"; Platform := "linux"; Arch := "amd64" |}];
     ListBuildImages := fun _ _ => inl ["/build/kube-apiserver.tar"];
     ListBuildTarballs := fun _ _ => inl ["/build/kubernetes.tar.gz"];
     Generate := fun o =>
       inl {| Document_Name := Name o;
              Document_Namespace := Namespace o;
              Packages := [image "kube-apiserver"; image "kube-proxy"];
              Document_Files := [];
              ExternalDocRefs := [] |};
     Write := fun _ _ => None;
     Document_AddFile_refused := fun _ _ => None |}.

Definition world : World :=
  Sample.world []
    ["/build/kubectl"; "/build/kubernetes.tar.gz";
     "/tmp/source-bom-v1.22.0.spdx"].

End SampleStage.

(** ** What the scan keeps true *)

Module Scan.
Import GoStrings SPDX.

Section Invariants.
Context {Reader Patterns : Type}.
Context (world : World) (impl : spdxImplementation Reader Patterns).
Context (dirPath : string) (reader : Reader).

(** The file [file] is what lines 188-207 make of the entry [path] of the
    file list: its names, and the checksums of its content. *)
Definition scannedFrom (path : string) (file : File) : Prop :=
  FileName file = path
  /\ SourceFile file = Join world [dirPath; path]
  /\ File_Name file = TrimPrefix path (dirPath ++ Separator world)
  /\ Checksums world (Join world [dirPath; path]) = inl (File_Checksum file).

(** The local file of a goroutine: named from line 189 on, and checksummed
    when the goroutine is about to insert it. *)
Definition localOK (g : Goroutine) : Prop :=
  (1 <= rank (pc g) ->
   FileName (f g) = path g /\ SourceFile (f g) = Join world [dirPath; path g])
  /\ (pc g = L207 ->
      Checksums world (Join world [dirPath; path g])
      = inl (File_Checksum (f g))).

(** The goroutine [i] is past line 208 and [file] is made of its path. *)
Definition inserted (gs : list Goroutine) (i : nat) (file : File) : Prop :=
  exists g, nth_error gs i = Some g
            /\ 6 <= rank (pc g)
            /\ scannedFrom (path g) file.

(** Every file of the package was inserted by a goroutine of its own. *)
Definition scanInv (fr : Frame) : Prop :=
  Forall localOK (goroutines fr)
  /\ exists idxs, NoDup idxs
                  /\ Forall2 (inserted (goroutines fr)) idxs (Files (pkg fr)).

(** Nothing fails for the entry [path]: its classification gives no error
    and its content can be read. *)
Definition readable (path : string) : Prop :=
  snd (LicenseFromFile impl reader (Join world [dirPath; path])) = None
  /\ exists sums, Checksums world (Join world [dirPath; path]) = inl sums.

(** The goroutines past line 208. *)
Definition pastInsertion (gs : list Goroutine) : list Goroutine :=
  filter (fun g => 6 <=? rank (pc g))%nat gs.

(** No goroutine has failed so far: [err] is nil, the throttler knows of no
    error, and there is one file in the package per goroutine past
    line 208. *)
Definition cleanInv (fr : Frame) : Prop :=
  err fr = None
  /\ t_errs fr = []
  /\ Forall (fun g => deferred g = None /\ readable (path g)) (goroutines fr)
  /\ List.length (Files (pkg fr)) = List.length (pastInsertion (goroutines fr)).

End Invariants.

End Scan.

(** ** The source-tree document and the files of the artifacts document *)

Module StageMore.
Import GoStrings SPDX Anago.

Section Stage.
Context (world : World) (release : Release).

(** [GenerateSourceTreeBOM], lines 715-721. *)
Definition GenerateSourceTreeBOM (options : DocGenerateOptions)
  : result Document :=
  orWrap (Generate release options) "Generating kubernetes source code SBOM".

(** [WriteSourceBOM], lines 725-734: the document is renamed for the
    version, then written; [errors.Wrap] of a nil error is nil. *)
Definition WriteSourceBOM (spdxDoc : Document) (version : string) : Outcome :=
  let spdxDoc :=
    {| Document_Name := "kubernetes-" ++ version;
       Document_Namespace := "https://sbom.k8s.io/" ++ version ++ "/source";
       Packages := Packages spdxDoc;
       Document_Files := Document_Files spdxDoc;
       ExternalDocRefs := ExternalDocRefs spdxDoc |} in
  let path :=
    Join world [TempDir world; "source-bom-" ++ version ++ ".spdx"] in
  {| written := Some (path, spdxDoc);
     returned :=
       match Write release spdxDoc path with
       | Some err => Some (Wrap err "writing the source code SBOM")
       | None => None
       end |}.

(** The file [AddBinariesToSBOM] makes of a binary. *)
Definition binaryFile (version : string) (bin : Binary) (file : File) : Prop :=
  File_Name file
  = Join world ["bin"; Platform bin; Arch bin; Base world (Path bin)]
  /\ FileName file = File_Name file
  /\ File_LicenseConcluded file = LicenseIdentifier release
  /\ Checksums world (Path bin) = inl (File_Checksum file)
  /\ File_Relationships file = [sourceCode version].

(** The file [AddTarfilesToSBOM] makes of a tarball. *)
Definition tarFile (version : string) (tar : string) (file : File) : Prop :=
  File_Name file = Base world tar
  /\ FileName file = Base world tar
  /\ File_LicenseConcluded file = LicenseIdentifier release
  /\ Checksums world tar = inl (File_Checksum file)
  /\ File_Relationships file = [sourceCode version].

(** The document [sbom'] is [sbom] with the files [files] added at the
    end, and nothing else changed. *)
Definition extendedBy (sbom sbom' : Document) (files : list File) : Prop :=
  Document_Name sbom' = Document_Name sbom
  /\ Document_Namespace sbom' = Document_Namespace sbom
  /\ Packages sbom' = Packages sbom
  /\ ExternalDocRefs sbom' = ExternalDocRefs sbom
  /\ Document_Files sbom' = (Document_Files sbom ++ files)%list.

End Stage.

End StageMore.

(** ** More builds *)

Module SampleStageMore.
Import SPDX Anago.

(** The base document of [SampleStage.release]. *)
Definition base : Document :=
  {| Document_Name := "Kubernetes Release v1.22.0";
     Document_Namespace := "https://sbom.k8s.io/v1.22.0/release";
     Packages := [SampleStage.image "kube-apiserver";
                  SampleStage.image "kube-proxy"];
     Document_Files := [];
     ExternalDocRefs := [] |}.

Definition kubectl : Binary :=
  {| Path := "/build/kubectl"; Platform := "linux"; Arch := "amd64" |}.
Definition kubelet : Binary :=
  {| Path := "/build/kubelet"; Platform := "linux"; Arch := "arm64" |}.

(** The build of [SampleStage.release] with a second binary, which the
    world of [SampleStage] cannot read. *)
Definition brokenRelease : Release :=
  {| gitRoot := gitRoot SampleStage.release;
     LicenseIdentifier := LicenseIdentifier SampleStage.release;
     ListBuildBinaries := fun _ _ => inl [kubectl; kubelet];
     ListBuildImages := ListBuildImages SampleStage.release;
     ListBuildTarballs := ListBuildTarballs SampleStage.release;
     Generate := Generate SampleStage.release;
     Write := Write SampleStage.release;
     Document_AddFile_refused := Document_AddFile_refused SampleStage.release |}.

(** A world without the source-tree document of the version. *)
Definition worldWithoutSource : World :=
  Sample.world [] ["/build/kubectl"; "/build/kubernetes.tar.gz"].

(** The artifacts document of [SampleStage.release]. *)
Definition artifacts : Document :=
  match
    written (GenerateVersionArtifactsBOM SampleStage.world
               SampleStage.release "v1.22.0")
  with
  | Some (_, doc) => doc
  | None => base
  end.

(** The source-tree document [WriteSourceBOM] writes for the version. *)
Definition source : Document :=
  {| Document_Name := "kubernetes-v1.22.0";
     Document_Namespace := "https://sbom.k8s.io/v1.22.0/source";
     Packages := Packages base;
     Document_Files := [];
     ExternalDocRefs := [] |}.

End SampleStageMore.
(** ** Provenance statements, as stage.go uses them *)

(** The types of the packages provenance and in_toto are declared outside
    these sources: a statement and a predicate are known here by the fields
    stage.go assigns and reads, and the functions of the package stay
    parameters. *)
Module Provenance.

(** [time.Time]: an instant and the location it is shown in. *)
Record Time := { instant : nat; location : string }.

(** [t.UTC()] *)
Definition UTC (t : Time) : Time :=
  {| instant := instant t; location := "UTC" |}.

(** [intoto.DigestSet], a map from the algorithm to the digest. *)
Definition DigestSet : Type := list (string * string).

(** [intoto.Subject] *)
Record Subject := { Subject_Name : string; Digest : DigestSet }.

(** The predicate, by the fields lines 922-939 assign; [Materials] stands
    for what [AddMaterial] records. *)
Record Predicate := {
  Builder_ID : string;
  Completeness_Arguments : bool;
  Completeness_Materials : bool;
  BuildStartedOn : option Time;
  BuildFinishedOn : option Time;
  Recipe_Type : string;
  Recipe_EntryPoint : string;
  Recipe_Arguments : list (string * string);
  Materials : list (string * DigestSet)
}.

(** [provenance.Statement] *)
Record Statement := {
  Subject_ : list Subject;
  Statement_Predicate : Predicate
}.

Definition set_Subject (s : Statement) (subjects : list Subject)
  : Statement :=
  {| Subject_ := subjects; Statement_Predicate := Statement_Predicate s |}.

Definition set_Predicate (s : Statement) (p : Predicate) : Statement :=
  {| Subject_ := Subject_ s; Statement_Predicate := p |}.

End Provenance.

(** ** The steps of DefaultStage *)

(** The methods of [DefaultStage] do their work through the interface
    [stageImpl]: what they do is the calls they make, in order, and the
    error they return, given what the calls answer. *)
Module Steps.
Import GoStrings SPDX.

(** A handle on an open repository, [*git.Repo]. *)
Definition Repo := string.

(** The [spdx.DocGenerateOptions] literal of lines 741-748, by the fields
    it sets. *)
Record SourceTreeOptions := {
  ProcessGoModules : bool;
  License : string;
  OutputFile : string;
  Namespace : string;
  ScanLicenses : bool;
  Directories : list string
}.

(** The fields of [StageOptions] and [StageState] the methods read;
    [Ordered] and [Prime] are the methods of [release.Versions],
    [semverBuildVersion_Build] the field [Build] of the build version. *)
Record StageOptions := {
  ReleaseType : string;
  ReleaseBranch : string;
  BuildVersion : string;
  NoMock : bool
}.

Record StageState := {
  Ordered : list string;
  Prime : string;
  semverBuildVersion_Build : list string;
  createReleaseBranch : bool;
  startTime : Provenance.Time
}.

(** [build.Options], by the fields [StageArtifacts] sets. *)
Module build.
Record Options := {
  Bucket : string;
  Registry : string;
  AllowDup : bool;
  ValidateRemoteImageDigests : bool;
  Version : string;
  BuildDir : string
}.
End build.

(** The constants and functions of other packages and of other files of
    the package. *)
Record Constants := {
  gitRoot : string;
  workspaceDir : string;
  DefaultBranch : string;           (* git.DefaultBranch *)
  DefaultK8sRef : string;           (* release.DefaultK8sRef *)
  Remotify : string -> string;      (* git.Remotify *)
  LicenseIdentifier : string;
  Join : list string -> string;     (* filepath.Join *)
  SourcesTar : string;              (* release.SourcesTar *)
  release_BuildDir : string;        (* release.BuildDir *)
  StagePath : string;               (* release.StagePath *)
  GCSStagePath : string;            (* release.GCSStagePath *)
  ImagesPath : string;              (* release.ImagesPath *)
  Bucket : StageOptions -> string;            (* options.Bucket() *)
  ContainerRegistry : StageOptions -> string  (* options.ContainerRegistry() *)
}.

(** The calls: the methods of [stageImpl] that [TagRepository], [Build],
    [GenerateBillOfMaterials] and [StageArtifacts] use, and
    [release.GetK8sRef].  A pointer handed to the implementation is named
    by what it points to at the call.  The argument
    [spdxDoc] of [WriteSourceBOM] is a pointer: it is named by the document
    as [GenerateSourceTreeBOM] returned it, and what earlier calls wrote
    into it belongs to what happened before. *)
Inductive Call : Type :=
  | OpenRepo (repoPath : string)
  | RevParseTag (repo : Repo) (rev : string)
  | Checkout (repo : Repo) (rev : string) (args : list string)
  | CurrentBranch (repo : Repo)
  | CommitEmpty (repo : Repo) (msg : string)
  | Merge (repo : Repo) (rev : string)
  | Tag (repo : Repo) (name message : string)
  | GetK8sRef
  | DockerHubLogin
  | MakeCross (version : string)
  | GenerateSourceTreeBOM (options : SourceTreeOptions)
  | WriteSourceBOM (spdxDoc : Anago.Document) (version : string)
  | GenerateVersionArtifactsBOM (version : string)
  | GenerateAttestation (state : StageState) (options : StageOptions)
  | CheckReleaseBucket (options : build.Options)
  | StageLocalSourceTree (options : build.Options)
      (workDir buildVersion : string)
  | GetProvenanceSubjects (options : StageOptions) (path : string)
  | StageLocalArtifacts (options : build.Options)
  | PushReleaseArtifacts (options : build.Options) (srcPath gcsPath : string)
  | PushContainerImages (options : build.Options)
  | GetOutputDirSubjects (options : StageOptions) (path version : string)
  | PushAttestation (attestation : Provenance.Statement)
      (options : StageOptions)
  | DeleteLocalSourceTarball (options : build.Options) (workDir : string).

(** What a call answers. *)
Definition Reply (c : Call) : Type :=
  match c with
  | OpenRepo _ => result Repo
  | RevParseTag _ _ => result string
  | CurrentBranch _ => result string
  | GetK8sRef => string
  | GenerateSourceTreeBOM _ => result Anago.Document
  | GenerateAttestation _ _ => result Provenance.Statement
  | GetProvenanceSubjects _ _ | GetOutputDirSubjects _ _ _ =>
      result (list Provenance.Subject)
  | Checkout _ _ _ | CommitEmpty _ _ | Merge _ _ | Tag _ _ _
  | DockerHubLogin | MakeCross _ | WriteSourceBOM _ _
  | GenerateVersionArtifactsBOM _
  | CheckReleaseBucket _ | StageLocalSourceTree _ _ _
  | StageLocalArtifacts _ | PushReleaseArtifacts _ _ _
  | PushContainerImages _ | PushAttestation _ _
  | DeleteLocalSourceTarball _ _ => option error
  end.

(** A method: it returns, or makes a call and goes on with the answer. *)
Inductive Prog (A : Type) : Type :=
  | Ret (a : A)
  | Do (c : Call) (k : Reply c -> Prog A).
Arguments Ret {A}.
Arguments Do {A}.

(** A call with its answer, and the implementation behind the interface:
    its answer to a call may depend on all that happened before. *)
Definition Event : Type := {c : Call & Reply c}.
Definition Impl : Type := list Event -> forall c : Call, Reply c.

(** Runs a method against an implementation after the events [h]: the
    value returned and the events of the run. *)
Fixpoint run {A} (impl : Impl) (p : Prog A) (h : list Event)
  : A * list Event :=
  match p with
  | Ret a => (a, [])
  | Do c k =>
      let r := impl h c in
      let '(a, t) := run impl (k r) (h ++ [existT Reply c r])%list in
      (a, existT Reply c r :: t)
  end.

(** [if err != nil { return errors.Wrap(err, message) }] after a call that
    answers an error only. *)
Definition wrapped (message : string) (err : option error)
  : Prog (option error) :=
  Ret (match err with
       | Some e => Some (Wrap e message)
       | None => None
       end).

(** One statement after the other, unless the first returned an error. *)
Fixpoint andThen (p : Prog (option error)) (q : Prog (option error))
  : Prog (option error) :=
  match p with
  | Ret (Some e) => Ret (Some e)
  | Ret None => q
  | Do c k => Do c (fun r => andThen (k r) q)
  end.

Section DefaultStage.
Context (consts : Constants) (options : StageOptions) (state : StageState).

(** The message of the tag of a version, lines 526-528. *)
Definition tagMessage (version : string) : string :=
  "Kubernetes " ++ ReleaseType options ++ " release " ++ version.

(** Lines 420-424. *)
Definition commit : string :=
  match semverBuildVersion_Build state with
  | c :: _ => c
  | [] => BuildVersion options
  end.

(** [branch != "" && !strings.HasPrefix(branch, "release-")] *)
Definition otherBranch (branch : string) : bool :=
  nonEmpty branch && negb (HasPrefix branch "release-").

(** Lines 410-544, the body of the loop of [TagRepository]. *)
Definition tagVersion (repo : Repo) (version : string)
  : Prog (option error) :=
  Do (RevParseTag repo version) (fun r =>
  match r with
  | inl _ => Ret (Some (New ("tag " ++ version ++ " already exists")))
  | inr _ =>
  andThen
    (if createReleaseBranch state then
       if version =? Prime state then
         Do (Checkout repo "-b" [ReleaseBranch options; commit])
            (wrapped "create new release branch")
       else
         Do (Checkout repo (DefaultBranch consts) [])
            (wrapped ("checkout " ++ DefaultBranch consts ++ " branch"))
     else
       Do (Checkout repo (ReleaseBranch options) [])
          (wrapped ("checking out branch " ++ ReleaseBranch options)))
  (Do (CurrentBranch repo) (fun r =>
  match r with
  | inr err => Ret (Some (Wrap err "get current branch"))
  | inl branch =>
  andThen
    (if HasPrefix branch "release-" then
       Do (CommitEmpty repo ("Release commit for Kubernetes " ++ version))
          (wrapped "create empty release commit")
     else Ret None)
  (andThen
    (if otherBranch branch then
       Do (Checkout repo commit []) (wrapped "checkout release commit")
     else Ret None)
  (Do GetK8sRef (fun ref =>
  andThen
    (if negb (ref =? DefaultK8sRef consts) then
       Do (Merge repo (Remotify consts ref)) (wrapped "merge k8s ref")
     else Ret None)
  (andThen
    (Do (Tag repo version (tagMessage version)) (wrapped "tag version"))
    (if otherBranch branch then
       Do (Checkout repo (ReleaseBranch options) [])
          (wrapped ("checking out branch " ++ ReleaseBranch options))
     else Ret None)))))
  end))
  end).

(** The loop of a method over the versions: it returns at the first
    error. *)
Fixpoint forVersions (body : string -> Prog (option error))
    (versions : list string) : Prog (option error) :=
  match versions with
  | [] => Ret None
  | version :: versions' =>
      andThen (body version) (forVersions body versions')
  end.

(** [TagRepository], lines 403-546. *)
Definition TagRepository : Prog (option error) :=
  Do (OpenRepo (gitRoot consts)) (fun r =>
  match r with
  | inr err => Ret (Some (Wrap err "open Kubernetes repository"))
  | inl repo => forVersions (tagVersion repo) (Ordered state)
  end).

(** [Build], lines 548-561. *)
Definition Build : Prog (option error) :=
  andThen
    (Do DockerHubLogin (wrapped "loging into Docker Hub"))
    (forVersions
       (fun version => Do (MakeCross version) (wrapped "build artifacts"))
       (Ordered state)).

(** [GenerateBillOfMaterials], lines 736-768. *)
Definition GenerateBillOfMaterials : Prog (option error) :=
  Do (GenerateSourceTreeBOM
        {| ProcessGoModules := true;
           License := LicenseIdentifier consts;
           OutputFile := "/tmp/kubernetes-source.spdx";
           Namespace := "https://sbom.k8s.io/REPLACE/source";
           ScanLicenses := true;
           Directories := [gitRoot consts] |}) (fun r =>
  match r with
  | inr err => Ret (Some (Wrap err "generating the kubernetes source SBOM"))
  | inl spdxDOC =>
      forVersions
        (fun version =>
           andThen
             (Do (WriteSourceBOM spdxDOC version)
                 (wrapped ("writing SBOM for version " ++ version)))
             (Do (GenerateVersionArtifactsBOM version)
                 (wrapped ("generating SBOM for version " ++ version))))
        (Ordered state)
  end).

(** [if err != nil { return errors.Wrap(err, message) }] in a method
    that goes on with values. *)
Definition checked (message : string) (err : option error)
  : Prog (result unit) :=
  Ret (match err with
       | Some e => inr (Wrap e message)
       | None => inl tt
       end).

Definition got {A} (message : string) (r : result A) : Prog (result A) :=
  Ret (orWrap r message).

(** One statement after the other, the second with the value of the
    first, unless the first returned an error. *)
Fixpoint bindP {A B} (p : Prog (result A)) (k : A -> Prog (result B))
  : Prog (result B) :=
  match p with
  | Ret (inl a) => k a
  | Ret (inr e) => Ret (inr e)
  | Do c f => Do c (fun r => bindP (f r) k)
  end.

(** A loop over the versions that carries the values [s] it updates. *)
Fixpoint foldVersions {S} (body : S -> string -> Prog (result S))
    (versions : list string) (s : S) : Prog (result S) :=
  match versions with
  | [] => Ret (inl s)
  | version :: versions' =>
      bindP (body s version) (foldVersions body versions')
  end.

(** Lines 807-809 and 811-812: the build directory of a version, and the
    push options once the loop has set them for the version. *)
Definition buildDir (version : string) : string :=
  Join consts [gitRoot consts; release_BuildDir consts ++ "-" ++ version].

Definition forVersion (pushBuildOptions : build.Options) (version : string)
  : build.Options :=
  {| build.Bucket := build.Bucket pushBuildOptions;
     build.Registry := build.Registry pushBuildOptions;
     build.AllowDup := build.AllowDup pushBuildOptions;
     build.ValidateRemoteImageDigests :=
       build.ValidateRemoteImageDigests pushBuildOptions;
     build.Version := version;
     build.BuildDir := buildDir version |}.

(** [statement.Subject = append(statement.Subject, subjects...)] *)
Definition addSubjects (statement : Provenance.Statement)
    (subjects : list Provenance.Subject) : Provenance.Statement :=
  Provenance.set_Subject statement
    (Provenance.Subject_ statement ++ subjects)%list.

(** Lines 805-854, the body of the loop of [StageArtifacts]: the push
    options and the statement are those the turns before left. *)
Definition stageVersion (s : build.Options * Provenance.Statement)
    (version : string) : Prog (result (build.Options * Provenance.Statement)) :=
  let pushBuildOptions := forVersion (fst s) version in
  let statement := snd s in
  let gcsPath :=
    Join consts [Bucket consts options; StagePath consts;
                 BuildVersion options; version] in
  bindP (Do (StageLocalArtifacts pushBuildOptions)
            (checked "staging local artifacts")) (fun _ =>
  bindP (Do (PushReleaseArtifacts pushBuildOptions
               (Join consts [buildDir version; GCSStagePath consts; version])
               (Join consts [gcsPath; GCSStagePath consts; version]))
            (checked "pushing release artifacts")) (fun _ =>
  bindP (Do (PushReleaseArtifacts pushBuildOptions
               (Join consts [buildDir version; ImagesPath consts])
               (Join consts [gcsPath; ImagesPath consts]))
            (checked "pushing release artifacts")) (fun _ =>
  bindP (Do (PushContainerImages pushBuildOptions)
            (checked "pushing container images")) (fun _ =>
  bindP (Do (GetOutputDirSubjects options (Join consts [buildDir version])
               version)
            (got ("adding provenance of release-images for version "
                  ++ version))) (fun subjects =>
  Ret (inl (pushBuildOptions, addSubjects statement subjects))))))).

(** Lines 777-782: the push options as they are made. *)
Definition newPushBuildOptions : build.Options :=
  {| build.Bucket := Bucket consts options;
     build.Registry := ContainerRegistry consts options;
     build.AllowDup := true;
     build.ValidateRemoteImageDigests := true;
     build.Version := "";
     build.BuildDir := "" |}.

(** [StageArtifacts], lines 770-882, up to the hint it logs at the end;
    [inl tt] is the nil error. *)
Definition StageArtifacts : Prog (result unit) :=
  bindP (Do (GenerateAttestation state options)
            (got "generating the provenance attestation")) (fun statement =>
  let pushBuildOptions := newPushBuildOptions in
  bindP (Do (CheckReleaseBucket pushBuildOptions)
            (checked "check release bucket access")) (fun _ =>
  bindP (Do (StageLocalSourceTree pushBuildOptions (workspaceDir consts)
               (BuildVersion options))
            (checked "staging local source tree")) (fun _ =>
  bindP (Do (GetProvenanceSubjects options
               (Join consts [workspaceDir consts; SourcesTar consts]))
            (got "adding sources tarball to provenance attestation"))
        (fun subjects =>
  bindP (foldVersions stageVersion (Ordered state)
           (pushBuildOptions, addSubjects statement subjects)) (fun s =>
  bindP (Do (PushAttestation (snd s) options)
            (checked "writing provenance metadata to disk")) (fun _ =>
  Do (DeleteLocalSourceTarball (fst s) (workspaceDir consts))
     (checked "delete source tarball"))))))).

End DefaultStage.

(** The error a call answered, if any. *)
Definition errorOf (ev : Event) : option error :=
  match ev with
  | existT _ c r =>
      match c return Reply c -> option error with
      | OpenRepo _ | RevParseTag _ _ | CurrentBranch _ =>
          fun r => match r with inl _ => None | inr e => Some e end
      | GenerateSourceTreeBOM _ =>
          fun r => match r with inl _ => None | inr e => Some e end
      | GenerateAttestation _ _ =>
          fun r => match r with inl _ => None | inr e => Some e end
      | GetProvenanceSubjects _ _ | GetOutputDirSubjects _ _ _ =>
          fun r => match r with inl _ => None | inr e => Some e end
      | GetK8sRef => fun _ => None
      | Checkout _ _ _ | CommitEmpty _ _ | Merge _ _ | Tag _ _ _
      | DockerHubLogin | MakeCross _ | WriteSourceBOM _ _
      | GenerateVersionArtifactsBOM _
      | CheckReleaseBucket _ | StageLocalSourceTree _ _ _
      | StageLocalArtifacts _ | PushReleaseArtifacts _ _ _
      | PushContainerImages _ | PushAttestation _ _
      | DeleteLocalSourceTarball _ _ => fun r => r
      end r
  end.

(** The tags created in a run: the names and messages of the [Tag] calls
    that answered no error, in order. *)
Fixpoint tagsOf (t : list Event) : list (string * string) :=
  match t with
  | [] => []
  | ev :: t' =>
      match projT1 ev, errorOf ev with
      | Tag _ name message, None => (name, message) :: tagsOf t'
      | _, _ => tagsOf t'
      end
  end.

(** A [CurrentBranch] call that answered a release branch. *)
Definition onReleaseBranch (ev : Event) : Prop :=
  exists repo branch,
    ev = existT Reply (CurrentBranch repo) (inl branch)
    /\ HasPrefix branch "release-" = true.

(** Every [CommitEmpty] call of [t] comes right after a [CurrentBranch]
    call that answered a release branch; [prev] is the event before [t]. *)
Fixpoint commitsOnReleaseBranch (prev : option Event) (t : list Event)
  : Prop :=
  match t with
  | [] => True
  | ev :: t' =>
      (forall repo msg, projT1 ev = CommitEmpty repo msg ->
         match prev with
         | Some p => onReleaseBranch p
         | None => False
         end)
      /\ commitsOnReleaseBranch (Some ev) t'
  end.

(** What one turn of the loop of [TagRepository] for [version] does, as
    the events [t] of its run and the error [res] it returns. *)
Definition tagVersionRun (options : StageOptions) (repo : Repo)
    (version : string) (res : option error) (t : list Event) : Prop :=
  exists r0 t',
    t = existT Reply (RevParseTag repo version) r0 :: t'
    /\ (forall sha, r0 = inl sha ->
          t' = []
          /\ res = Some (New ("tag " ++ version ++ " already exists")))
    /\ Forall (fun ev => forall repo' rev,
                 projT1 ev <> RevParseTag repo' rev) t'
    /\ Forall (fun ev => forall repo' name message,
                 projT1 ev = Tag repo' name message ->
                 repo' = repo /\ name = version
                 /\ message = tagMessage options version) t'
    /\ (res = None -> tagsOf t = [(version, tagMessage options version)])
    /\ (res = None -> Forall (fun ev => errorOf ev = None) t')
    /\ commitsOnReleaseBranch
         (Some (existT Reply (RevParseTag repo version) r0)) t'.

(** The run of a loop over the versions, from the runs of its turns: the
    events of the turns one after the other, up to the first turn that
    returns an error. *)
Inductive loopRun (turn : string -> option error -> list Event -> Prop)
  : list string -> option error -> list Event -> Prop :=
  | loopRun_done : loopRun turn [] None []
  | loopRun_stop version versions e t :
      turn version (Some e) t ->
      loopRun turn (version :: versions) (Some e) t
  | loopRun_next version versions res t t' :
      turn version None t ->
      loopRun turn versions res t' ->
      loopRun turn (version :: versions) res (t ++ t').

(** The calls of a run, without their answers. *)
Definition callsOf (t : list Event) : list Call := map (@projT1 _ _) t.

(** A run that follows the plan [plan]: it makes the calls of the plan in
    order; when it returns no error it made them all and none answered an
    error; when it returns an error, the last call it made is the only one
    that answered an error, and the error returned wraps that one. *)
Definition planned (plan : list Call) (res : option error) (t : list Event)
  : Prop :=
  (res = None ->
   callsOf t = plan /\ Forall (fun ev => errorOf ev = None) t)
  /\ (forall e, res = Some e ->
        exists t0 ev cause message rest,
          t = (t0 ++ [ev])%list
          /\ Forall (fun ev => errorOf ev = None) t0
          /\ errorOf ev = Some cause
          /\ e = Wrap cause message
          /\ plan = (callsOf t ++ rest)%list).

(** The subjects a run was given: those of the statement that
    [GenerateAttestation] answered and those that [GetProvenanceSubjects]
    and [GetOutputDirSubjects] answered, in order. *)
Definition subjectsOfEvent (ev : Event) : list Provenance.Subject :=
  match ev with
  | existT _ c r =>
      match c return Reply c -> list Provenance.Subject with
      | GenerateAttestation _ _ =>
          fun r => match r with
                   | inl statement => Provenance.Subject_ statement
                   | inr _ => []
                   end
      | GetProvenanceSubjects _ _ | GetOutputDirSubjects _ _ _ =>
          fun r => match r with inl subjects => subjects | inr _ => [] end
      | _ => fun _ => []
      end r
  end.

Definition subjectsOf (t : list Event) : list Provenance.Subject :=
  flat_map subjectsOfEvent t.

(** The output directories a run read the subjects of, with their
    versions. *)
Definition outputDirOfEvent (ev : Event) : list (string * string) :=
  match projT1 ev, errorOf ev with
  | GetOutputDirSubjects _ path version, None => [(path, version)]
  | _, _ => []
  end.

Definition outputDirsOf (t : list Event) : list (string * string) :=
  flat_map outputDirOfEvent t.

(** The push options of a call that pushes or stages, if it is one. *)
Definition pushOptionsOf (c : Call) : option build.Options :=
  match c with
  | CheckReleaseBucket o | StageLocalSourceTree o _ _
  | StageLocalArtifacts o | PushReleaseArtifacts o _ _
  | PushContainerImages o | DeleteLocalSourceTarball o _ => Some o
  | _ => None
  end.

Definition isPushAttestation (ev : Event) : Prop :=
  exists statement options r,
    ev = existT Reply (PushAttestation statement options) r.

(** A run that stops at the first error: when it returns a value no call
    answered an error; when it returns an error, the last call it made is
    the only one that answered one, and the error returned wraps it. *)
Definition stopsAtFirstError {A} (res : result A) (t : list Event) : Prop :=
  (forall a, res = inl a -> Forall (fun ev => errorOf ev = None) t)
  /\ (forall e, res = inr e ->
        exists t0 ev cause message,
          t = (t0 ++ [ev])%list
          /\ Forall (fun ev => errorOf ev = None) t0
          /\ errorOf ev = Some cause
          /\ e = Wrap cause message).

(** What a call of the loop of [StageArtifacts] for the versions
    [versions] is: not [PushAttestation], and when it takes push options,
    they are those of one of the versions. *)
Definition stagesVersion (consts : Constants)
    (pushBuildOptions : build.Options) (versions : list string)
    (ev : Event) : Prop :=
  ~ isPushAttestation ev
  /\ forall o, pushOptionsOf (projT1 ev) = Some o ->
       exists version,
         In version versions
         /\ o = forVersion consts pushBuildOptions version.

(** The push options that [StageArtifacts] hands over: those it made,
    or those, set for one of the versions. *)
Definition pushOptionsOK (consts : Constants) (options : StageOptions)
    (state : StageState) (ev : Event) : Prop :=
  forall o, pushOptionsOf (projT1 ev) = Some o ->
    o = newPushBuildOptions consts options
    \/ exists version,
         In version (Ordered state)
         /\ o = forVersion consts (newPushBuildOptions consts options)
                 version.

(** What the loop of [StageArtifacts] does over [versions] from the push
    options and the statement [s], as the events [t] of its run and what
    it returns. *)
Definition stageVersionsRun (consts : Constants)
    (s : build.Options * Provenance.Statement) (versions : list string)
    (res : result (build.Options * Provenance.Statement))
    (t : list Event) : Prop :=
  Forall (stagesVersion consts (fst s) versions) t
  /\ stopsAtFirstError res t
  /\ forall s', res = inl s' ->
       fst s' = fold_left (forVersion consts) versions (fst s)
       /\ Provenance.Subject_ (snd s')
          = (Provenance.Subject_ (snd s) ++ subjectsOf t)%list
       /\ Provenance.Statement_Predicate (snd s')
          = Provenance.Statement_Predicate (snd s)
       /\ outputDirsOf t
          = map (fun version =>
                   (Join consts [buildDir consts version], version))
                versions.

End Steps.
(** ** The attestation of a run: GenerateAttestation *)

Module Attest.
Import GoStrings IDString SPDX Provenance Steps.

(** The classes of the expression [commit\s+([a-f0-9]{40})] of line 910:
    [\s] is tab, line feed, form feed, carriage return and space. *)
Definition isSpace (c : ascii) : bool :=
  let n := nat_of_ascii c in
  (n =? 9)%nat || (n =? 10)%nat || (n =? 12)%nat || (n =? 13)%nat
  || (n =? 32)%nat.

Definition isHex (c : ascii) : bool := inRange 97 102 c || inRange 48 57 c.

Fixpoint take (n : nat) (s : string) : string :=
  match n, s with
  | S n', String c s' => String c (take n' s')
  | _, _ => ""
  end.

Fixpoint drop (n : nat) (s : string) : string :=
  match n, s with
  | S n', String _ s' => drop n' s'
  | _, _ => s
  end.

(** The longest prefix of [s] made of white space. *)
Fixpoint spaces (s : string) : string :=
  match s with
  | String c s' => if isSpace c then String c (spaces s') else ""
  | EmptyString => ""
  end.

(** The match of the expression at the start of [s], if there is one:
    "commit", all the white space that follows, at least one byte of it,
    and forty hexadecimal digits.  No byte is in both classes, so the
    white space of a match ends where the white space of [s] ends. *)
Definition matchAt (s : string) : option string :=
  if HasPrefix s "commit" then
    let rest := drop 6 s in
    let ws := spaces rest in
    let hex := take 40 (drop (String.length ws) rest) in
    if nonEmpty ws && (String.length hex =? 40)%nat && allChars isHex hex
    then Some ("commit" ++ ws ++ hex)
    else None
  else None.

(** [re.FindString(s)]: the text of the leftmost match, or the empty
    string. *)
Fixpoint FindString (s : string) : string :=
  match matchAt s with
  | Some m => m
  | None =>
      match s with
      | String _ s' => FindString s'
      | EmptyString => ""
      end
  end.

(** What [GenerateAttestation] reads of the machine, and the functions of
    the packages git and provenance. *)
Record World := {
  git_OpenRepo : string -> result Repo;            (* git.OpenRepo *)
  ShowLastCommit : Repo -> result string;          (* repo.ShowLastCommit() *)
  Getenv : string -> string;                       (* os.Getenv *)
  Now : Time;                                      (* time.Now() *)
  NewSLSAPredicate : Predicate;
  AddMaterial : Predicate -> string -> DigestSet -> Predicate;
  NewSLSAStatement : Statement
}.

Section GenerateAttestation.
Context (w : World) (consts : Constants).

(** Lines 888-895: the map of the arguments, by its entries. *)
Definition arguments (options : StageOptions) : list (string * string) :=
  [("--type=", ReleaseType options);
   ("--branch=", ReleaseBranch options);
   ("--build-version=", BuildVersion options)]
  ++ (if NoMock options then [("--nomock", "true")] else []).

(** Lines 918-939: the predicate of the run. *)
Definition predicate (state : StageState) (options : StageOptions)
  : Predicate :=
  let p := NewSLSAPredicate w in
  {| Builder_ID :=
       "pkg:github/" ++ Getenv w "TOOL_ORG" ++ "/" ++ Getenv w "TOOL_REPO"
       ++ "@" ++ Getenv w "TOOL_REF";
     Completeness_Arguments := true;
     Completeness_Materials := true;
     BuildStartedOn := Some (UTC (startTime state));
     BuildFinishedOn := Some (UTC (Now w));
     Recipe_Type := "https://cloudbuild.googleapis.com/CloudBuildYaml@v1";
     Recipe_EntryPoint :=
       "https://github.com/kubernetes/release/blob/master/gcb/stage/cloudbuild.yaml";
     Recipe_Arguments := arguments options;
     Materials := Materials p |}.

(** [GenerateAttestation], lines 886-948. *)
Definition GenerateAttestation (state : StageState) (options : StageOptions)
  : result Statement :=
  repo <- orWrap (git_OpenRepo w (gitRoot consts))
            "opening repository to check commit hash" ;;
  logData <- orWrap (ShowLastCommit w repo) "getting last commit data" ;;
  let commitSHA := FindString logData in
  if commitSHA =? "" then
    inr (New "Unable to find last commit sha in git output")
  else
    let p := AddMaterial w (predicate state options)
               "git+https://github.com/kubernetes/kubernetes"
               [("sha1", commitSHA)] in
    inl (set_Predicate (NewSLSAStatement w) p).

End GenerateAttestation.

(** The log has a match of the expression somewhere. *)
Definition hasCommit (logData : string) : Prop :=
  exists pre ws hex post,
    logData = pre ++ "commit" ++ ws ++ hex ++ post
    /\ nonEmpty ws = true /\ allChars isSpace ws = true
    /\ String.length hex = 40 /\ allChars isHex hex = true.

End Attest.
(** Implementations of the interface and inputs for the runs of the
    examples. *)
Module SampleSteps.
Import SPDX Steps.

Definition consts : Constants :=
  {| gitRoot := "/workspace/src/k8s.io/kubernetes";
     workspaceDir := "/workspace";
     DefaultBranch := "master";
     DefaultK8sRef := "master";
     Remotify := fun ref => "origin/" ++ ref;
     LicenseIdentifier := "Apache-2.0";
     Join := String.concat "/";
     SourcesTar := "src.tar.gz";
     release_BuildDir := "_output";
     StagePath := "stage";
     GCSStagePath := "gcs-stage";
     ImagesPath := "release-images";
     Bucket := fun options =>
       if NoMock options then "kubernetes-release"
       else "kubernetes-release-gcb";
     ContainerRegistry := fun options =>
       if NoMock options then "gcr.io/k8s-staging-kubernetes"
       else "gcr.io/kubernetes-release-test" |}.

Definition options : StageOptions :=
  {| ReleaseType := "official";
     ReleaseBranch := "release-1.20";
     BuildVersion := "v1.20.0-rc.0.12+abcdef0";
     NoMock := false |}.

Definition state : StageState :=
  {| Ordered := ["v1.20.0"; "v1.20.1-rc.0"];
     Prime := "v1.20.0";
     semverBuildVersion_Build := ["abcdef0"];
     createReleaseBranch := false;
     startTime := {| Provenance.instant := 100;
                     Provenance.location := "Local" |} |}.

(** A repository on the branch release-1.20 that has the tags [tags]:
    every call succeeds, [RevParseTag] finds the tags of [tags] only. *)
Definition git (tags : list string) : Impl :=
  fun _ c =>
    match c return Reply c with
    | OpenRepo repoPath => inl repoPath
    | RevParseTag _ rev =>
        if existsb (String.eqb rev) tags then inl "abcdef0"
        else inr ("unknown revision " ++ rev)
    | CurrentBranch _ => inl "release-1.20"
    | GetK8sRef => "master"
    | GenerateSourceTreeBOM _ => inr "directory not found"
    | GenerateAttestation _ _ => inr "repository not found"
    | GetProvenanceSubjects _ _ | GetOutputDirSubjects _ _ _ => inl []
    | Checkout _ _ _ | CommitEmpty _ _ | Merge _ _ | Tag _ _ _
    | DockerHubLogin | MakeCross _ | WriteSourceBOM _ _
    | GenerateVersionArtifactsBOM _
    | CheckReleaseBucket _ | StageLocalSourceTree _ _ _
    | StageLocalArtifacts _ | PushReleaseArtifacts _ _ _
    | PushContainerImages _ | PushAttestation _ _
    | DeleteLocalSourceTarball _ _ => None
    end.

Definition emptyPredicate : Provenance.Predicate :=
  {| Provenance.Builder_ID := "";
     Provenance.Completeness_Arguments := false;
     Provenance.Completeness_Materials := false;
     Provenance.BuildStartedOn := None;
     Provenance.BuildFinishedOn := None;
     Provenance.Recipe_Type := "";
     Provenance.Recipe_EntryPoint := "";
     Provenance.Recipe_Arguments := [];
     Provenance.Materials := [] |}.

Definition subject (name : string) : Provenance.Subject :=
  {| Provenance.Subject_Name := name;
     Provenance.Digest := [("sha256", "e3b0c442")] |}.

(** An implementation of which every call succeeds, with one subject for
    the sources and one for each output directory. *)
Definition staging : Impl :=
  fun h c =>
    match c return Reply c with
    | GenerateAttestation _ _ =>
        inl {| Provenance.Subject_ := [];
               Provenance.Statement_Predicate := emptyPredicate |}
    | GetProvenanceSubjects _ path => inl [subject path]
    | GetOutputDirSubjects _ path _ =>
        inl [subject (path ++ "/kubernetes.tar.gz")]
    | c' => git [] h c'
    end.

(** The statement that a run against [staging] pushes. *)
Definition pushed : Provenance.Statement :=
  {| Provenance.Subject_ :=
       [subject "/workspace/src.tar.gz";
        subject ("/workspace/src/k8s.io/kubernetes/_output-v1.20.0"
                 ++ "/kubernetes.tar.gz");
        subject ("/workspace/src/k8s.io/kubernetes/_output-v1.20.1-rc.0"
                 ++ "/kubernetes.tar.gz")];
     Provenance.Statement_Predicate := emptyPredicate |}.

End SampleSteps.
(** Machines for the examples of [GenerateAttestation]. *)
Module SampleAttest.
Import SPDX Provenance Steps Attest.

Definition sha : string := "0123456789abcdef0123456789abcdef01234567".

(** A machine whose repository answers [logData] to [ShowLastCommit]. *)
Definition world (logData : string) : World :=
  {| git_OpenRepo := fun repoPath => inl repoPath;
     ShowLastCommit := fun _ => inl logData;
     Getenv := fun name =>
       if name =? "TOOL_ORG" then "kubernetes"
       else if name =? "TOOL_REPO" then "release"
       else if name =? "TOOL_REF" then "master"
       else "";
     Now := {| instant := 200; location := "Local" |};
     NewSLSAPredicate :=
       {| Builder_ID := "";
          Completeness_Arguments := false;
          Completeness_Materials := false;
          BuildStartedOn := None;
          BuildFinishedOn := None;
          Recipe_Type := "";
          Recipe_EntryPoint := "";
          Recipe_Arguments := [];
          Materials := [] |};
     AddMaterial := fun p uri digest =>
       {| Builder_ID := Builder_ID p;
          Completeness_Arguments := Completeness_Arguments p;
          Completeness_Materials := Completeness_Materials p;
          BuildStartedOn := BuildStartedOn p;
          BuildFinishedOn := BuildFinishedOn p;
          Recipe_Type := Recipe_Type p;
          Recipe_EntryPoint := Recipe_EntryPoint p;
          Recipe_Arguments := Recipe_Arguments p;
          Materials := (Materials p ++ [(uri, digest)])%list |};
     NewSLSAStatement :=
       {| Subject_ := [];
          Statement_Predicate :=
            {| Builder_ID := "";
               Completeness_Arguments := false;
               Completeness_Materials := false;
               BuildStartedOn := None;
               BuildFinishedOn := None;
               Recipe_Type := "";
               Recipe_EntryPoint := "";
               Recipe_Arguments := [];
               Materials := [] |} |} |}.

(** The output of git for the last commit, and an output without one. *)
Definition commitLog : string :=
  "commit " ++ sha ++ String "010" "Author: Release Manager".

Definition emptyLog : string := "fatal: your current branch has no commits".

End SampleAttest.

(** * Properties *)

(** ** Strings *)

Section GoStringsFacts.
Import GoStrings.

Lemma allChars_app p s t :
  allChars p (s ++ t) = allChars p s && allChars p t.
Proof.
  induction s as [|c s IH]; simpl; [reflexivity|].
  now rewrite IH, andb_assoc.
Qed.

Lemma allChars_filterChars p s : allChars p (filterChars p s) = true.
Proof.
  induction s as [|c s IH]; simpl; [reflexivity|].
  destruct (p c) eqn:E; simpl; [rewrite E|]; assumption.
Qed.

Lemma allChars_impl (p q : ascii -> bool) s :
  (forall c, p c = true -> q c = true) ->
  allChars p s = true -> allChars q s = true.
Proof.
  intros Hpq. induction s as [|c s IH]; simpl; [reflexivity|].
  intros [Hc Hs]%andb_prop. rewrite (Hpq _ Hc). auto.
Qed.

Lemma length_app s t :
  String.length (s ++ t) = String.length s + String.length t.
Proof. induction s; simpl; congruence. Qed.

Lemma nonEmpty_length s : nonEmpty s = true <-> String.length s <> 0.
Proof.
  destruct s; unfold nonEmpty; simpl; split; intro H;
    try discriminate; try reflexivity; now elim H.
Qed.

Lemma nonEmpty_app_r s t : nonEmpty t = true -> nonEmpty (s ++ t) = true.
Proof.
  rewrite !nonEmpty_length, length_app. lia.
Qed.

(** Equal strings that end in equally long tails have equal tails. *)
Lemma app_inv_tail_length p1 : forall p2 u1 u2,
  String.length u1 = String.length u2 ->
  p1 ++ u1 = p2 ++ u2 -> u1 = u2.
Proof.
  induction p1 as [|c p1 IH]; intros [|d p2] u1 u2 Hlen Heq; simpl in *.
  - assumption.
  - apply (f_equal String.length) in Heq. simpl in Heq.
    rewrite length_app in Heq. lia.
  - apply (f_equal String.length) in Heq. simpl in Heq.
    rewrite length_app in Heq. lia.
  - injection Heq as _ Heq. eauto.
Qed.

Lemma app_assoc_string s t u : (s ++ t) ++ u = s ++ t ++ u.
Proof. induction s; simpl; congruence. Qed.

Lemma app_empty_r s : s ++ "" = s.
Proof. induction s; simpl; congruence. Qed.

End GoStringsFacts.

(** ** The identifier allocator *)

Section IDStringFacts.
Import GoStrings IDString.

Lemma sanitize_valid s : allChars validIDChar (sanitize s) = true.
Proof. apply allChars_filterChars. Qed.

Lemma survivors_valid seeds :
  Forall (fun s => allChars validIDChar s = true) (survivors seeds).
Proof.
  unfold survivors. induction seeds as [|s seeds IH]; simpl; [constructor|].
  destruct (nonEmpty (sanitize s)); [constructor|]; auto using sanitize_valid.
Qed.

Lemma survivors_nonEmpty seeds :
  Forall (fun s => nonEmpty s = true) (survivors seeds).
Proof.
  unfold survivors. induction seeds as [|s seeds IH]; simpl; [constructor|].
  destruct (nonEmpty (sanitize s)) eqn:E; [constructor|]; auto.
Qed.

(** The loop collects the survivors and counts the meaningful seeds. *)
Lemma seedLoop_spec seeds : forall validSeeds numValidSeeds,
  seedLoop seeds validSeeds numValidSeeds =
  ((validSeeds ++ survivors seeds)%list,
   numValidSeeds + List.length (filter meaningful seeds)).
Proof.
  unfold survivors, meaningful.
  induction seeds as [|s seeds IH]; intros v n; simpl.
  - now rewrite app_nil_r, Nat.add_0_r.
  - destruct (nonEmpty (sanitize s)) eqn:E; simpl; rewrite IH.
    + rewrite <- app_assoc. simpl.
      destruct (HasPrefix (sanitize s) "SPDXRef-"); simpl; f_equal; lia.
    + reflexivity.
Qed.

Lemma filter_length_0 {A} (p : A -> bool) l :
  List.length (filter p l) = 0 <-> forallb (fun x => negb (p x)) l = true.
Proof.
  induction l as [|x l IH]; simpl; [tauto|].
  destruct (p x); simpl; [split; [lia | discriminate] | exact IH].
Qed.

Lemma existsb_filter_length {A} (p : A -> bool) l :
  existsb p l = true -> List.length (filter p l) <> 0.
Proof.
  induction l as [|x l IH]; simpl; [discriminate|].
  destruct (p x); simpl; [lia | exact IH].
Qed.

Lemma concat_cons_app sep a s rest :
  String.concat sep ((a ++ sep ++ s) :: rest) = a ++ sep ++ String.concat sep (s :: rest).
Proof.
  destruct rest as [|x xs]; simpl; [reflexivity|].
  now rewrite !app_assoc_string.
Qed.

(** On non-empty seeds the joining loop is [strings.Join(_, "-")]. *)
Lemma joinLoop_concat l : forall id,
  nonEmpty id = true ->
  Forall (fun s => nonEmpty s = true) l ->
  joinLoop l id = String.concat "-" (id :: l).
Proof.
  induction l as [|s l IH]; intros id Hid Hl; [reflexivity|].
  inversion Hl as [|? ? Hs Hl']; subst.
  cbn [joinLoop]. rewrite Hid, IH; auto.
  - rewrite app_assoc_string. apply concat_cons_app.
  - now apply nonEmpty_app_r.
Qed.

Lemma joinLoop_empty_concat l :
  Forall (fun s => nonEmpty s = true) l ->
  joinLoop l "" = String.concat "-" l.
Proof.
  destruct l as [|s l]; intros Hl; [reflexivity|].
  inversion Hl; subst. cbn [joinLoop]. simpl. now apply joinLoop_concat.
Qed.

Lemma concat_valid l :
  Forall (fun s => allChars validIDChar s = true) l ->
  allChars validIDChar (String.concat "-" l) = true.
Proof.
  induction 1 as [|s l Hs Hl IH]; [reflexivity|].
  destruct l as [|x xs]; [exact Hs|].
  change (String.concat "-" (s :: x :: xs)) with (s ++ "-" ++ String.concat "-" (x :: xs)).
  rewrite !allChars_app, Hs, IH. reflexivity.
Qed.

Lemma concat_nonEmpty l :
  l <> [] -> Forall (fun s => nonEmpty s = true) l ->
  nonEmpty (String.concat "-" l) = true.
Proof.
  intros Hne Hl. destruct Hl as [|s l Hs Hl]; [congruence|].
  destruct l as [|x xs]; [exact Hs|].
  change (String.concat "-" (s :: x :: xs)) with (s ++ "-" ++ String.concat "-" (x :: xs)).
  apply nonEmpty_length. apply nonEmpty_length in Hs.
  rewrite length_app. lia.
Qed.

(** The last element of a joined list is a suffix of the result. *)
Lemma concat_snoc l u : exists pre, String.concat "-" (l ++ [u]) = pre ++ u.
Proof.
  induction l as [|x l [pre IH]].
  - now exists "".
  - exists (x ++ "-" ++ pre).
    change ((x :: l) ++ [u])%list with (x :: (l ++ [u]))%list.
    destruct (l ++ [u])%list eqn:E; [now destruct l|].
    change (String.concat "-" (x :: s :: l0)) with (x ++ "-" ++ String.concat "-" (s :: l0)).
    now rewrite IH, !app_assoc_string.
Qed.

Lemma isUUIDString_length u : isUUIDString u = true -> String.length u = 36.
Proof. now intros [H _]%andb_prop; apply Nat.eqb_eq. Qed.

Lemma isUUIDString_nonEmpty u : isUUIDString u = true -> nonEmpty u = true.
Proof.
  intros H. apply nonEmpty_length. rewrite (isUUIDString_length _ H). lia.
Qed.

Lemma isHexDigit_valid c :
  isHexDigit c || Ascii.eqb c "-" = true -> validIDChar c = true.
Proof.
  unfold isHexDigit, validIDChar, inRange.
  destruct (Ascii.eqb c "-"); [now rewrite !orb_true_r|].
  rewrite !orb_false_r.
  intros [H|H]%orb_prop; apply andb_prop in H as [H1 H2];
    apply Nat.leb_le in H1, H2.
  - replace (48 <=? nat_of_ascii c)%nat with true
      by (symmetry; apply Nat.leb_le; lia).
    replace (nat_of_ascii c <=? 57)%nat with true
      by (symmetry; apply Nat.leb_le; lia).
    now rewrite !orb_true_r.
  - replace (97 <=? nat_of_ascii c)%nat with true
      by (symmetry; apply Nat.leb_le; lia).
    replace (nat_of_ascii c <=? 122)%nat with true
      by (symmetry; apply Nat.leb_le; lia).
    reflexivity.
Qed.

Lemma isUUIDString_valid u :
  isUUIDString u = true -> allChars validIDChar u = true.
Proof.
  intros [_ H]%andb_prop. revert H. apply allChars_impl, isHexDigit_valid.
Qed.

(** [buildIDString] in closed form. *)
Lemma buildIDString_spec uuid seeds :
  nonEmpty uuid = true ->
  buildIDString uuid seeds =
  String.concat "-" (if existsb meaningful seeds then survivors seeds
              else (survivors seeds ++ [uuid])%list).
Proof.
  intros Hu. unfold buildIDString. rewrite seedLoop_spec. simpl.
  destruct (existsb meaningful seeds) eqn:E.
  - apply existsb_filter_length in E.
    destruct (List.length (filter meaningful seeds)); [congruence|]. simpl.
    apply joinLoop_empty_concat, survivors_nonEmpty.
  - assert (H : List.length (filter meaningful seeds) = 0).
    { apply filter_length_0. clear -E.
      induction seeds as [|s l IH]; simpl in *; [reflexivity|].
      apply orb_false_elim in E as [-> E]. simpl. auto. }
    rewrite H. simpl. apply joinLoop_empty_concat.
    apply Forall_app. split; [apply survivors_nonEmpty | now constructor].
Qed.

End IDStringFacts.

(** ** The scan of PackageFromDirectory *)

Section ScanFacts.
Import GoStrings SPDX.
Context {Reader Patterns : Type}.
Context (world : World) (impl : spdxImplementation Reader Patterns)
        (options : Options).

(** A property that every step keeps is kept by a whole schedule. *)
Lemma fold_left_invariant {A B} (P : A -> Prop) (step : A -> B -> A) :
  (forall a b, P a -> P (step a b)) ->
  forall l a, P a -> P (fold_left step l a).
Proof.
  intros Hstep l. induction l as [|b l IH]; intros a Ha; cbn [fold_left].
  - exact Ha.
  - apply IH, Hstep, Ha.
Qed.

Lemma sameButFiles_refl p : sameButFiles p p.
Proof. repeat split. Qed.

Lemma sameButFiles_trans p q r :
  sameButFiles p q -> sameButFiles q r -> sameButFiles p r.
Proof.
  unfold sameButFiles. intros (?&?&?&?&?&?) (?&?&?&?&?&?).
  repeat split; congruence.
Qed.

Lemma AddFile_sameButFiles p f :
  sameButFiles p (fst (AddFile world p f)).
Proof.
  unfold AddFile. destruct (AddFile_refused world p f); simpl;
    repeat split.
Qed.

Lemma processDirectoryFile_sameButFiles dirPath licenseTag reader g fr :
  sameButFiles (pkg fr)
    (pkg (snd (processDirectoryFile world impl dirPath licenseTag reader g fr))).
Proof.
  unfold processDirectoryFile.
  destruct (pc g); simpl; try apply sameButFiles_refl.
  - destruct (LicenseFromFile impl reader (SourceFile (f g))); simpl.
    apply sameButFiles_refl.
  - destruct (err fr); simpl; apply sameButFiles_refl.
  - destruct (ReadSourceFile world (f g) (Join world [dirPath; path g]))
      as [f' [e|]]; simpl; apply sameButFiles_refl.
  - match goal with |- context [AddFile world ?p ?f] =>
      pose proof (AddFile_sameButFiles p f) as H;
      destruct (AddFile world p f) as [p' e] end.
    exact H.
Qed.

Lemma step_sameButFiles dirPath licenseTag reader fr i :
  sameButFiles (pkg fr) (pkg (step world impl dirPath licenseTag reader fr i)).
Proof.
  unfold step.
  destruct (nth_error (goroutines fr) i) as [g|]; [|apply sameButFiles_refl].
  destruct (started i fr); [|apply sameButFiles_refl].
  pose proof (processDirectoryFile_sameButFiles dirPath licenseTag reader g fr)
    as H.
  destruct (processDirectoryFile world impl dirPath licenseTag reader g fr).
  exact H.
Qed.

Lemma fold_step_sameButFiles dirPath licenseTag reader sched : forall fr,
  sameButFiles (pkg fr)
    (pkg (fold_left (step world impl dirPath licenseTag reader) sched fr)).
Proof.
  induction sched as [|i sched IH]; intros fr; simpl.
  - apply sameButFiles_refl.
  - eapply sameButFiles_trans; [apply step_sameButFiles | apply IH].
Qed.

Lemma finish_sameButFiles dirPath licenseTag reader fr i :
  sameButFiles (pkg fr) (pkg (finish world impl dirPath licenseTag reader fr i)).
Proof.
  unfold finish. generalize 7. intros n. induction n as [|n IH]; simpl.
  - apply sameButFiles_refl.
  - eapply sameButFiles_trans; [apply IH | apply step_sameButFiles].
Qed.

Lemma fold_finish_sameButFiles dirPath licenseTag reader l : forall fr,
  sameButFiles (pkg fr)
    (pkg (fold_left (finish world impl dirPath licenseTag reader) l fr)).
Proof.
  induction l as [|i l IH]; intros fr; simpl.
  - apply sameButFiles_refl.
  - eapply sameButFiles_trans; [apply finish_sameButFiles | apply IH].
Qed.

(** The scan changes nothing of the package but its file collection,
    whatever the schedule. *)
Lemma runGoroutines_sameButFiles dirPath licenseTag reader sched fr :
  sameButFiles (pkg fr)
    (pkg (runGoroutines world impl dirPath licenseTag reader sched fr)).
Proof.
  unfold runGoroutines.
  eapply sameButFiles_trans;
    [apply fold_step_sameButFiles | apply fold_finish_sameButFiles].
Qed.

(** A successful [addDependencies] appends one [DEPENDS_ON] relationship
    per dependency, in order, and changes nothing else. *)
Lemma addDependencies_ok deps : forall p q,
  addDependencies world p deps = inl q ->
  q = set_Package_Relationships p
        (Package_Relationships p ++ map dependsOn deps)%list.
Proof.
  induction deps as [|dep deps IH]; intros p q; simpl.
  - intros [= <-]. rewrite app_nil_r. now destruct p.
  - unfold AddDependency.
    destruct (AddDependency_refused world p dep); [discriminate|].
    intros H. apply IH in H. subst q.
    unfold Package_AddRelationship, set_Package_Relationships. simpl.
    now rewrite <- app_assoc.
Qed.

Lemma addDependencies_error deps : forall p e,
  addDependencies world p deps = inr e ->
  exists cause, e = Wrap cause "adding go dependency".
Proof.
  induction deps as [|dep deps IH]; intros p e; simpl; [discriminate|].
  unfold AddDependency.
  destruct (AddDependency_refused world p dep) as [cause|].
  - intros [= <-]. now exists cause.
  - apply IH.
Qed.

End ScanFacts.

(** ** Every goroutine runs to its end *)

Section Termination.
Import GoStrings SPDX.
Context {Reader Patterns : Type}.
Context (world : World) (impl : spdxImplementation Reader Patterns).
Context (dirPath licenseTag : string) (reader : Reader).

Local Abbreviation pdf :=
  (processDirectoryFile world impl dirPath licenseTag reader).
Local Abbreviation step' := (step world impl dirPath licenseTag reader).

Lemma rank_Lexit l : 7 <= rank l -> l = Lexit.
Proof. destruct l; simpl; intros; try lia; reflexivity. Qed.

Lemma rank_le l : rank l <= 7.
Proof. destruct l; simpl; lia. Qed.

Lemma later_refl g : later g g.
Proof. split; [reflexivity | lia]. Qed.

Lemma later_trans g1 g2 g3 : later g1 g2 -> later g2 g3 -> later g1 g3.
Proof. intros [? ?] [? ?]. split; [congruence | lia]. Qed.

Lemma Forall2_later_refl gs : Forall2 later gs gs.
Proof. induction gs; constructor; auto using later_refl. Qed.

Lemma Forall2_later_trans gs1 : forall gs2 gs3,
  Forall2 later gs1 gs2 -> Forall2 later gs2 gs3 -> Forall2 later gs1 gs3.
Proof.
  induction gs1 as [|g gs1 IH]; intros gs2 gs3 H12 H23;
    inversion H12; subst; inversion H23; subst; constructor.
  - eapply later_trans; eassumption.
  - eapply IH; eassumption.
Qed.

(** One statement: the other goroutines are left alone, the path is kept
    and the goroutine has moved on unless it was through. *)
Lemma processDirectoryFile_moves g fr :
  goroutines (snd (pdf g fr)) = goroutines fr
  /\ path (fst (pdf g fr)) = path g
  /\ Nat.min 7 (S (rank (pc g))) <= rank (pc (fst (pdf g fr))).
Proof.
  unfold processDirectoryFile.
  destruct (pc g) eqn:Hpc; cbn.
  - repeat split; lia.
  - destruct (LicenseFromFile impl reader (SourceFile (f g))); cbn.
    repeat split; lia.
  - destruct (err fr); cbn; repeat split; lia.
  - repeat split; lia.
  - destruct (ReadSourceFile world (f g) (Join world [dirPath; path g]))
      as [f' [e|]]; cbn; repeat split; lia.
  - destruct (AddFile world (pkg fr) _) as [p e]; cbn. repeat split; lia.
  - repeat split; lia.
  - rewrite Hpc. cbn. repeat split; lia.
Qed.

Lemma update_later gs : forall i g g',
  nth_error gs i = Some g -> later g g' ->
  Forall2 later gs (update gs i g')
  /\ nth_error (update gs i g') i = Some g'.
Proof.
  induction gs as [|g0 gs IH]; intros [|i] g g' Hnth Hl; simpl in *;
    try discriminate.
  - injection Hnth as ->. split; [|reflexivity].
    constructor; [exact Hl | apply Forall2_later_refl].
  - destruct (IH i g g' Hnth Hl) as [H1 H2]. split; [|exact H2].
    constructor; [apply later_refl | exact H1].
Qed.

(** A step of the scheduler moves no goroutine backwards. *)
Lemma step_later fr i : Forall2 later (goroutines fr) (goroutines (step' fr i)).
Proof.
  unfold step.
  destruct (nth_error (goroutines fr) i) as [g|] eqn:Hnth;
    [|apply Forall2_later_refl].
  destruct (started i fr); [|apply Forall2_later_refl].
  destruct (processDirectoryFile_moves g fr) as (Hgs & Hpath & Hrank).
  destruct (pdf g fr) as [g' fr']. cbn [fst snd] in *.
  cbn [goroutines set_goroutines]. rewrite Hgs.
  assert (Hle : rank (pc g) <= rank (pc g'))
    by (pose proof (rank_le (pc g)); lia).
  apply (proj1 (update_later _ i g g' Hnth (conj Hpath Hle))).
Qed.

(** A step of the scheduler on a started goroutine moves it on. *)
Lemma step_moves fr i g :
  nth_error (goroutines fr) i = Some g ->
  started i fr = true ->
  exists g', nth_error (goroutines (step' fr i)) i = Some g'
             /\ Nat.min 7 (S (rank (pc g))) <= rank (pc g').
Proof.
  intros Hnth Hst. unfold step. rewrite Hnth, Hst.
  destruct (processDirectoryFile_moves g fr) as (Hgs & Hpath & Hrank).
  destruct (pdf g fr) as [g' fr']. cbn [fst snd] in *.
  cbn [goroutines set_goroutines]. rewrite Hgs.
  exists g'. split; [|exact Hrank].
  assert (Hle : rank (pc g) <= rank (pc g'))
    by (pose proof (rank_le (pc g)); lia).
  apply (proj2 (update_later _ i g g' Hnth (conj Hpath Hle))).
Qed.

Lemma doneCount_later gs : forall gs',
  Forall2 later gs gs' -> doneCount gs <= doneCount gs'.
Proof.
  unfold doneCount. induction 1 as [|g g' gs gs' [_ Hr] _ IH]; simpl; [lia|].
  destruct (pc g) eqn:Hpc; simpl; try (destruct (PC_eqb (pc g') Lexit); simpl; lia).
  rewrite (rank_Lexit (pc g')) by (simpl in Hr; exact Hr). simpl. lia.
Qed.

Lemma started_later fr fr' i :
  Forall2 later (goroutines fr) (goroutines fr') ->
  started i fr = true -> started i fr' = true.
Proof.
  unfold started. intros H%doneCount_later Hst.
  apply Nat.ltb_lt in Hst. apply Nat.ltb_lt. lia.
Qed.

Lemma nth_error_later gs : forall gs' i g,
  Forall2 later gs gs' -> nth_error gs i = Some g ->
  exists g', nth_error gs' i = Some g' /\ later g g'.
Proof.
  induction gs as [|g0 gs IH]; intros gs' i g H Hnth;
    inversion H; subst; destruct i as [|i]; simpl in *; try discriminate.
  - injection Hnth as ->. eauto.
  - eauto.
Qed.

(** A started goroutine given [n] steps in a row is [n] statements on. *)
Lemma iter_step_moves n : forall fr i g,
  nth_error (goroutines fr) i = Some g ->
  started i fr = true ->
  let fr' := Nat.iter n (fun fr => step' fr i) fr in
  Forall2 later (goroutines fr) (goroutines fr')
  /\ exists g', nth_error (goroutines fr') i = Some g'
                /\ Nat.min 7 (n + rank (pc g)) <= rank (pc g').
Proof.
  induction n as [|n IH]; intros fr i g Hnth Hst; cbn [Nat.iter].
  - split; [apply Forall2_later_refl|]. exists g. split; [assumption | lia].
  - destruct (IH fr i g Hnth Hst) as (Hl & g1 & Hnth1 & Hr1).
    set (fr1 := Nat.iter n (fun fr => step' fr i) fr) in *.
    pose proof (started_later _ _ _ Hl Hst) as Hst1.
    destruct (step_moves fr1 i g1 Hnth1 Hst1) as (g2 & Hnth2 & Hr2).
    split.
    + eapply Forall2_later_trans; [exact Hl | apply step_later].
    + exists g2. split; [assumption | lia].
Qed.

Lemma finish_exit fr i g :
  nth_error (goroutines fr) i = Some g ->
  started i fr = true ->
  let fr' := finish world impl dirPath licenseTag reader fr i in
  Forall2 later (goroutines fr) (goroutines fr')
  /\ exists g', nth_error (goroutines fr') i = Some g' /\ pc g' = Lexit.
Proof.
  intros Hnth Hst.
  destruct (iter_step_moves 7 fr i g Hnth Hst) as (Hl & g' & Hnth' & Hr).
  split; [exact Hl|]. exists g'. split; [exact Hnth'|].
  apply rank_Lexit. lia.
Qed.

Lemma exited_later gs gs' j :
  Forall2 later gs gs' -> exited gs j -> exited gs' j.
Proof.
  intros H (g & Hnth & Hpc).
  destruct (nth_error_later _ _ _ _ H Hnth) as (g' & Hnth' & _ & Hr).
  exists g'. split; [exact Hnth'|]. apply rank_Lexit.
  rewrite Hpc in Hr. exact Hr.
Qed.

Lemma doneCount_prefix k : forall gs,
  (forall j, j < k -> exited gs j) -> k <= doneCount gs.
Proof.
  unfold doneCount. induction k as [|k IH]; intros gs H; [lia|].
  destruct (H 0 ltac:(lia)) as (g & Hnth & Hpc).
  destruct gs as [|g0 gs]; [discriminate|]. injection Hnth as ->.
  simpl. rewrite Hpc. simpl. apply le_n_S, IH.
  intros j Hj. destruct (H (S j) ltac:(lia)) as (g' & Hnth' & Hpc').
  exists g'. auto.
Qed.

(** Run one after the other, the goroutines all call [t.Done]. *)
Lemma fold_finish_exit k : forall fr,
  k <= List.length (goroutines fr) ->
  let fr' :=
    fold_left (finish world impl dirPath licenseTag reader) (seq 0 k) fr in
  Forall2 later (goroutines fr) (goroutines fr')
  /\ forall j, j < k -> exited (goroutines fr') j.
Proof.
  induction k as [|k IH]; intros fr Hk.
  - split; [apply Forall2_later_refl | lia].
  - rewrite seq_S, fold_left_app. cbn [Nat.add fold_left].
    destruct (IH fr ltac:(lia)) as [Hl Hex].
    set (fr1 := fold_left _ (seq 0 k) fr) in *.
    assert (Hlen : List.length (goroutines fr1) = List.length (goroutines fr))
      by (symmetry; eapply Forall2_length, Hl).
    destruct (nth_error (goroutines fr1) k) as [g|] eqn:Hnth;
      [|apply nth_error_None in Hnth; lia].
    assert (Hst : started k fr1 = true).
    { unfold started. apply Nat.ltb_lt.
      pose proof (doneCount_prefix k _ Hex). lia. }
    destruct (finish_exit fr1 k g Hnth Hst) as (Hl' & g' & Hnth' & Hpc').
    split; [eapply Forall2_later_trans; eassumption|].
    intros j Hj. destruct (Nat.eq_dec j k) as [->|Hne].
    + now exists g'.
    + eapply exited_later; [exact Hl'|]. apply Hex. lia.
Qed.

(** Whatever the schedule, every file of the list has its goroutine, and
    every goroutine has run to its end and called [t.Done]. *)
Lemma runGoroutines_all_exit sched fr :
  let fr' := runGoroutines world impl dirPath licenseTag reader sched fr in
  map path (goroutines fr') = map path (goroutines fr)
  /\ Forall (fun g => pc g = Lexit) (goroutines fr').
Proof.
  unfold runGoroutines.
  set (fr1 := fold_left _ sched fr).
  assert (H1 : Forall2 later (goroutines fr) (goroutines fr1)).
  { subst fr1.
    apply (fold_left_invariant
             (fun fr' => Forall2 later (goroutines fr) (goroutines fr')));
      [|apply Forall2_later_refl].
    intros a i Ha. eapply Forall2_later_trans; [exact Ha | apply step_later]. }
  destruct (fold_finish_exit (List.length (goroutines fr1)) fr1 (le_n _))
    as [H2 Hex].
  set (fr2 := fold_left _ (seq 0 _) fr1) in *.
  pose proof (Forall2_later_trans _ _ _ H1 H2) as H.
  split.
  - clear -H. induction H as [|g g' gs gs' [Hp _] _ IH]; simpl; congruence.
  - apply Forall_forall. intros g [j Hj]%In_nth_error.
    assert (Hlt : j < List.length (goroutines fr1)).
    { rewrite (Forall2_length H2). apply nth_error_Some. congruence. }
    destruct (Hex j Hlt) as (g' & Hnth & Hpc). congruence.
Qed.

End Termination.

(** ** Claims on the identifier allocator *)

Section IDStringClaims.
Import GoStrings IDString.

(** C4: for every seed list, the empty one included, [buildIDString]
    returns a non-empty string made only of letters, digits, hyphens and
    periods.  The UUID the fallback draws has the canonical text form. *)
Theorem buildIDString_legal (uuid : string) (seeds : list string) :
  isUUIDString uuid = true ->
  buildIDString uuid seeds <> ""
  /\ allChars validIDChar (buildIDString uuid seeds) = true.
Proof.
  intros Hu.
  pose proof (isUUIDString_nonEmpty _ Hu) as Hne.
  rewrite (buildIDString_spec _ _ Hne).
  destruct (existsb meaningful seeds) eqn:E; split.
  - assert (Hs : survivors seeds <> []).
    { apply existsb_exists in E as (s & Hin & Hm).
      apply andb_prop in Hm as [Hm _].
      assert (In (sanitize s) (survivors seeds)) as Hin'
        by (apply filter_In; split; [now apply in_map | exact Hm]).
      intros Hnil. now rewrite Hnil in Hin'. }
    pose proof (concat_nonEmpty _ Hs (survivors_nonEmpty seeds)) as H.
    intros Heq. now rewrite Heq in H.
  - apply concat_valid, survivors_valid.
  - assert (H : nonEmpty (String.concat "-" (survivors seeds ++ [uuid])) = true).
    { apply concat_nonEmpty; [now destruct (survivors seeds)|].
      apply Forall_app. split; [apply survivors_nonEmpty | now constructor]. }
    intros Heq. now rewrite Heq in H.
  - apply concat_valid, Forall_app. split; [apply survivors_valid|].
    constructor; [now apply isUUIDString_valid | constructor].
Qed.

Lemma buildIDString_legal_witness :
  isUUIDString "123e4567-e89b-12d3-a456-426614174000" = true
  /\ buildIDString "123e4567-e89b-12d3-a456-426614174000"
       ["k8s.io/release"; "v1.22.0"] <> ""
  /\ allChars validIDChar
       (buildIDString "123e4567-e89b-12d3-a456-426614174000"
          ["k8s.io/release"; "v1.22.0"]) = true.
Proof.
  split; [reflexivity|].
  apply (buildIDString_legal "123e4567-e89b-12d3-a456-426614174000"
           ["k8s.io/release"; "v1.22.0"]).
  reflexivity.
Defined.

(** C7: in the non-fallback case, where some seed is neither empty after
    sanitization nor prefixed, two calls with the same seed list return the
    same identifier whatever the UUID source would have produced. *)
Theorem buildIDString_deterministic (seeds : list string) (uuid1 uuid2 : string) :
  existsb meaningful seeds = true ->
  buildIDString uuid1 seeds = buildIDString uuid2 seeds.
Proof.
  intros E. apply existsb_filter_length in E.
  unfold buildIDString. rewrite seedLoop_spec. simpl.
  destruct (List.length (filter meaningful seeds)); [congruence | reflexivity].
Qed.

Lemma buildIDString_deterministic_witness :
  existsb meaningful ["SPDXRef-Package"; "k8s.io/release:v1"] = true
  /\ buildIDString "123e4567-e89b-12d3-a456-426614174000"
       ["SPDXRef-Package"; "k8s.io/release:v1"]
     = buildIDString "00000000-0000-4000-8000-000000000000"
       ["SPDXRef-Package"; "k8s.io/release:v1"].
Proof.
  split; [reflexivity|].
  apply (buildIDString_deterministic ["SPDXRef-Package"; "k8s.io/release:v1"]).
  reflexivity.
Defined.

(** C3 as stated fails: a seed list whose only surviving seed carries the
    [SPDXRef-] prefix falls back, and the result is that seed followed by
    the token, not the token. *)
Lemma buildIDString_prefixed_seed_not_bare_token :
  existsb meaningful ["SPDXRef-Package"] = false
  /\ buildIDString "123e4567-e89b-12d3-a456-426614174000" ["SPDXRef-Package"]
     = "SPDXRef-Package-123e4567-e89b-12d3-a456-426614174000"
  /\ buildIDString "123e4567-e89b-12d3-a456-426614174000" ["SPDXRef-Package"]
     <> "123e4567-e89b-12d3-a456-426614174000".
Proof. repeat split; [reflexivity .. | discriminate]. Qed.

(** C3, amended: when no seed is meaningful, [buildIDString] returns the
    surviving seeds, all of which carry the [SPDXRef-] prefix, joined by
    hyphens and followed by the freshly drawn token; it is the token alone
    when no seed survives sanitization; and two such calls that draw
    different tokens return different identifiers. *)
Theorem buildIDString_fallback (uuid1 uuid2 : string) (seeds1 seeds2 : list string) :
  existsb meaningful seeds1 = false ->
  existsb meaningful seeds2 = false ->
  isUUIDString uuid1 = true ->
  isUUIDString uuid2 = true ->
  buildIDString uuid1 seeds1
    = String.concat "-" (survivors seeds1 ++ [uuid1])
  /\ Forall (fun s => HasPrefix s "SPDXRef-" = true) (survivors seeds1)
  /\ (survivors seeds1 = [] -> buildIDString uuid1 seeds1 = uuid1)
  /\ (uuid1 <> uuid2 ->
      buildIDString uuid1 seeds1 <> buildIDString uuid2 seeds2).
Proof.
  intros E1 E2 Hu1 Hu2.
  pose proof (isUUIDString_nonEmpty _ Hu1) as Hne1.
  pose proof (isUUIDString_nonEmpty _ Hu2) as Hne2.
  rewrite (buildIDString_spec _ _ Hne1), (buildIDString_spec _ _ Hne2), E1, E2.
  repeat split.
  - unfold survivors. clear -E1.
    induction seeds1 as [|s l IH]; simpl in *; [constructor|].
    apply orb_false_elim in E1 as [Hs E1]. unfold meaningful in Hs.
    destruct (nonEmpty (sanitize s)); simpl in *; auto.
    constructor; auto. now destruct (HasPrefix (sanitize s) "SPDXRef-").
  - now intros ->.
  - intros Hneq Heq.
    destruct (concat_snoc (survivors seeds1) uuid1) as [p1 H1].
    destruct (concat_snoc (survivors seeds2) uuid2) as [p2 H2].
    rewrite H1, H2 in Heq. apply Hneq.
    apply (app_inv_tail_length p1 p2); [|exact Heq].
    now rewrite (isUUIDString_length _ Hu1), (isUUIDString_length _ Hu2).
Qed.

Lemma buildIDString_fallback_witness :
  buildIDString "123e4567-e89b-12d3-a456-426614174000" ["SPDXRef-Package"; "@!"]
    = String.concat "-"
        (survivors ["SPDXRef-Package"; "@!"]
         ++ ["123e4567-e89b-12d3-a456-426614174000"])
  /\ Forall (fun s => HasPrefix s "SPDXRef-" = true)
       (survivors ["SPDXRef-Package"; "@!"])
  /\ (survivors ["SPDXRef-Package"; "@!"] = [] ->
      buildIDString "123e4567-e89b-12d3-a456-426614174000"
        ["SPDXRef-Package"; "@!"]
      = "123e4567-e89b-12d3-a456-426614174000")
  /\ ("123e4567-e89b-12d3-a456-426614174000"
        <> "00000000-0000-4000-8000-000000000000" ->
      buildIDString "123e4567-e89b-12d3-a456-426614174000"
        ["SPDXRef-Package"; "@!"]
      <> buildIDString "00000000-0000-4000-8000-000000000000" []).
Proof.
  apply (buildIDString_fallback
           "123e4567-e89b-12d3-a456-426614174000"
           "00000000-0000-4000-8000-000000000000"
           ["SPDXRef-Package"; "@!"] []); reflexivity.
Defined.

End IDStringClaims.

(** ** Claims on FileFromPath and PackageFromDirectory *)

Section SPDXClaims.
Import GoStrings SPDX.
Context {Reader Patterns : Type}.
Context (world : World) (impl : spdxImplementation Reader Patterns)
        (options : Options).

(** C9: [FileFromPath] returns an error and no File when no file exists at
    the path, and returns a File when the file exists and its content can
    be read for checksumming. *)
Theorem FileFromPath_missing_or_File (filePath : string) :
  (Exists world filePath = false ->
   FileFromPath world filePath = inr (New "file does not exist"))
  /\ (forall sums,
        Exists world filePath = true ->
        Checksums world filePath = inl sums ->
        FileFromPath world filePath = inl (set_File_Checksum NewFile sums)).
Proof.
  unfold FileFromPath, ReadSourceFile. split.
  - now intros ->.
  - now intros sums -> ->.
Qed.

(** C10: a successful call on a directory in which the directory-level
    classification finds no license returns a package whose concluded
    license is the empty string, neither NOASSERTION nor NONE, and whose
    [FilesAnalyzed] flag is true, under every schedule of the scan. *)
Theorem PackageFromDirectory_no_directory_license
    (sched : list nat) (dirPath absPath : string) (reader : Reader)
    (pkg : Package) :
  Abs world dirPath = inl absPath ->
  LicenseReader impl options = inl reader ->
  GetDirectoryLicense impl reader absPath options = inl None ->
  PackageFromDirectory world impl options sched dirPath = inl pkg ->
  Package_LicenseConcluded pkg = ""
  /\ Package_LicenseConcluded pkg <> NOASSERTION
  /\ Package_LicenseConcluded pkg <> NONE
  /\ FilesAnalyzed pkg = true.
Proof.
  intros Habs Hreader Hlic.
  unfold PackageFromDirectory, prepare, bind, orWrap.
  rewrite Habs.
  destruct (GetDirectoryTree impl absPath) as [fileList|]; [|discriminate].
  rewrite Hreader, Hlic.
  destruct (GetIgnorePatterns impl absPath (IgnorePatterns options)
              (NoGitignore options)) as [patterns|]; [|discriminate].
  match goal with |- context [runGoroutines _ _ _ _ _ _ ?fr0] =>
    pose proof (runGoroutines_sameButFiles world impl absPath "" reader
                  sched fr0) as (_ & _ & _ & Hfa & Hlc & _);
    destruct (t_Err (runGoroutines world impl absPath "" reader sched fr0));
      [discriminate|];
    set (scanned := SPDX.pkg (runGoroutines world impl absPath "" reader
                                sched fr0)) in *
  end.
  assert (Hlc0 : Package_LicenseConcluded scanned = "")
    by (rewrite Hlc; reflexivity).
  assert (Hfa0 : FilesAnalyzed scanned = true).
  { rewrite Hfa. simpl.
    match goal with |- context [if ?c then _ else _] => destruct c end;
      reflexivity. }
  clearbody scanned. clear Hfa Hlc.
  unfold goModules, bind, orWrap.
  assert (Hgoal : forall q, Package_LicenseConcluded q = "" ->
            FilesAnalyzed q = true ->
            Package_LicenseConcluded q = ""
            /\ Package_LicenseConcluded q <> NOASSERTION
            /\ Package_LicenseConcluded q <> NONE
            /\ FilesAnalyzed q = true).
  { intros q -> ->. repeat split; discriminate. }
  destruct (Exists world (Join world [absPath; GoModFileName])
            && ProcessGoModules options).
  - destruct (GetGoDependencies impl absPath options) as [deps|];
      [|discriminate].
    intros H. apply addDependencies_ok in H. subst pkg.
    apply Hgoal; assumption.
  - intros [= <-]. apply Hgoal; assumption.
Qed.

(** C5: when the directory holds a go.mod manifest and dependency
    processing is enabled, a failure to resolve the dependencies makes the
    call return an error and no package, the wrapped failure when the scan
    reported none; and when they resolve, the package returned is the
    scanned package with one [DEPENDS_ON] relationship per dependency added,
    in order, or else there is no package at all. *)
Theorem PackageFromDirectory_go_dependencies
    (sched : list nat) (dirPath absPath licenseTag : string) (reader : Reader)
    (lic : option License) (fileList : list string) (pkg0 : Package) :
  prepare world impl options dirPath
    = inl (absPath, reader, licenseTag, lic, fileList, pkg0) ->
  Exists world (Join world [absPath; GoModFileName]) = true ->
  ProcessGoModules options = true ->
  let scanned :=
    runGoroutines world impl absPath licenseTag reader sched
      (initialFrame lic pkg0 fileList) in
  (forall cause,
     GetGoDependencies impl absPath options = inr cause ->
     exists e,
       PackageFromDirectory world impl options sched dirPath = inr e
       /\ (t_Err scanned = None -> e = Wrap cause "scanning go packages"))
  /\ (forall deps,
        GetGoDependencies impl absPath options = inl deps ->
        match PackageFromDirectory world impl options sched dirPath with
        | inl pkg =>
            pkg = set_Package_Relationships (SPDX.pkg scanned)
                    (Package_Relationships (SPDX.pkg scanned)
                     ++ map dependsOn deps)%list
        | inr e =>
            t_Err scanned = Some e
            \/ exists cause, e = Wrap cause "adding go dependency"
        end).
Proof.
  intros Hprep Hmod Hopt scanned.
  unfold PackageFromDirectory. rewrite Hprep. cbn [bind].
  fold scanned. unfold goModules. rewrite Hmod, Hopt. cbn [andb].
  split.
  - intros cause Hdeps. rewrite Hdeps.
    destruct (t_Err scanned) as [e|]; eexists; split; try reflexivity.
    discriminate.
  - intros deps Hdeps. rewrite Hdeps. cbn [orWrap bind].
    destruct (t_Err scanned) as [e|]; [now left|].
    destruct (addDependencies world (SPDX.pkg scanned) deps) as [q|e] eqn:E.
    + now apply (addDependencies_ok world).
    + right. exact (addDependencies_error world _ _ _ E).
Qed.

End SPDXClaims.

(** ** Claims on the artifacts document *)

Section AnagoClaims.
Import GoStrings SPDX Anago.
Context (world : World) (release : Release).

(** C6: in the document [GenerateVersionArtifactsBOM] hands to [doc.Write],
    every package of the package list carries a [GENERATED_FROM]
    relationship whose external peer reference is the identifier of the
    external document reference to the source-tree document of the
    version, which the document declares. *)
Theorem GenerateVersionArtifactsBOM_stamps_packages
    (version path : string) (doc : Document) :
  written (GenerateVersionArtifactsBOM world release version)
    = Some (path, doc) ->
  Forall (fun pkg =>
            exists r, In r (Package_Relationships pkg)
                      /\ RType r = GENERATED_FROM
                      /\ PeerExtReference r = "kubernetes-" ++ version)
         (Packages doc)
  /\ exists ref, In ref (ExternalDocRefs doc)
                 /\ ExternalDocumentRef_ID ref = "kubernetes-" ++ version
                 /\ URI ref = "https://sbom.k8s.io/" ++ version ++ "/source".
Proof.
  unfold GenerateVersionArtifactsBOM.
  destruct (ListImageArchives release version) as [images|]; [|discriminate].
  destruct (BuildBaseArtifactsSBOM release _) as [doc0|]; [|discriminate].
  destruct (AddBinariesToSBOM world release doc0 version) as [doc1 [e|]];
    [discriminate|].
  destruct (AddTarfilesToSBOM world release doc1 version) as [doc2 [e|]];
    [discriminate|].
  unfold ExternalDocumentRef_ReadSourceFile.
  destruct (Checksums world _) as [sums|]; [|discriminate].
  cbn [written]. intros [= _ <-]. split.
  - unfold stampPackages. cbn [Packages set_Packages].
    apply Forall_forall. intros pkg [pkg0 [<- _]]%in_map_iff.
    exists (sourceCode version). split; [|split; reflexivity].
    unfold Package_AddRelationship. cbn. apply in_or_app. right. now left.
  - eexists. split; [|split].
    + unfold stampPackages. cbn. apply in_or_app. right. now left.
    + reflexivity.
    + reflexivity.
Qed.

End AnagoClaims.

Lemma GenerateVersionArtifactsBOM_stamps_packages_witness :
  exists path doc,
    Anago.written (Anago.GenerateVersionArtifactsBOM SampleStage.world
               SampleStage.release "v1.22.0") = Some (path, doc)
    /\ List.length (Anago.Packages doc) = 2
    /\ Forall (fun pkg =>
                 exists r, In r (SPDX.Package_Relationships pkg)
                           /\ SPDX.RType r = SPDX.GENERATED_FROM
                           /\ SPDX.PeerExtReference r = "kubernetes-v1.22.0")
              (Anago.Packages doc)
    /\ exists ref, In ref (Anago.ExternalDocRefs doc)
                   /\ Anago.ExternalDocumentRef_ID ref = "kubernetes-v1.22.0"
                   /\ Anago.URI ref = "https://sbom.k8s.io/v1.22.0/source".
Proof.
  do 2 eexists. split; [reflexivity|]. split; [reflexivity|].
  apply (GenerateVersionArtifactsBOM_stamps_packages SampleStage.world
           SampleStage.release "v1.22.0" _ _ eq_refl).
Defined.

(** ** Witnesses for FileFromPath and PackageFromDirectory *)

Section SPDXWitnesses.
Import GoStrings SPDX Sample.

Lemma FileFromPath_missing_or_File_witness :
  FileFromPath (world ["/repo/a.txt"] ["/repo/a.txt"]) "/repo/gone"
    = inr (New "file does not exist")
  /\ FileFromPath (world ["/repo/a.txt"] ["/repo/a.txt"]) "/repo/a.txt"
     = inl (set_File_Checksum NewFile [("SHA256", "e3b0c442")]).
Proof.
  split.
  - apply (FileFromPath_missing_or_File
             (world ["/repo/a.txt"] ["/repo/a.txt"]) "/repo/gone").
    reflexivity.
  - apply (FileFromPath_missing_or_File
             (world ["/repo/a.txt"] ["/repo/a.txt"]) "/repo/a.txt");
      reflexivity.
Defined.

Lemma PackageFromDirectory_no_directory_license_witness :
  scan ["a.txt"] ["/repo/a.txt"] None [0; 0; 0]
    = inl (set_Files (emptyPackage "") [aTxt ""])
  /\ Package_LicenseConcluded (set_Files (emptyPackage "") [aTxt ""]) = ""
  /\ Package_LicenseConcluded (set_Files (emptyPackage "") [aTxt ""])
     <> NOASSERTION
  /\ Package_LicenseConcluded (set_Files (emptyPackage "") [aTxt ""]) <> NONE
  /\ FilesAnalyzed (set_Files (emptyPackage "") [aTxt ""]) = true.
Proof.
  split; [vm_compute; reflexivity|].
  apply (PackageFromDirectory_no_directory_license
           (world [] ["/repo/a.txt"]) (impl ["a.txt"] None (inl []))
           defaultSPDXOptions [0; 0; 0] "/repo" "/repo" tt
           (set_Files (emptyPackage "") [aTxt ""]));
    vm_compute; reflexivity.
Defined.

Lemma PackageFromDirectory_go_dependencies_witness :
  match
    PackageFromDirectory (world ["/repo/go.mod"] ["/repo/a.txt"])
      (impl ["a.txt"] (Some Apache) (inl [logrus; errors]))
      defaultSPDXOptions [] "/repo"
  with
  | inl pkg =>
      pkg = set_Package_Relationships
              (set_Files (emptyPackage "Apache-2.0") [aTxt "Apache-2.0"])
              [dependsOn logrus; dependsOn errors]
  | inr _ => False
  end
  /\ PackageFromDirectory (world ["/repo/go.mod"] ["/repo/a.txt"])
       (impl ["a.txt"] (Some Apache) (inr "go list: exit status 1"))
       defaultSPDXOptions [] "/repo"
     = inr (Wrap "go list: exit status 1" "scanning go packages").
Proof.
  split.
  - pose proof
      (proj2 (PackageFromDirectory_go_dependencies
                (world ["/repo/go.mod"] ["/repo/a.txt"])
                (impl ["a.txt"] (Some Apache) (inl [logrus; errors]))
                defaultSPDXOptions [] "/repo" "/repo" "Apache-2.0" tt
                (Some Apache) ["a.txt"] (emptyPackage "Apache-2.0")
                ltac:(vm_compute; reflexivity) ltac:(vm_compute; reflexivity)
                ltac:(vm_compute; reflexivity))
             [logrus; errors] ltac:(vm_compute; reflexivity)) as H.
    destruct (PackageFromDirectory _ _ _ _ _) as [pkg|e] eqn:E.
    + rewrite H. vm_compute. reflexivity.
    + vm_compute in E. discriminate E.
  - destruct
      (proj1 (PackageFromDirectory_go_dependencies
                (world ["/repo/go.mod"] ["/repo/a.txt"])
                (impl ["a.txt"] (Some Apache) (inr "go list: exit status 1"))
                defaultSPDXOptions [] "/repo" "/repo" "Apache-2.0" tt
                (Some Apache) ["a.txt"] (emptyPackage "Apache-2.0")
                ltac:(vm_compute; reflexivity) ltac:(vm_compute; reflexivity)
                ltac:(vm_compute; reflexivity))
             "go list: exit status 1" ltac:(vm_compute; reflexivity))
      as [e [-> He]].
    rewrite (He ltac:(vm_compute; reflexivity)). reflexivity.
Defined.

End SPDXWitnesses.

(** ** The variables the goroutines share *)

Section SharedVariables.
Import GoStrings SPDX Sample.

(** Lines 191-201 run by one goroutine without another one in between set
    the license fields of its file from the classification of that file. *)
Lemma processDirectoryFile_classification_alone
    {Reader Patterns : Type} (world : World)
    (impl : spdxImplementation Reader Patterns)
    (dirPath licenseTag : string) (reader : Reader)
    (g : Goroutine) (fr : Frame) :
  pc g = L191 ->
  let run := processDirectoryFile world impl dirPath licenseTag reader in
  let '(g1, fr1) := run g fr in
  let '(g2, fr2) := run g1 fr1 in
  let '(g3, fr3) := run g2 fr2 in
  match LicenseFromFile impl reader (SourceFile (f g)) with
  | (_, Some _) => pc g2 = Ldone
  | (None, None) =>
      LicenseInfoInFile (f g3) = NONE
      /\ File_LicenseConcluded (f g3) = licenseTag
  | (Some l, None) => LicenseInfoInFile (f g3) = LicenseID l
  end.
Proof.
  intros Hpc. cbv zeta. unfold processDirectoryFile at 1. rewrite Hpc.
  destruct (LicenseFromFile impl reader (SourceFile (f g))) as [[l|] [e|]];
    cbn; auto.
Qed.

Lemma unreadableFrames_step fr i :
  In fr unreadableFrames ->
  In (step (world [] []) (impl ["bad"] (Some Apache) (inl []))
        "/repo" "Apache-2.0" tt fr i) unreadableFrames.
Proof.
  intros H.
  repeat (destruct H as [<-|H]; [destruct i as [|[|i]]; vm_compute; tauto|]).
  destruct H.
Qed.

Lemma unreadableFrames_schedule sched fr :
  In fr unreadableFrames ->
  In (fold_left (step (world [] []) (impl ["bad"] (Some Apache) (inl []))
                   "/repo" "Apache-2.0" tt) sched fr) unreadableFrames.
Proof.
  apply (fold_left_invariant (fun fr => In fr unreadableFrames)).
  intros fr' i. apply unreadableFrames_step.
Qed.

(** However far the schedule has taken the goroutine, it ends having told
    the throttler of no error and having added no file. *)
Lemma unreadableFrames_end fr :
  In fr unreadableFrames ->
  let fr' :=
    fold_left (finish (world [] []) (impl ["bad"] (Some Apache) (inl []))
                 "/repo" "Apache-2.0" tt)
      (seq 0 (List.length (goroutines fr))) fr in
  t_errs fr' = [] /\ pkg fr' = emptyPackage "Apache-2.0".
Proof.
  intros H.
  repeat (destruct H as [<-|H]; [vm_compute; tauto|]).
  destruct H.
Qed.

(** C1, on the code: the file [bad] cannot be read, so its goroutine fails
    at line 203, and yet, under every schedule, the call on the directory
    that holds only this file returns a package, without the file, and no
    error; so does the call on a readable file followed by the unreadable
    one when the goroutines run one after the other.  [t.Done] is deferred
    with the value [err] has when the goroutine starts. *)
Theorem PackageFromDirectory_unreadable_file_not_reported :
  Checksums (world [] []) "/repo/bad" = inr "permission denied"
  /\ (forall sched,
        scan ["bad"] [] (Some Apache) sched = inl (emptyPackage "Apache-2.0"))
  /\ match scan ["good"; "bad"] ["/repo/good"] (Some Apache) [] with
     | inl pkg => map FileName (Files pkg) = ["good"]
     | inr _ => False
     end.
Proof.
  split; [reflexivity|]. split.
  - intros sched.
    assert (H0 : In (initialFrame (Some Apache) (emptyPackage "Apache-2.0")
                       ["bad"]) unreadableFrames) by (now left).
    pose proof (unreadableFrames_end _ (unreadableFrames_schedule sched _ H0))
      as [Herrs Hpkg].
    unfold scan, PackageFromDirectory.
    change (prepare (world [] []) (impl ["bad"] (Some Apache) (inl []))
              defaultSPDXOptions "/repo")
      with (@inl _ error
              ("/repo", tt, "Apache-2.0", Some Apache, ["bad"],
               emptyPackage "Apache-2.0")).
    cbn [bind]. unfold runGoroutines, t_Err. rewrite Herrs, Hpkg.
    vm_compute. reflexivity.
  - vm_compute. reflexivity.
Qed.

(** With the unreadable file first, the same call does return the error:
    the goroutine of the next file defers [t.Done] with it. *)
Example PackageFromDirectory_error_reported_by_next_goroutine :
  scan ["bad"; "good"] ["/repo/good"] (Some Apache) []
  = inr "checksumming file: permission denied".
Proof. vm_compute. reflexivity. Qed.

(** C2, on the code: [a.txt] holds no license and [LICENSE] holds the
    Apache-2.0 text.  When the goroutine of [LICENSE] runs line 191 between
    lines 191 and 197 of the goroutine of [a.txt], the file [a.txt] gets
    the license-found value Apache-2.0 instead of NONE, and no concluded
    license; and with the files the other way round [LICENSE] gets NONE.
    The variable [lic] that line 191 assigns is that of the enclosing call,
    shared by the goroutines. *)
Theorem PackageFromDirectory_license_of_another_file :
  LicenseFromFile (impl ["a.txt"; "LICENSE"] (Some Apache) (inl [])) tt
    "/repo/a.txt" = (None, None)
  /\ LicenseFromFile (impl ["a.txt"; "LICENSE"] (Some Apache) (inl [])) tt
       "/repo/LICENSE" = (Some Apache, None)
  /\ match
       scan ["a.txt"; "LICENSE"] ["/repo/a.txt"; "/repo/LICENSE"]
         (Some Apache) [0; 0; 1; 1; 0; 0]
     with
     | inl pkg =>
         map (fun f => (FileName f, LicenseInfoInFile f,
                        File_LicenseConcluded f)) (Files pkg)
         = [("a.txt", "Apache-2.0", ""); ("LICENSE", "Apache-2.0", "")]
     | inr _ => False
     end
  /\ match
       scan ["LICENSE"; "a.txt"] ["/repo/a.txt"; "/repo/LICENSE"]
         (Some Apache) [0; 0; 1; 1; 0; 0]
     with
     | inl pkg =>
         map (fun f => (FileName f, LicenseInfoInFile f,
                        File_LicenseConcluded f)) (Files pkg)
         = [("LICENSE", "NONE", "Apache-2.0"); ("a.txt", "NONE", "Apache-2.0")]
     | inr _ => False
     end.
Proof.
  split; [reflexivity|]. split; [reflexivity|].
  split; vm_compute; reflexivity.
Qed.

(** Run one after the other, the same goroutines set the fields as the
    classification of each file says. *)
Example PackageFromDirectory_license_in_order :
  match
    scan ["a.txt"; "LICENSE"] ["/repo/a.txt"; "/repo/LICENSE"]
      (Some Apache) []
  with
  | inl pkg =>
      map (fun f => (FileName f, LicenseInfoInFile f,
                     File_LicenseConcluded f)) (Files pkg)
      = [("a.txt", "NONE", "Apache-2.0"); ("LICENSE", "Apache-2.0", "")]
  | inr _ => False
  end.
Proof. vm_compute. reflexivity. Qed.

End SharedVariables.

(** * Further properties *)

(** ** The identifier allocator, continued *)

Section IDStringMore.
Import GoStrings IDString.




Lemma ReplaceAll_absent s old new :
  allChars (fun c => negb (Ascii.eqb c old)) s = true ->
  ReplaceAll s old new = s.
Proof.
  induction s as [|c s IH]; simpl; [reflexivity|].
  intros [Hc Hs]%andb_prop. destruct (Ascii.eqb c old); [discriminate|].
  now rewrite IH.
Qed.

Lemma filterChars_all p s : allChars p s = true -> filterChars p s = s.
Proof.
  induction s as [|c s IH]; simpl; [reflexivity|].
  intros [-> Hs]%andb_prop. now rewrite IH.
Qed.

Lemma validIDChar_not c d :
  validIDChar d = false -> validIDChar c = true -> negb (Ascii.eqb c d) = true.
Proof.
  intros Hd Hc. destruct (Ascii.eqb_spec c d) as [->|]; [congruence | reflexivity].
Qed.

(** Neither replacement nor the expression touches a legal string. *)
Lemma sanitize_fixed (t : string) :
  allChars validIDChar t = true -> sanitize t = t.
Proof.
  intros Ht. unfold sanitize, ReplaceAllString. simpl.
  rewrite (ReplaceAll_absent t "/"), (ReplaceAll_absent t ":").
  - now apply filterChars_all.
  - revert Ht. apply allChars_impl. intros c. now apply validIDChar_not.
  - revert Ht. apply allChars_impl. intros c. now apply validIDChar_not.
Qed.

(** X1: sanitizing changes nothing in a string that is already made of
    legal characters, and so sanitizing twice is sanitizing once. *)
Theorem sanitize_legal_fixed (s : string) :
  (allChars validIDChar s = true -> sanitize s = s)
  /\ sanitize (sanitize s) = sanitize s.
Proof.
  split; [apply sanitize_fixed|].
  apply sanitize_fixed, sanitize_valid.
Qed.

Lemma sanitize_legal_fixed_witness :
  allChars validIDChar "SPDXRef-Package-k8s.io" = true
  /\ sanitize "SPDXRef-Package-k8s.io" = "SPDXRef-Package-k8s.io".
Proof.
  split; [reflexivity|].
  apply (proj1 (sanitize_legal_fixed "SPDXRef-Package-k8s.io")). reflexivity.
Defined.

Lemma survivors_app l1 l2 :
  survivors (l1 ++ l2) = (survivors l1 ++ survivors l2)%list.
Proof. unfold survivors. now rewrite map_app, filter_app. Qed.

(** The result depends on the seeds through the survivors and the number
    of meaningful seeds only. *)
Lemma buildIDString_ext uuid seeds1 seeds2 :
  survivors seeds1 = survivors seeds2 ->
  List.length (filter meaningful seeds1) = List.length (filter meaningful seeds2) ->
  buildIDString uuid seeds1 = buildIDString uuid seeds2.
Proof.
  intros Hs Hm. unfold buildIDString. rewrite !seedLoop_spec. simpl.
  now rewrite Hs, Hm.
Qed.

(** The second loop joins what the first one kept. *)
Lemma buildIDString_counted (uuid : string) (seeds : list string) :
  List.length (filter meaningful seeds) <> 0 ->
  buildIDString uuid seeds = String.concat "-" (survivors seeds).
Proof.
  intros E. unfold buildIDString. rewrite seedLoop_spec. simpl.
  destruct (List.length (filter meaningful seeds)); [congruence|]. simpl.
  apply joinLoop_empty_concat, survivors_nonEmpty.
Qed.

(** X2: when some seed is meaningful, the identifier is the seeds that are
    not empty once sanitized, sanitized and joined by hyphens in input
    order; the prefixed seeds are among them. *)
Theorem buildIDString_joins_survivors (uuid : string) (seeds : list string) :
  existsb meaningful seeds = true ->
  buildIDString uuid seeds
  = String.concat "-" (filter nonEmpty (map sanitize seeds)).
Proof.
  intros E. apply existsb_filter_length in E.
  rewrite buildIDString_counted by exact E.
  reflexivity.
Qed.

Lemma buildIDString_joins_survivors_witness :
  existsb meaningful ["SPDXRef-Package"; "!!"; "k8s.io/release"; "v1.22"] = true
  /\ buildIDString "" ["SPDXRef-Package"; "!!"; "k8s.io/release"; "v1.22"]
     = "SPDXRef-Package-k8s.io-release-v1.22".
Proof.
  split; [reflexivity|].
  apply (buildIDString_joins_survivors ""
           ["SPDXRef-Package"; "!!"; "k8s.io/release"; "v1.22"]).
  reflexivity.
Defined.

(** X3: a seed that is empty once sanitized leaves no trace, wherever it
    stands in the list. *)
Theorem buildIDString_ignores_void_seed
    (uuid s : string) (before after : list string) :
  sanitize s = "" ->
  buildIDString uuid (before ++ s :: after) = buildIDString uuid (before ++ after).
Proof.
  intros Hs. apply buildIDString_ext.
  - rewrite !survivors_app. f_equal. unfold survivors. simpl. now rewrite Hs.
  - rewrite !filter_app. simpl. unfold meaningful at 2. now rewrite Hs.
Qed.

Lemma buildIDString_ignores_void_seed_witness :
  sanitize "@ !" = ""
  /\ buildIDString "" (["a"] ++ "@ !" :: ["b"]) = buildIDString "" (["a"] ++ ["b"]).
Proof.
  split; [reflexivity|].
  apply (buildIDString_ignores_void_seed "" "@ !" ["a"] ["b"]). reflexivity.
Defined.




(** X5: an identifier that is legal, not empty and without the [SPDXRef-]
    prefix is returned as it is when it is the only seed. *)
Theorem buildIDString_legal_seed_unchanged (uuid id : string) :
  allChars validIDChar id = true ->
  id <> "" ->
  HasPrefix id "SPDXRef-" = false ->
  buildIDString uuid [id] = id.
Proof.
  intros Hl Hne Hp.
  pose proof (sanitize_fixed id Hl) as Hs.
  assert (Hn : nonEmpty id = true)
    by (unfold nonEmpty; now apply negb_true_iff, String.eqb_neq).
  rewrite buildIDString_counted; unfold survivors.
  - cbn [map filter]. now rewrite Hs, Hn.
  - apply existsb_filter_length.
    cbn [existsb]. unfold meaningful. now rewrite Hs, Hn, Hp.
Qed.

Lemma buildIDString_legal_seed_unchanged_witness :
  buildIDString "" [buildIDString "" ["k8s.io/release"; "v1.22"]]
  = buildIDString "" ["k8s.io/release"; "v1.22"].
Proof.
  apply (buildIDString_legal_seed_unchanged ""
           (buildIDString "" ["k8s.io/release"; "v1.22"]));
    [reflexivity | discriminate | reflexivity].
Defined.

End IDStringMore.

(** ** The scan of PackageFromDirectory, continued *)

Section ScanMore.
Import GoStrings SPDX Scan.
Context {Reader Patterns : Type}.
Context (world : World) (impl : spdxImplementation Reader Patterns).
Context (dirPath licenseTag : string) (reader : Reader).

Local Abbreviation pdf :=
  (processDirectoryFile world impl dirPath licenseTag reader).
Local Abbreviation step' := (step world impl dirPath licenseTag reader).

Lemma Forall_update {A} (P : A -> Prop) l : forall i x,
  Forall P l -> P x -> Forall P (update l i x).
Proof.
  induction l as [|y l IH]; intros [|i] x Hl Hx; simpl; inversion Hl; subst;
    constructor; auto.
Qed.

Lemma processDirectoryFile_localOK g fr :
  localOK world dirPath g -> localOK world dirPath (fst (pdf g fr)).
Proof.
  unfold localOK, processDirectoryFile. intros [H1 H2].
  destruct (pc g) eqn:Hpc; cbn in *.
  - split; [auto | discriminate].
  - destruct (LicenseFromFile impl reader (SourceFile (f g))); cbn.
    split; [intros _; apply H1; lia | discriminate].
  - destruct (err fr); cbn; (split; [intros _; apply H1; lia | discriminate]).
  - split; [|discriminate]. intros _.
    destruct (H1 ltac:(lia)) as [Ha Hb]. now destruct (lic fr).
  - unfold ReadSourceFile.
    destruct (Checksums world (Join world [dirPath; path g])) as [sums|e] eqn:E;
      cbn.
    + split; [intros _; apply H1; lia | intros _; exact E].
    + split; [intros _; apply H1; lia | discriminate].
  - destruct (AddFile world (pkg fr) _) as [p e]; cbn.
    split; [intros _; apply H1; lia | discriminate].
  - split; [intros _; apply H1; lia | discriminate].
  - rewrite Hpc. split; [exact H1 | exact H2].
Qed.

(** One statement adds at most one file, and only line 208 does. *)
Lemma processDirectoryFile_files g fr :
  Files (pkg (snd (pdf g fr))) = Files (pkg fr)
  \/ (pc g = L207
      /\ pc (fst (pdf g fr)) = Ldone
      /\ AddFile_refused world (pkg fr)
           (set_File_Name (f g)
              (TrimPrefix (path g) (dirPath ++ Separator world))) = None
      /\ Files (pkg (snd (pdf g fr)))
         = (Files (pkg fr)
            ++ [set_File_Name (f g)
                  (TrimPrefix (path g) (dirPath ++ Separator world))])%list).
Proof.
  unfold processDirectoryFile.
  destruct (pc g) eqn:Hpc; cbn; auto.
  - destruct (LicenseFromFile impl reader (SourceFile (f g))); cbn; auto.
  - destruct (err fr); cbn; auto.
  - destruct (ReadSourceFile world (f g) (Join world [dirPath; path g]))
      as [f' [e|]]; cbn; auto.
  - unfold AddFile.
    destruct (AddFile_refused world (pkg fr) _) eqn:E; cbn; auto.
Qed.

Lemma inserted_later gs gs' i file :
  Forall2 later gs gs' ->
  inserted world dirPath gs i file -> inserted world dirPath gs' i file.
Proof.
  intros H (g & Hnth & Hr & Hs).
  destruct (nth_error_later _ _ _ _ H Hnth) as (g' & Hnth' & Hp & Hr').
  exists g'. rewrite Hp. repeat split; try assumption; try apply Hs. lia.
Qed.

Lemma Forall2_inserted_later gs gs' idxs files :
  Forall2 later gs gs' ->
  Forall2 (inserted world dirPath gs) idxs files ->
  Forall2 (inserted world dirPath gs') idxs files.
Proof.
  intros H. induction 1; constructor; eauto using inserted_later.
Qed.

Lemma Forall2_In_l {A B} (R : A -> B -> Prop) l l' x :
  Forall2 R l l' -> In x l -> exists y, R x y.
Proof.
  induction 1 as [|a b l l' Hab _ IH]; intros Hin; [contradiction|].
  destruct Hin as [->|Hin]; eauto.
Qed.

Lemma NoDup_snoc {A} (l : list A) x :
  NoDup l -> ~ In x l -> NoDup (l ++ [x]).
Proof.
  intros Hl Hx. apply NoDup_rev in Hl.
  rewrite <- (rev_involutive (l ++ [x])). apply NoDup_rev.
  rewrite rev_app_distr. simpl. constructor; [|exact Hl].
  now rewrite <- in_rev.
Qed.

(** A step of the scheduler keeps [scanInv]. *)
Lemma step_scanInv fr i :
  scanInv world dirPath fr -> scanInv world dirPath (step' fr i).
Proof.
  intros [Hloc (idxs & Hnd & Hins)].
  pose proof (step_later world impl dirPath licenseTag reader fr i) as Hlater.
  unfold step in *.
  destruct (nth_error (goroutines fr) i) as [g|] eqn:Hnth;
    [|split; [assumption | eauto]].
  destruct (started i fr); [|split; [assumption | eauto]].
  assert (Hg : localOK world dirPath g).
  { eapply Forall_forall; [exact Hloc|]. eapply nth_error_In, Hnth. }
  pose proof (processDirectoryFile_localOK g fr Hg) as Hg'.
  pose proof (processDirectoryFile_files g fr) as Hfiles.
  destruct (processDirectoryFile_moves world impl dirPath licenseTag reader
              g fr) as (Hgs & Hpath & Hrank).
  destruct (pdf g fr) as [g' fr']. cbn [fst snd] in *.
  unfold scanInv, set_goroutines. cbn [goroutines pkg] in *.
  rewrite Hgs in *.
  split; [now apply Forall_update|].
  destruct Hfiles as [Hsame | (Hpc & Hpc' & _ & Happ)].
  - exists idxs. split; [assumption|]. rewrite Hsame.
    eapply Forall2_inserted_later; eassumption.
  - exists (idxs ++ [i])%list. split.
    + apply NoDup_snoc; [exact Hnd|]. intros Hin.
      destruct (Forall2_In_l _ _ _ _ Hins Hin) as (file & g0 & Hnth0 & Hr0 & _).
      rewrite Hnth in Hnth0. injection Hnth0 as <-. rewrite Hpc in Hr0.
      simpl in Hr0. lia.
    + rewrite Happ. apply Forall2_app.
      * eapply Forall2_inserted_later; eassumption.
      * constructor; [|constructor].
        exists g'. split; [|split].
        -- eapply update_later with (g := g); [exact Hnth|].
           split; [assumption|]. rewrite Hpc, Hpc'. simpl. lia.
        -- rewrite Hpc'. simpl. lia.
        -- destruct Hg as [H1 H2]. rewrite Hpc in H1. simpl in H1.
           destruct (H1 ltac:(lia)) as [Ha Hb]. specialize (H2 Hpc).
           rewrite Hpath. repeat split; assumption.
Qed.

(** What every step keeps, the whole scan keeps. *)
Lemma runGoroutines_invariant (P : Frame -> Prop) :
  (forall fr i, P fr -> P (step' fr i)) ->
  forall sched fr, P fr ->
  P (runGoroutines world impl dirPath licenseTag reader sched fr).
Proof.
  intros Hstep sched fr H. unfold runGoroutines.
  apply (fold_left_invariant P).
  - intros a i Ha. unfold finish. generalize 7. intros n.
    induction n as [|n IH]; [exact Ha|].
    rewrite Nat.iter_succ. apply Hstep, IH.
  - apply (fold_left_invariant P); assumption.
Qed.

Lemma initialFrame_scanInv lic pkg0 fileList :
  Files pkg0 = [] ->
  scanInv world dirPath (initialFrame lic pkg0 fileList).
Proof.
  intros H0. split.
  - cbn. apply Forall_forall. intros g [p [<- _]]%in_map_iff.
    split; cbn; [lia | discriminate].
  - exists []. split; [constructor|]. cbn. rewrite H0. constructor.
Qed.

Lemma initialFrame_paths lic pkg0 fileList :
  map path (goroutines (initialFrame lic pkg0 fileList)) = fileList.
Proof. cbn. rewrite map_map. cbn. apply map_id. Qed.

(** The files of the scanned package, one by one, are made of entries of
    the file list that are pairwise distinct. *)
Lemma runGoroutines_files sched lic pkg0 fileList :
  Files pkg0 = [] ->
  let fr :=
    runGoroutines world impl dirPath licenseTag reader sched
      (initialFrame lic pkg0 fileList) in
  exists idxs,
    NoDup idxs
    /\ Forall2 (fun i file =>
                  exists p, nth_error fileList i = Some p
                            /\ scannedFrom world dirPath p file)
               idxs (Files (pkg fr)).
Proof.
  intros H0 fr.
  destruct (runGoroutines_invariant (scanInv world dirPath) step_scanInv
              sched _ (initialFrame_scanInv lic pkg0 fileList H0))
    as [_ (idxs & Hnd & Hins)].
  destruct (runGoroutines_all_exit world impl dirPath licenseTag reader
              sched (initialFrame lic pkg0 fileList)) as [Hpaths _].
  rewrite initialFrame_paths in Hpaths. fold fr in Hins, Hpaths.
  exists idxs. split; [exact Hnd|].
  clear -Hins Hpaths. induction Hins as [|i file idxs files Hi _ IH];
    constructor; [|exact IH].
  destruct Hi as (g & Hnth & _ & Hs). exists (path g). split; [|exact Hs].
  rewrite <- Hpaths. now apply map_nth_error.
Qed.

Lemma filter_update_length {A} (q : A -> bool) gs : forall i g g',
  nth_error gs i = Some g ->
  List.length (filter q (update gs i g')) + (if q g then 1 else 0)
  = List.length (filter q gs) + (if q g' then 1 else 0).
Proof.
  induction gs as [|g0 gs IH]; intros [|i] g g' Hnth; simpl in *;
    try discriminate.
  - injection Hnth as ->. destruct (q g), (q g'); simpl; lia.
  - specialize (IH i g g' Hnth). destruct (q g0); simpl; lia.
Qed.

(** One statement of a goroutine for which nothing fails leaves [err] nil
    and tells the throttler nothing. *)
Lemma processDirectoryFile_clean g fr :
  (forall p file, AddFile_refused world p file = None) ->
  localOK world dirPath g ->
  deferred g = None ->
  readable world impl dirPath reader (path g) ->
  err fr = None ->
  err (snd (pdf g fr)) = None
  /\ t_errs (snd (pdf g fr)) = t_errs fr
  /\ deferred (fst (pdf g fr)) = None
  /\ List.length (Files (pkg (snd (pdf g fr))))
       + (if (6 <=? rank (pc g))%nat then 1 else 0)
     = List.length (Files (pkg fr))
       + (if (6 <=? rank (pc (fst (pdf g fr))))%nat then 1 else 0).
Proof.
  intros Hadd [H1 H2] Hdef [Hlicense [sums Hsums]] Herr.
  unfold processDirectoryFile.
  destruct (pc g) eqn:Hpc; cbn in *.
  - repeat split; auto.
  - destruct (H1 ltac:(lia)) as [_ Hsrc]. rewrite Hsrc.
    destruct (LicenseFromFile impl reader (Join world [dirPath; path g]))
      as [l e]. cbn in *. subst e. repeat split; auto.
  - rewrite Herr. cbn. repeat split; auto.
  - repeat split; auto.
  - unfold ReadSourceFile. rewrite Hsums. cbn. repeat split; auto.
  - unfold AddFile. rewrite Hadd. cbn. rewrite List.length_app. cbn.
    repeat split; auto; lia.
  - rewrite Hdef. repeat split; auto.
  - rewrite Hpc. cbn. repeat split; auto.
Qed.

(** A step of the scheduler keeps [cleanInv] when nothing can fail. *)
Lemma step_cleanInv fr i :
  (forall p file, AddFile_refused world p file = None) ->
  scanInv world dirPath fr /\ cleanInv world impl dirPath reader fr ->
  scanInv world dirPath (step' fr i)
  /\ cleanInv world impl dirPath reader (step' fr i).
Proof.
  intros Hadd [Hscan Hclean]. split; [now apply step_scanInv|].
  destruct Hscan as [Hloc _]. destruct Hclean as (Herr & Hterr & Hall & Hlen).
  unfold step.
  destruct (nth_error (goroutines fr) i) as [g|] eqn:Hnth;
    [|repeat split; assumption].
  destruct (started i fr); [|repeat split; assumption].
  assert (Hg : localOK world dirPath g).
  { eapply Forall_forall; [exact Hloc|]. eapply nth_error_In, Hnth. }
  assert (Hg2 : deferred g = None /\ readable world impl dirPath reader (path g)).
  { eapply Forall_forall in Hall; [exact Hall|]. eapply nth_error_In, Hnth. }
  destruct Hg2 as [Hdef Hread].
  destruct (processDirectoryFile_clean g fr Hadd Hg Hdef Hread Herr)
    as (Herr' & Hterr' & Hdef' & Hcount).
  destruct (processDirectoryFile_moves world impl dirPath licenseTag reader
              g fr) as (Hgs & Hpath & _).
  destruct (pdf g fr) as [g' fr']. cbn [fst snd] in *.
  unfold cleanInv, set_goroutines. cbn [goroutines pkg err t_errs].
  rewrite Hgs. repeat split.
  - exact Herr'.
  - now rewrite Hterr'.
  - apply Forall_update; [exact Hall|]. now rewrite Hpath.
  - unfold pastInsertion in *.
    pose proof (filter_update_length (fun g => (6 <=? rank (pc g))%nat)
                  (goroutines fr) i g g' Hnth) as Hf.
    cbn beta in Hf. lia.
Qed.

Lemma map_nth_seq {A} (l : list A) d :
  map (fun i => nth i l d) (seq 0 (List.length l)) = l.
Proof.
  apply (nth_ext _ _ d d).
  - now rewrite length_map, length_seq.
  - intros n Hn. rewrite length_map, length_seq in Hn.
    rewrite (nth_indep _ _ (nth 0 l d))
      by (now rewrite length_map, length_seq).
    rewrite (map_nth (fun i => nth i l d)). now rewrite seq_nth.
Qed.

(** When nothing fails, the scan tells the throttler of no error and puts
    one file per entry of the file list into the package, whatever the
    schedule. *)
Lemma runGoroutines_all_files sched lic pkg0 fileList :
  (forall p file, AddFile_refused world p file = None) ->
  Forall (readable world impl dirPath reader) fileList ->
  Files pkg0 = [] ->
  let fr :=
    runGoroutines world impl dirPath licenseTag reader sched
      (initialFrame lic pkg0 fileList) in
  t_errs fr = []
  /\ Permutation (map FileName (Files (pkg fr))) fileList.
Proof.
  intros Hadd Hread H0 fr.
  assert (Hinit : scanInv world dirPath (initialFrame lic pkg0 fileList)
                  /\ cleanInv world impl dirPath reader
                       (initialFrame lic pkg0 fileList)).
  { split; [now apply initialFrame_scanInv|]. repeat split; cbn.
    - apply Forall_forall. intros g [p [<- Hp]]%in_map_iff. cbn.
      split; [reflexivity|]. eapply Forall_forall in Hread; eassumption.
    - rewrite H0. unfold pastInsertion. rewrite filter_map_swap. cbn.
      clear. induction fileList; simpl; auto. }
  destruct (runGoroutines_invariant
              (fun fr => scanInv world dirPath fr
                         /\ cleanInv world impl dirPath reader fr)
              (fun fr i => step_cleanInv fr i Hadd) sched _ Hinit)
    as [[_ (idxs & Hnd & Hins)] (_ & Hterr & _ & Hlen)].
  destruct (runGoroutines_all_exit world impl dirPath licenseTag reader
              sched (initialFrame lic pkg0 fileList)) as [Hpaths Hexit].
  rewrite initialFrame_paths in Hpaths.
  fold fr in Hins, Hterr, Hlen, Hpaths, Hexit.
  split; [exact Hterr|].
  assert (Hn : List.length (Files (pkg fr)) = List.length fileList).
  { rewrite Hlen, <- Hpaths, length_map. unfold pastInsertion.
    clear -Hexit. induction Hexit as [|g gs Hg _ IH]; [reflexivity|].
    cbn [filter]. rewrite Hg. cbn [rank Nat.leb List.length]. now f_equal. }
  assert (Hmap : map FileName (Files (pkg fr))
                 = map (fun i => nth i fileList "") idxs
                   /\ incl idxs (seq 0 (List.length fileList))).
  { clear -Hins Hpaths.
    induction Hins as [|i file idxs files Hi _ [IH1 IH2]];
      [split; [reflexivity | intros x []]|].
    destruct Hi as (g & Hnth & _ & Hname & _).
    assert (Hp : nth_error fileList i = Some (path g))
      by (rewrite <- Hpaths; now apply map_nth_error).
    split.
    - simpl. rewrite IH1, Hname. f_equal. symmetry.
      now apply nth_error_nth.
    - intros x [<-|Hx]; [|now apply IH2].
      apply in_seq. split; [lia|]. simpl. apply nth_error_Some. congruence. }
  destruct Hmap as [-> Hincl].
  assert (Hp : Permutation idxs (seq 0 (List.length fileList))).
  { apply NoDup_Permutation_bis; [exact Hnd | | exact Hincl].
    rewrite length_seq, <- Hn. now rewrite (Forall2_length Hins). }
  apply (Permutation_map (fun i => nth i fileList "")) in Hp.
  now rewrite map_nth_seq in Hp.
Qed.

(** What one statement does to the deferred argument and to the errors
    the throttler knows. *)
Lemma processDirectoryFile_deferred g fr :
  deferred (fst (pdf g fr))
  = match pc g with L187 => err fr | _ => deferred g end
  /\ t_errs (snd (pdf g fr))
     = match pc g, deferred g with
       | Ldone, Some e => (t_errs fr ++ [e])%list
       | _, _ => t_errs fr
       end.
Proof.
  unfold processDirectoryFile.
  destruct (pc g) eqn:Hpc; cbn; auto.
  - destruct (LicenseFromFile impl reader (SourceFile (f g))); cbn; auto.
  - destruct (err fr); cbn; auto.
  - destruct (ReadSourceFile world (f g) (Join world [dirPath; path g]))
      as [f' [e|]]; cbn; auto.
  - destruct (AddFile world (pkg fr) _) as [q e]; cbn; auto.
Qed.

(** With one file in the list, the throttler is told of no error: the only
    goroutine defers [t.Done] with the nil [err] it starts with. *)
Lemma runGoroutines_single_file sched lic pkg0 p :
  t_errs (runGoroutines world impl dirPath licenseTag reader sched
            (initialFrame lic pkg0 [p])) = [].
Proof.
  apply (runGoroutines_invariant
           (fun fr => t_errs fr = []
                      /\ exists g, goroutines fr = [g]
                                   /\ (pc g = L187 -> err fr = None)
                                   /\ (pc g <> L187 -> deferred g = None))).
  - intros fr i (Hterr & g & Hgs & H1 & H2). unfold step. rewrite Hgs.
    destruct i as [|i]; [|destruct i; cbn; eauto 6].
    cbn [nth_error]. destruct (started 0 fr); [|eauto 6].
    destruct (processDirectoryFile_moves world impl dirPath licenseTag
                reader g fr) as (Hgs' & _ & Hrank).
    destruct (processDirectoryFile_deferred g fr) as (Hdef & Hterr').
    destruct (pdf g fr) as [g' fr']. cbn [fst snd] in *.
    unfold set_goroutines. cbn [goroutines t_errs err]. rewrite Hgs', Hgs.
    cbn [update].
    assert (Hd : deferred g' = None).
    { rewrite Hdef. destruct (pc g) eqn:Hpc; auto; apply H2; discriminate. }
    split.
    + rewrite Hterr', Hterr.
      destruct (pc g) eqn:Hpc; try reflexivity.
      now rewrite (H2 ltac:(discriminate)).
    + exists g'. split; [reflexivity|]. split; [|auto].
      intros Hpc'. rewrite Hpc' in Hrank. simpl in Hrank.
      destruct (pc g); simpl in Hrank; lia.
  - split; [reflexivity|]. eexists. split; [reflexivity|]. cbn.
    split; auto.
Qed.

End ScanMore.

(** ** PackageFromDirectory, continued *)

Section PackageFromDirectoryMore.
Import GoStrings SPDX Scan.
Context {Reader Patterns : Type}.
Context (world : World) (impl : spdxImplementation Reader Patterns)
        (options : Options).

(** What lines 142-182 have set when the scan starts. *)
Lemma prepare_inv dirPath absPath reader licenseTag lic fileList pkg0 :
  prepare world impl options dirPath
    = inl (absPath, reader, licenseTag, lic, fileList, pkg0) ->
  Abs world dirPath = inl absPath
  /\ Files pkg0 = []
  /\ Package_Relationships pkg0 = []
  /\ Package_Name pkg0
     = (if Base world absPath =? "" then NewString world
        else Base world absPath).
Proof.
  unfold prepare, bind, orWrap.
  destruct (Abs world dirPath) as [d|]; [|discriminate].
  destruct (GetDirectoryTree impl d) as [l|]; [|discriminate].
  destruct (LicenseReader impl options) as [r|]; [|discriminate].
  destruct (GetDirectoryLicense impl r d options) as [li|]; [|discriminate].
  destruct (GetIgnorePatterns impl d (IgnorePatterns options)
              (NoGitignore options)) as [pats|]; [|discriminate].
  intros [= <- <- <- <- <- <-]. cbn.
  destruct (Base world d =? "") eqn:E; cbn; rewrite ?E; auto.
Qed.

(** The dependency step touches the relationships of the package only,
    and fails with one of its two errors only. *)
Lemma goModules_inl dirPath p q :
  goModules world impl options dirPath p = inl q ->
  Files q = Files p
  /\ Package_Name q = Package_Name p
  /\ (Exists world (Join world [dirPath; GoModFileName])
      && ProcessGoModules options = false ->
      Package_Relationships q = Package_Relationships p).
Proof.
  unfold goModules, bind, orWrap.
  destruct (Exists world (Join world [dirPath; GoModFileName])
            && ProcessGoModules options).
  - destruct (GetGoDependencies impl dirPath options) as [deps|];
      [|discriminate].
    intros H%addDependencies_ok. subst q. cbn. repeat split. discriminate.
  - intros [= <-]. auto.
Qed.

Lemma goModules_inr dirPath p e :
  goModules world impl options dirPath p = inr e ->
  exists cause, e = Wrap cause "scanning go packages"
                \/ e = Wrap cause "adding go dependency".
Proof.
  unfold goModules, bind, orWrap.
  destruct (Exists world (Join world [dirPath; GoModFileName])
            && ProcessGoModules options); [|discriminate].
  destruct (GetGoDependencies impl dirPath options) as [deps|cause].
  - intros [cause ->]%addDependencies_error. eauto.
  - intros [= <-]. eauto.
Qed.


(** X7: when the classification and the reading of every listed file
    succeed and the package refuses no file, the call, whatever the
    schedule, returns a package with exactly one file per entry of the file
    list, or fails in the dependency step. *)
Theorem PackageFromDirectory_all_files
    (sched : list nat) (dirPath absPath licenseTag : string) (reader : Reader)
    (lic : option License) (fileList : list string) (pkg0 : Package) :
  prepare world impl options dirPath
    = inl (absPath, reader, licenseTag, lic, fileList, pkg0) ->
  (forall p file, AddFile_refused world p file = None) ->
  Forall (readable world impl absPath reader) fileList ->
  match PackageFromDirectory world impl options sched dirPath with
  | inl pkg => Permutation (map FileName (Files pkg)) fileList
  | inr e => exists cause, e = Wrap cause "scanning go packages"
                           \/ e = Wrap cause "adding go dependency"
  end.
Proof.
  intros Hprep Hadd Hread.
  destruct (prepare_inv _ _ _ _ _ _ _ Hprep) as (_ & H0 & _).
  unfold PackageFromDirectory. rewrite Hprep. cbn [bind].
  destruct (runGoroutines_all_files world impl absPath licenseTag reader sched
              lic pkg0 fileList Hadd Hread H0) as [Hterr Hperm].
  unfold t_Err. rewrite Hterr. cbn [hd_error].
  destruct (goModules _ _ _ _ _) as [q|e] eqn:E.
  - apply goModules_inl in E as (Hf & _). now rewrite Hf.
  - eapply goModules_inr, E.
Qed.

(** X8: when the file list has a single entry, no failure of its scan is
    ever returned: the call returns a package or an error of the dependency
    step, whether or not the file could be classified, read and inserted. *)
Theorem PackageFromDirectory_single_file_never_fails
    (sched : list nat) (dirPath absPath licenseTag p : string) (reader : Reader)
    (lic : option License) (pkg0 : Package) :
  prepare world impl options dirPath
    = inl (absPath, reader, licenseTag, lic, [p], pkg0) ->
  match PackageFromDirectory world impl options sched dirPath with
  | inl pkg => List.length (Files pkg) <= 1
  | inr e => exists cause, e = Wrap cause "scanning go packages"
                           \/ e = Wrap cause "adding go dependency"
  end.
Proof.
  intros Hprep. destruct (prepare_inv _ _ _ _ _ _ _ Hprep) as (_ & H0 & _).
  unfold PackageFromDirectory. rewrite Hprep. cbn [bind].
  unfold t_Err. rewrite runGoroutines_single_file. cbn [hd_error].
  destruct (runGoroutines_files world impl absPath licenseTag reader sched
              lic pkg0 [p] H0) as (idxs & Hnd & Hins).
  destruct (goModules _ _ _ _ _) as [q|e] eqn:E.
  - apply goModules_inl in E as (Hf & _). rewrite Hf.
    rewrite <- (Forall2_length Hins).
    apply (NoDup_incl_length Hnd (l' := [0])).
    intros i Hi. destruct (Forall2_In_l _ _ _ _ Hins Hi) as (file & q' & Hq & _).
    destruct i as [|i]; [now left|]. now destruct i.
  - eapply goModules_inr, E.
Qed.

(** X9: the package returned is named after the last element of the
    absolute path of the directory, and after a fresh UUID when that is
    empty. *)
Theorem PackageFromDirectory_name
    (sched : list nat) (dirPath absPath : string) (pkg : Package) :
  Abs world dirPath = inl absPath ->
  PackageFromDirectory world impl options sched dirPath = inl pkg ->
  Package_Name pkg
  = (if Base world absPath =? "" then NewString world
     else Base world absPath).
Proof.
  intros Habs. unfold PackageFromDirectory.
  destruct (prepare world impl options dirPath)
    as [[[[[[d r] tag] li] fl] pkg0]|] eqn:Hprep; [|discriminate].
  destruct (prepare_inv _ _ _ _ _ _ _ Hprep) as (Habs' & _ & _ & Hname).
  rewrite Habs in Habs'. injection Habs' as <-. cbn [bind].
  destruct (runGoroutines_sameButFiles world impl absPath tag r sched
              (initialFrame li pkg0 fl)) as (_ & Hn & _).
  destruct (t_Err _); [discriminate|].
  intros (_ & Hq & _)%goModules_inl. rewrite Hq, Hn. exact Hname.
Qed.


End PackageFromDirectoryMore.

Section PackageFromDirectoryMoreWitnesses.
Import GoStrings SPDX Scan Sample.


Lemma PackageFromDirectory_all_files_witness :
  exists pkg,
    scan ["a.txt"; "LICENSE"] ["/repo/a.txt"; "/repo/LICENSE"] (Some Apache)
      [1; 1; 0; 1; 1; 1; 1] = inl pkg
    /\ map FileName (Files pkg) = ["LICENSE"; "a.txt"]
    /\ Permutation (map FileName (Files pkg)) ["a.txt"; "LICENSE"].
Proof.
  assert (Hprep :
            prepare (world [] ["/repo/a.txt"; "/repo/LICENSE"])
              (impl ["a.txt"; "LICENSE"] (Some Apache) (inl []))
              defaultSPDXOptions "/repo"
            = inl ("/repo", tt, "Apache-2.0", Some Apache,
                   ["a.txt"; "LICENSE"], emptyPackage "Apache-2.0"))
    by (vm_compute; reflexivity).
  assert (Hadd : forall p file,
            AddFile_refused (world [] ["/repo/a.txt"; "/repo/LICENSE"]) p file
            = None) by reflexivity.
  assert (Hread :
            Forall (readable (world [] ["/repo/a.txt"; "/repo/LICENSE"])
                      (impl ["a.txt"; "LICENSE"] (Some Apache) (inl []))
                      "/repo" tt) ["a.txt"; "LICENSE"])
    by (repeat constructor; eexists; vm_compute; reflexivity).
  pose proof (PackageFromDirectory_all_files _ _ _ [1; 1; 0; 1; 1; 1; 1]
                _ _ _ _ _ _ _ Hprep Hadd Hread) as H.
  unfold scan.
  destruct (PackageFromDirectory _ _ _ _ _) as [pkg|e] eqn:E.
  - exists pkg. split; [reflexivity|]. split; [|exact H].
    vm_compute in E. injection E as <-. reflexivity.
  - exfalso. vm_compute in E. discriminate E.
Defined.

Lemma PackageFromDirectory_single_file_never_fails_witness :
  Checksums (world [] []) "/repo/bad" = inr "permission denied"
  /\ match scan ["bad"] [] (Some Apache) [0; 0; 0] with
     | inl pkg => List.length (Files pkg) <= 1
     | inr e => exists cause, e = Wrap cause "scanning go packages"
                              \/ e = Wrap cause "adding go dependency"
     end.
Proof.
  split; [reflexivity|].
  assert (Hprep :
            prepare (world [] []) (impl ["bad"] (Some Apache) (inl []))
              defaultSPDXOptions "/repo"
            = inl ("/repo", tt, "Apache-2.0", Some Apache, ["bad"],
                   emptyPackage "Apache-2.0"))
    by (vm_compute; reflexivity).
  exact (PackageFromDirectory_single_file_never_fails _ _ _ [0; 0; 0]
           _ _ _ _ _ _ _ Hprep).
Defined.

Lemma PackageFromDirectory_name_witness :
  Package_Name (set_Files (emptyPackage "") [aTxt ""]) = "repo".
Proof.
  apply (PackageFromDirectory_name
           (world [] ["/repo/a.txt"]) (impl ["a.txt"] None (inl []))
           defaultSPDXOptions [0; 0; 0] "/repo" "/repo"
           (set_Files (emptyPackage "") [aTxt ""]));
    vm_compute; reflexivity.
Defined.


End PackageFromDirectoryMoreWitnesses.

(** ** The artifacts document, continued *)

Section StageMoreFacts.
Import GoStrings SPDX Anago StageMore.
Context (world : World) (release : Release).

Lemma extendedBy_refl sbom : extendedBy sbom sbom [].
Proof. unfold extendedBy. now rewrite app_nil_r. Qed.

Lemma extendedBy_trans sbom1 sbom2 sbom3 files1 files2 :
  extendedBy sbom1 sbom2 files1 -> extendedBy sbom2 sbom3 files2 ->
  extendedBy sbom1 sbom3 (files1 ++ files2).
Proof.
  unfold extendedBy. intros (?&?&?&?&Hf1) (?&?&?&?&Hf2).
  repeat split; try congruence. now rewrite Hf2, Hf1, app_assoc.
Qed.

Lemma Document_AddFile_extendedBy sbom file sbom' :
  Document_AddFile release sbom file = (sbom', None) ->
  extendedBy sbom sbom' [file].
Proof.
  unfold Document_AddFile.
  destruct (Document_AddFile_refused release sbom file); [discriminate|].
  intros [= <-]. repeat split.
Qed.

Lemma Document_AddFile_refusal sbom file sbom' e :
  Document_AddFile release sbom file = (sbom', Some e) -> sbom' = sbom.
Proof.
  unfold Document_AddFile.
  destruct (Document_AddFile_refused release sbom file); congruence.
Qed.

(** The loop over the binaries: the files added are those of the binaries
    met before it stops, in order; it stops before the end exactly when it
    returns an error. *)
Lemma addBinaries_spec version binaries : forall sbom sbom' e,
  addBinaries world release sbom version binaries = (sbom', e) ->
  exists files,
    extendedBy sbom sbom' files
    /\ Forall2 (binaryFile world release version)
         (firstn (List.length files) binaries) files
    /\ (e = None -> List.length files = List.length binaries)
    /\ (e <> None -> List.length files < List.length binaries).
Proof.
  induction binaries as [|bin binaries IH]; intros sbom sbom' e; cbn.
  - intros [= <- <-]. exists []. split; [apply extendedBy_refl|].
    repeat split; [constructor | congruence].
  - unfold ReadSourceFile.
    destruct (Checksums world (Path bin)) as [sums|cause] eqn:Hsums.
    + match goal with |- context [Document_AddFile release sbom ?file] =>
        set (file0 := file);
        destruct (Document_AddFile release sbom file0) as [sbom1 [cause|]] eqn:Hadd
      end.
      * intros [= <- <-]. apply Document_AddFile_refusal in Hadd. subst sbom1.
        exists []. split; [apply extendedBy_refl|].
        repeat split; [constructor | discriminate | cbn; lia].
      * intros Hrest. apply Document_AddFile_extendedBy in Hadd.
        destruct (IH _ _ _ Hrest) as (files & Hext & Hall & Hnone & Hsome).
        exists (file0 :: files). split; [|split; [|split]].
        -- exact (extendedBy_trans _ _ _ _ _ Hadd Hext).
        -- cbn. constructor; [|exact Hall]. subst file0.
           repeat split. cbn. exact Hsums.
        -- intros He. cbn. now rewrite Hnone.
        -- intros He. cbn. specialize (Hsome He). lia.
    + intros [= <- <-]. exists []. split; [apply extendedBy_refl|].
      repeat split; [constructor | discriminate | cbn; lia].
Qed.

Lemma addTarfiles_spec version tarballs : forall sbom sbom' e,
  addTarfiles world release sbom version tarballs = (sbom', e) ->
  exists files,
    extendedBy sbom sbom' files
    /\ Forall2 (tarFile world release version)
         (firstn (List.length files) tarballs) files
    /\ (e = None -> List.length files = List.length tarballs)
    /\ (e <> None -> List.length files < List.length tarballs).
Proof.
  induction tarballs as [|tar tarballs IH]; intros sbom sbom' e; cbn.
  - intros [= <- <-]. exists []. split; [apply extendedBy_refl|].
    repeat split; [constructor | congruence].
  - unfold ReadSourceFile.
    destruct (Checksums world tar) as [sums|cause] eqn:Hsums.
    + match goal with |- context [Document_AddFile release sbom ?file] =>
        set (file0 := file);
        destruct (Document_AddFile release sbom file0) as [sbom1 [cause|]] eqn:Hadd
      end.
      * intros [= <- <-]. apply Document_AddFile_refusal in Hadd. subst sbom1.
        exists []. split; [apply extendedBy_refl|].
        repeat split; [constructor | discriminate | cbn; lia].
      * intros Hrest. apply Document_AddFile_extendedBy in Hadd.
        destruct (IH _ _ _ Hrest) as (files & Hext & Hall & Hnone & Hsome).
        exists (file0 :: files). split; [|split; [|split]].
        -- exact (extendedBy_trans _ _ _ _ _ Hadd Hext).
        -- cbn. constructor; [|exact Hall]. subst file0.
           repeat split. cbn. exact Hsums.
        -- intros He. cbn. now rewrite Hnone.
        -- intros He. cbn. specialize (Hsome He). lia.
    + intros [= <- <-]. exists []. split; [apply extendedBy_refl|].
      repeat split; [constructor | discriminate | cbn; lia].
Qed.

(** X11: when [AddBinariesToSBOM] returns no error, the document has
    gained one file per binary of the build, in order, named
    bin/platform/arch/base name, licensed with the release license,
    checksummed and stamped as generated from the source; nothing else of
    the document has changed. *)
Theorem AddBinariesToSBOM_adds_every_binary
    (sbom sbom' : Document) (version : string) (binaries : list Binary) :
  ListBuildBinaries release (gitRoot release) version = inl binaries ->
  AddBinariesToSBOM world release sbom version = (sbom', None) ->
  exists files,
    extendedBy sbom sbom' files
    /\ Forall2 (binaryFile world release version) binaries files.
Proof.
  intros Hlist. unfold AddBinariesToSBOM, ListBinaries. rewrite Hlist.
  intros (files & Hext & Hall & Hlen & _)%addBinaries_spec.
  exists files. split; [exact Hext|].
  rewrite (Hlen eq_refl), firstn_all in Hall. exact Hall.
Qed.

(** X12: when [AddTarfilesToSBOM] returns no error, the document has
    gained one file per tarball of the build, in order, named after the
    base name of the tarball, licensed, checksummed and stamped; nothing
    else of the document has changed. *)
Theorem AddTarfilesToSBOM_adds_every_tarball
    (sbom sbom' : Document) (version : string) (tarballs : list string) :
  ListBuildTarballs release (gitRoot release) version = inl tarballs ->
  AddTarfilesToSBOM world release sbom version = (sbom', None) ->
  exists files,
    extendedBy sbom sbom' files
    /\ Forall2 (tarFile world release version) tarballs files.
Proof.
  intros Hlist. unfold AddTarfilesToSBOM, ListTarballs. rewrite Hlist.
  intros (files & Hext & Hall & Hlen & _)%addTarfiles_spec.
  exists files. split; [exact Hext|].
  rewrite (Hlen eq_refl), firstn_all in Hall. exact Hall.
Qed.

(** X13: when [AddBinariesToSBOM] returns an error after the binaries were
    listed, the document is not rolled back: it keeps the files of the
    binaries met before the failure, which are fewer than the binaries, and
    is otherwise unchanged. *)
Theorem AddBinariesToSBOM_keeps_files_on_error
    (sbom sbom' : Document) (version : string) (binaries : list Binary)
    (err : error) :
  ListBuildBinaries release (gitRoot release) version = inl binaries ->
  AddBinariesToSBOM world release sbom version = (sbom', Some err) ->
  exists files,
    extendedBy sbom sbom' files
    /\ List.length files < List.length binaries
    /\ Forall2 (binaryFile world release version)
         (firstn (List.length files) binaries) files.
Proof.
  intros Hlist. unfold AddBinariesToSBOM, ListBinaries. rewrite Hlist.
  intros (files & Hext & Hall & _ & Hlen)%addBinaries_spec.
  exists files. repeat split; try assumption; try apply Hext.
  apply Hlen. discriminate.
Qed.

(** X14: [GenerateVersionArtifactsBOM] returns no error only when the
    document was handed to [doc.Write] with the path release-bom-VERSION.spdx
    of the temporary directory and the write succeeded. *)
Theorem GenerateVersionArtifactsBOM_nil_after_write (version : string) :
  returned (GenerateVersionArtifactsBOM world release version) = None ->
  exists doc,
    written (GenerateVersionArtifactsBOM world release version)
    = Some (Join world [TempDir world; "release-bom-" ++ version ++ ".spdx"],
            doc)
    /\ Write release doc
         (Join world [TempDir world; "release-bom-" ++ version ++ ".spdx"])
       = None.
Proof.
  unfold GenerateVersionArtifactsBOM.
  destruct (ListImageArchives release version) as [images|]; [|discriminate].
  destruct (BuildBaseArtifactsSBOM release _) as [doc0|]; [|discriminate].
  destruct (AddBinariesToSBOM world release doc0 version) as [doc1 [e|]];
    [discriminate|].
  destruct (AddTarfilesToSBOM world release doc1 version) as [doc2 [e|]];
    [discriminate|].
  destruct (ExternalDocumentRef_ReadSourceFile world _ _) as [ref [e|]];
    [discriminate|].
  cbn [returned written]. intros H. eexists. split; [reflexivity|].
  destruct (Write release _ _); [discriminate | reflexivity].
Qed.

(** X15: when the source-tree document of the version cannot be read from
    source-bom-VERSION.spdx in the temporary directory, nothing is written
    and an error is returned. *)
Theorem GenerateVersionArtifactsBOM_needs_source_bom
    (version : string) (cause : error) :
  Checksums world
    (Join world [TempDir world; "source-bom-" ++ version ++ ".spdx"])
  = inr cause ->
  written (GenerateVersionArtifactsBOM world release version) = None
  /\ returned (GenerateVersionArtifactsBOM world release version) <> None.
Proof.
  intros Hsrc. unfold GenerateVersionArtifactsBOM.
  destruct (ListImageArchives release version) as [images|];
    [|split; [reflexivity | discriminate]].
  destruct (BuildBaseArtifactsSBOM release _) as [doc0|];
    [|split; [reflexivity | discriminate]].
  destruct (AddBinariesToSBOM world release doc0 version) as [doc1 [e|]];
    [split; [reflexivity | discriminate]|].
  destruct (AddTarfilesToSBOM world release doc1 version) as [doc2 [e|]];
    [split; [reflexivity | discriminate]|].
  unfold ExternalDocumentRef_ReadSourceFile. rewrite Hsrc.
  split; [reflexivity | discriminate].
Qed.

(** X16: the document handed to [doc.Write] is the base document generated
    from the image archives, with every package stamped, with the files of
    the binaries and then of the tarballs added after its own, and with
    the reference to the source-tree document added after its own. *)
Theorem GenerateVersionArtifactsBOM_document
    (version path : string) (doc : Document) :
  written (GenerateVersionArtifactsBOM world release version)
    = Some (path, doc) ->
  exists base images binaries tarballs binFiles tarFiles ref,
    ListBuildImages release (gitRoot release) version = inl images
    /\ ListBuildBinaries release (gitRoot release) version = inl binaries
    /\ ListBuildTarballs release (gitRoot release) version = inl tarballs
    /\ Generate release
         {| Name := "Kubernetes Release " ++ version;
            AnalyseLayers := false;
            OnlyDirectDeps := false;
            License := LicenseIdentifier release;
            Namespace := "https://sbom.k8s.io/" ++ version ++ "/release";
            ScanLicenses := false;
            Tarballs := images;
            OutputFile := Join world [] |} = inl base
    /\ Document_Name doc = Document_Name base
    /\ Document_Namespace doc = Document_Namespace base
    /\ Packages doc
       = map (fun pkg => Package_AddRelationship pkg (sourceCode version))
           (Packages base)
    /\ Document_Files doc = (Document_Files base ++ binFiles ++ tarFiles)%list
    /\ Forall2 (binaryFile world release version) binaries binFiles
    /\ Forall2 (tarFile world release version) tarballs tarFiles
    /\ ExternalDocRefs doc = (ExternalDocRefs base ++ [ref])%list.
Proof.
  unfold GenerateVersionArtifactsBOM, ListImageArchives,
    BuildBaseArtifactsSBOM.
  destruct (ListBuildImages release (gitRoot release) version)
    as [images|] eqn:Himg; [|discriminate].
  destruct (Generate release _) as [doc0|] eqn:Hgen; [|discriminate].
  destruct (AddBinariesToSBOM world release doc0 version)
    as [doc1 [e|]] eqn:Hbin; [discriminate|].
  destruct (AddTarfilesToSBOM world release doc1 version)
    as [doc2 [e|]] eqn:Htar; [discriminate|].
  destruct (ExternalDocumentRef_ReadSourceFile world _ _) as [ref [e|]];
    [discriminate|].
  cbn [written]. intros [= _ <-].
  assert (Hb : exists binaries,
             ListBuildBinaries release (gitRoot release) version = inl binaries).
  { unfold AddBinariesToSBOM, ListBinaries in Hbin.
    destruct (ListBuildBinaries release (gitRoot release) version);
      [eauto | discriminate]. }
  assert (Ht : exists tarballs,
             ListBuildTarballs release (gitRoot release) version = inl tarballs).
  { unfold AddTarfilesToSBOM, ListTarballs in Htar.
    destruct (ListBuildTarballs release (gitRoot release) version);
      [eauto | discriminate]. }
  destruct Hb as [binaries Hb]. destruct Ht as [tarballs Ht].
  unfold AddBinariesToSBOM, ListBinaries in Hbin. rewrite Hb in Hbin.
  apply addBinaries_spec in Hbin
    as (binFiles & (Hn1 & Hs1 & Hp1 & Hr1 & Hf1) & Hall1 & Hlen1 & _).
  rewrite (Hlen1 eq_refl), firstn_all in Hall1.
  unfold AddTarfilesToSBOM, ListTarballs in Htar. rewrite Ht in Htar.
  apply addTarfiles_spec in Htar
    as (tarFiles & (Hn2 & Hs2 & Hp2 & Hr2 & Hf2) & Hall2 & Hlen2 & _).
  rewrite (Hlen2 eq_refl), firstn_all in Hall2.
  exists doc0, images, binaries, tarballs, binFiles, tarFiles, ref.
  unfold stampPackages. cbn.
  repeat split; try assumption; try congruence.
  now rewrite Hf2, Hf1, app_assoc.
Qed.

(** X17: the reference the artifacts document holds to the source-tree
    document carries the name and the namespace [WriteSourceBOM] gives that
    document for the version, and the checksums of the file it writes it
    to; the stamp of the packages points to that reference. *)
Theorem GenerateVersionArtifactsBOM_refers_to_WriteSourceBOM
    (version path sourcePath : string) (spdxDoc doc source : Document) :
  written (WriteSourceBOM world release spdxDoc version)
    = Some (sourcePath, source) ->
  written (GenerateVersionArtifactsBOM world release version)
    = Some (path, doc) ->
  exists ref,
    In ref (ExternalDocRefs doc)
    /\ ExternalDocumentRef_ID ref = Document_Name source
    /\ URI ref = Document_Namespace source
    /\ Checksums world sourcePath = inl (ExternalDocumentRef_Checksums ref)
    /\ PeerExtReference (sourceCode version) = ExternalDocumentRef_ID ref.
Proof.
  unfold WriteSourceBOM. cbn [written]. intros [= <- <-].
  unfold GenerateVersionArtifactsBOM.
  destruct (ListImageArchives release version) as [images|]; [|discriminate].
  destruct (BuildBaseArtifactsSBOM release _) as [doc0|]; [|discriminate].
  destruct (AddBinariesToSBOM world release doc0 version) as [doc1 [e|]];
    [discriminate|].
  destruct (AddTarfilesToSBOM world release doc1 version) as [doc2 [e|]];
    [discriminate|].
  unfold ExternalDocumentRef_ReadSourceFile.
  destruct (Checksums world _) as [sums|] eqn:Hsums; [|discriminate].
  cbn [written]. intros [= _ <-].
  eexists. split; [|split; [|split; [|split]]].
  - unfold stampPackages. cbn. apply in_or_app. right. now left.
  - reflexivity.
  - reflexivity.
  - reflexivity.
  - reflexivity.
Qed.

End StageMoreFacts.

Section StageMoreWitnesses.
Import GoStrings SPDX Anago StageMore SampleStageMore.

Lemma AddBinariesToSBOM_adds_every_binary_witness :
  exists files,
    extendedBy base
      (fst (AddBinariesToSBOM SampleStage.world SampleStage.release base
              "v1.22.0")) files
    /\ Forall2 (binaryFile SampleStage.world SampleStage.release "v1.22.0")
         [kubectl] files.
Proof.
  apply (AddBinariesToSBOM_adds_every_binary SampleStage.world
           SampleStage.release base _ "v1.22.0" [kubectl]);
    vm_compute; reflexivity.
Defined.

Lemma AddTarfilesToSBOM_adds_every_tarball_witness :
  exists files,
    extendedBy base
      (fst (AddTarfilesToSBOM SampleStage.world SampleStage.release base
              "v1.22.0")) files
    /\ Forall2 (tarFile SampleStage.world SampleStage.release "v1.22.0")
         ["/build/kubernetes.tar.gz"] files.
Proof.
  apply (AddTarfilesToSBOM_adds_every_tarball SampleStage.world
           SampleStage.release base _ "v1.22.0" ["/build/kubernetes.tar.gz"]);
    vm_compute; reflexivity.
Defined.

Lemma AddBinariesToSBOM_keeps_files_on_error_witness :
  List.length
    (Document_Files
       (fst (AddBinariesToSBOM SampleStage.world brokenRelease base
               "v1.22.0"))) = 1
  /\ exists files,
       extendedBy base
         (fst (AddBinariesToSBOM SampleStage.world brokenRelease base
                 "v1.22.0")) files
       /\ List.length files < List.length [kubectl; kubelet]
       /\ Forall2 (binaryFile SampleStage.world brokenRelease "v1.22.0")
            (firstn (List.length files) [kubectl; kubelet]) files.
Proof.
  split; [vm_compute; reflexivity|].
  apply (AddBinariesToSBOM_keeps_files_on_error SampleStage.world
           brokenRelease base _ "v1.22.0" [kubectl; kubelet]
           "reading binary sourcefile from /build/kubelet: permission denied");
    vm_compute; reflexivity.
Defined.

Lemma GenerateVersionArtifactsBOM_nil_after_write_witness :
  exists doc,
    written (GenerateVersionArtifactsBOM SampleStage.world
               SampleStage.release "v1.22.0")
    = Some ("/tmp/release-bom-v1.22.0.spdx", doc)
    /\ Write SampleStage.release doc "/tmp/release-bom-v1.22.0.spdx" = None.
Proof.
  apply (GenerateVersionArtifactsBOM_nil_after_write SampleStage.world
           SampleStage.release "v1.22.0").
  vm_compute. reflexivity.
Defined.

Lemma GenerateVersionArtifactsBOM_needs_source_bom_witness :
  written (GenerateVersionArtifactsBOM worldWithoutSource
             SampleStage.release "v1.22.0") = None
  /\ returned (GenerateVersionArtifactsBOM worldWithoutSource
                 SampleStage.release "v1.22.0") <> None.
Proof.
  apply (GenerateVersionArtifactsBOM_needs_source_bom worldWithoutSource
           SampleStage.release "v1.22.0" "permission denied").
  vm_compute. reflexivity.
Defined.

Lemma GenerateVersionArtifactsBOM_document_witness :
  List.length (Document_Files artifacts) = 2
  /\ exists base images binaries tarballs binFiles tarFiles ref,
       ListBuildImages SampleStage.release (gitRoot SampleStage.release)
         "v1.22.0" = inl images
       /\ ListBuildBinaries SampleStage.release (gitRoot SampleStage.release)
            "v1.22.0" = inl binaries
       /\ ListBuildTarballs SampleStage.release (gitRoot SampleStage.release)
            "v1.22.0" = inl tarballs
       /\ Generate SampleStage.release
            {| Name := "Kubernetes Release " ++ "v1.22.0";
               AnalyseLayers := false;
               OnlyDirectDeps := false;
               License := LicenseIdentifier SampleStage.release;
               Namespace := "https://sbom.k8s.io/" ++ "v1.22.0" ++ "/release";
               ScanLicenses := false;
               Tarballs := images;
               OutputFile := Join SampleStage.world [] |} = inl base
       /\ Document_Name artifacts = Document_Name base
       /\ Document_Namespace artifacts = Document_Namespace base
       /\ Packages artifacts
          = map (fun pkg =>
                   Package_AddRelationship pkg
                     (sourceCode "v1.22.0"))
              (Packages base)
       /\ Document_Files artifacts
          = (Document_Files base ++ binFiles ++ tarFiles)%list
       /\ Forall2 (binaryFile SampleStage.world SampleStage.release "v1.22.0")
            binaries binFiles
       /\ Forall2 (tarFile SampleStage.world SampleStage.release "v1.22.0")
            tarballs tarFiles
       /\ ExternalDocRefs artifacts = (ExternalDocRefs base ++ [ref])%list.
Proof.
  split; [vm_compute; reflexivity|].
  apply (GenerateVersionArtifactsBOM_document SampleStage.world
           SampleStage.release "v1.22.0" "/tmp/release-bom-v1.22.0.spdx"
           artifacts).
  vm_compute. reflexivity.
Defined.

Lemma GenerateVersionArtifactsBOM_refers_to_WriteSourceBOM_witness :
  exists ref,
    In ref (ExternalDocRefs artifacts)
    /\ ExternalDocumentRef_ID ref = Document_Name source
    /\ URI ref = Document_Namespace source
    /\ Checksums SampleStage.world "/tmp/source-bom-v1.22.0.spdx"
       = inl (ExternalDocumentRef_Checksums ref)
    /\ PeerExtReference (sourceCode "v1.22.0") = ExternalDocumentRef_ID ref.
Proof.
  apply (GenerateVersionArtifactsBOM_refers_to_WriteSourceBOM
           SampleStage.world SampleStage.release "v1.22.0"
           "/tmp/release-bom-v1.22.0.spdx" "/tmp/source-bom-v1.22.0.spdx"
           base artifacts source);
    vm_compute; reflexivity.
Defined.

End StageMoreWitnesses.

(** ** The steps of DefaultStage *)

Section StepsFacts.
Import GoStrings SPDX Steps.

Lemma run_andThen impl p : forall q h,
  run impl (andThen p q) h
  = match run impl p h with
    | (Some e, t) => (Some e, t)
    | (None, t) =>
        let '(r, t') := run impl q (h ++ t) in (r, (t ++ t')%list)
    end.
Proof.
  induction p as [[e|]|c k IH]; intros q h; cbn.
  - reflexivity.
  - rewrite app_nil_r. now destruct (run impl q h).
  - rewrite IH.
    destruct (run impl (k (impl h c)) (h ++ [existT Reply c (impl h c)]))
      as [[e|] t]; [reflexivity|].
    replace ((h ++ [existT Reply c (impl h c)]) ++ t)%list
      with (h ++ existT Reply c (impl h c) :: t)%list
      by (now rewrite <- app_assoc).
    destruct (run impl q (h ++ existT Reply c (impl h c) :: t)).
    reflexivity.
Qed.

Lemma run_wrapped impl message err h :
  run impl (wrapped message err) h
  = (match err with Some e => Some (Wrap e message) | None => None end, []).
Proof. reflexivity. Qed.

Lemma run_forVersions impl body version versions h :
  run impl (forVersions body (version :: versions)) h
  = match run impl (body version) h with
    | (Some e, t) => (Some e, t)
    | (None, t) =>
        let '(r, t') := run impl (forVersions body versions) (h ++ t) in
        (r, (t ++ t')%list)
    end.
Proof. apply run_andThen. Qed.

(** The run of a loop is made of the runs of its turns. *)
Lemma forVersions_loopRun impl body turn :
  (forall version h,
     turn version (fst (run impl (body version) h))
       (snd (run impl (body version) h))) ->
  forall versions h,
    loopRun turn versions
      (fst (run impl (forVersions body versions) h))
      (snd (run impl (forVersions body versions) h)).
Proof.
  intros Hturn versions.
  induction versions as [|version versions IH]; intros h.
  - constructor.
  - rewrite run_forVersions. specialize (Hturn version h).
    destruct (run impl (body version) h) as [[e|] t]; cbn [fst snd] in *.
    + now constructor.
    + specialize (IH (h ++ t)%list).
      destruct (run impl (forVersions body versions) (h ++ t)) as [r t'].
      now constructor.
Qed.

(** Where an element of two lists put end to end lies. *)
Lemma app_eq_app_cons {A} (t t' t1 t2 : list A) x :
  (t ++ t')%list = (t1 ++ x :: t2)%list ->
  (exists l, t = (t1 ++ x :: l)%list /\ t2 = (l ++ t')%list)
  \/ (exists l, t1 = (t ++ l)%list /\ t' = (l ++ x :: t2)%list).
Proof.
  revert t1. induction t as [|a t IH]; intros t1 H; cbn in *.
  - right. now exists t1.
  - destruct t1 as [|b t1]; cbn in *; injection H as -> H.
    + left. now exists t.
    + destruct (IH _ H) as [(l & -> & ->)|(l & -> & ->)]; [left | right];
        now exists l.
Qed.

Section TagRepositoryFacts.
Context (consts : Constants) (options : StageOptions) (state : StageState).

Ltac split_run :=
  repeat (match goal with
          | |- context [match ?i ?hh ?c with _ => _ end] =>
              is_var i; destruct (i hh c) eqn:?
          | |- context [if ?b then _ else _] => destruct b eqn:?
          end; cbn [run wrapped andThen fst snd]).

Ltac solve_events :=
  repeat match goal with
         | |- Forall _ [] => constructor
         | |- Forall _ (_ :: _) => constructor
         | |- _ /\ _ => split
         | |- True => exact I
         end.

(** One turn of the loop of [TagRepository]. *)
Lemma tagVersion_run impl repo version h :
  tagVersionRun options repo version
    (fst (run impl (tagVersion consts options state repo version) h))
    (snd (run impl (tagVersion consts options state repo version) h)).
Proof.
  unfold tagVersionRun, tagVersion. cbn [run].
  destruct (impl h (RevParseTag repo version)) as [sha|e0] eqn:E0;
    cbn [run fst snd].
  - eexists _, []. split; [reflexivity|].
    repeat split; try constructor; try discriminate.
  - set (ev0 := existT Reply (RevParseTag repo version) (inr e0)).
    split_run.
    all: (eexists _, _; split; [reflexivity|]).
    all: (split; [intros sha Hsha; discriminate Hsha|]).
    all: (split; [solve_events; intros; cbn; discriminate|]).
    all: (split; [solve_events; intros repo' name message Hc; cbn in Hc;
                  try discriminate Hc; injection Hc as <- <- <-; auto|]).
    all: (split; [intros Hres; try discriminate Hres; reflexivity|]).
    all: (split; [intros Hres; try discriminate Hres; solve_events;
                  reflexivity|]).
    all: (cbn [commitsOnReleaseBranch]; solve_events; intros repo' msg Hc;
          cbn in Hc; try discriminate Hc).
    all: (eexists _, _; split; [reflexivity | assumption]).
Qed.

Lemma cons_eq {A} (a b : A) l l' : a :: l = b :: l' -> a = b /\ l = l'.
Proof. intros H. now injection H. Qed.

(** A property of the events of a run that looks at an event and at the
    events before it holds of two runs put end to end when it holds of
    each and lets more events come first. *)
Lemma split_app (Q : Event -> Prop) (R : list Event -> Event -> Prop) :
  (forall t0 t1 ev, R t1 ev -> R (t0 ++ t1)%list ev) ->
  forall t t',
    (forall t1 ev t2, t = (t1 ++ ev :: t2)%list -> Q ev -> R t1 ev) ->
    (forall t1 ev t2, t' = (t1 ++ ev :: t2)%list -> Q ev -> R t1 ev) ->
    forall t1 ev t2, (t ++ t')%list = (t1 ++ ev :: t2)%list -> Q ev -> R t1 ev.
Proof.
  intros Hmono t t' Ht Ht' t1 ev t2 Heq Hq.
  destruct (app_eq_app_cons _ _ _ _ _ Heq) as [(l & -> & _)|(l & -> & ->)].
  - eapply Ht; eauto.
  - apply Hmono. eapply Ht'; eauto.
Qed.

Lemma loopRun_split turn (Q : Event -> Prop)
    (R : list Event -> Event -> Prop) :
  (forall t0 t1 ev, R t1 ev -> R (t0 ++ t1)%list ev) ->
  (forall version res t, turn version res t ->
     forall t1 ev t2, t = (t1 ++ ev :: t2)%list -> Q ev -> R t1 ev) ->
  forall versions res t, loopRun turn versions res t ->
    forall t1 ev t2, t = (t1 ++ ev :: t2)%list -> Q ev -> R t1 ev.
Proof.
  intros Hmono Hturn versions res t Hrun.
  induction Hrun as [|version versions e t Ht|version versions res t t' Ht _ IH].
  - intros [|? ?] ? ? H; discriminate H.
  - eapply Hturn, Ht.
  - apply (split_app Q R Hmono t t'); [eapply Hturn, Ht | exact IH].
Qed.

(** The calls to [Tag] of one turn. *)
Lemma tagVersionRun_Tag repo version res t :
  tagVersionRun options repo version res t ->
  forall t1 ev t2, t = (t1 ++ ev :: t2)%list ->
    (exists repo' name message, projT1 ev = Tag repo' name message) ->
    exists repo' name e,
      projT1 ev = Tag repo' name (tagMessage options name)
      /\ In (existT Reply (RevParseTag repo' name) (inr e)) t1.
Proof.
  intros (r0 & t' & -> & Hexists & _ & Htags & _) t1 ev t2 Heq
    (repo' & name & message & Hev).
  destruct t1 as [|ev0 t1];
    cbn in Heq; apply cons_eq in Heq; destruct Heq as [Heq0 Heq].
  - rewrite <- Heq0 in Hev. discriminate Hev.
  - subst ev0 t'.
    assert (Hin : In ev (t1 ++ ev :: t2)) by (apply in_elt).
    eapply Forall_forall in Htags; [|exact Hin].
    destruct (Htags _ _ _ Hev) as (-> & -> & ->).
    destruct r0 as [sha|e].
    + destruct (Hexists sha eq_refl) as [Hnil _].
      now destruct t1.
    + exists repo, version, e. split; [exact Hev | now left].
Qed.

Lemma commitsOnReleaseBranch_split t : forall prev t1 ev t2 repo msg,
  commitsOnReleaseBranch prev t ->
  t = (t1 ++ ev :: t2)%list ->
  projT1 ev = CommitEmpty repo msg ->
  (t1 = [] /\ match prev with Some p => onReleaseBranch p | None => False end)
  \/ exists t0 p, t1 = (t0 ++ [p])%list /\ onReleaseBranch p.
Proof.
  induction t as [|ev0 t IH]; intros prev t1 ev t2 repo msg Hc Heq Hev.
  - now destruct t1.
  - destruct Hc as [Hhere Hrest].
    destruct t1 as [|ev1 t1]; cbn in Heq; apply cons_eq in Heq; destruct Heq as [-> ->].
    + left. split; [reflexivity|]. eapply Hhere, Hev.
    + right. destruct (IH _ _ _ _ _ _ Hrest eq_refl Hev)
        as [(-> & Hp)|(t0 & p & -> & Hp)].
      * now exists [], ev1.
      * now exists (ev1 :: t0), p.
Qed.

(** The calls to [CommitEmpty] of one turn. *)
Lemma tagVersionRun_CommitEmpty repo version res t :
  tagVersionRun options repo version res t ->
  forall t1 ev t2, t = (t1 ++ ev :: t2)%list ->
    (exists repo' msg, projT1 ev = CommitEmpty repo' msg) ->
    exists t0 p, t1 = (t0 ++ [p])%list /\ onReleaseBranch p.
Proof.
  intros (r0 & t' & -> & _ & _ & _ & _ & _ & Hc) t1 ev t2 Heq
    (repo' & msg & Hev).
  assert (Hall : commitsOnReleaseBranch None
                   (existT Reply (RevParseTag repo version) r0 :: t')).
  { split; [|exact Hc]. intros ? ? H. discriminate H. }
  destruct (commitsOnReleaseBranch_split _ _ _ _ _ _ _ Hall Heq Hev)
    as [(_ & [])|H]; exact H.
Qed.

(** The tags of two runs put end to end. *)
Lemma tagsOf_app t t' : tagsOf (t ++ t') = (tagsOf t ++ tagsOf t')%list.
Proof.
  induction t as [|ev t IH]; [reflexivity|]. cbn [app tagsOf].
  destruct (projT1 ev); try exact IH.
  destruct (errorOf ev); [exact IH|]. cbn. now rewrite IH.
Qed.

Lemma loopRun_tagsOf repo versions res t :
  loopRun (tagVersionRun options repo) versions res t ->
  res = None ->
  tagsOf t = map (fun version => (version, tagMessage options version)) versions.
Proof.
  induction 1 as [|version versions e t Ht|version versions res t t' Ht _ IH];
    intros Hres; [reflexivity | discriminate|].
  destruct Ht as (r0 & t0 & _ & _ & _ & _ & Htag & _).
  rewrite tagsOf_app, (Htag eq_refl), (IH Hres). reflexivity.
Qed.

(** A turn that finds the tag stops there. *)
Lemma tagVersionRun_existing repo version res t :
  tagVersionRun options repo version res t ->
  forall t1 ev t2 repo' rev sha,
    t = (t1 ++ ev :: t2)%list ->
    ev = existT Reply (RevParseTag repo' rev) (inl sha) ->
    t2 = [] /\ res = Some (New ("tag " ++ rev ++ " already exists")).
Proof.
  intros (r0 & t' & -> & Hexists & Hnone & _) t1 ev t2 repo' rev sha Heq ->.
  destruct t1 as [|ev0 t1]; cbn in Heq; apply cons_eq in Heq; destruct Heq as [Heq0 Heq].
  - assert (Hrev : rev = version).
    { apply (f_equal (@projT1 _ _)) in Heq0. cbn in Heq0. congruence. }
    subst rev.
    assert (Hr0 : r0 = inl sha).
    { apply (f_equal
               (fun ev : Event =>
                  match ev with
                  | existT _ (RevParseTag _ _) r => Some r
                  | _ => None
                  end)) in Heq0.
      cbn in Heq0. congruence. }
    destruct (Hexists sha Hr0) as [-> ->]. auto.
  - subst t'. eapply Forall_forall in Hnone; [|apply in_elt].
    now elim (Hnone repo' rev).
Qed.

Lemma loopRun_existing repo versions res t :
  loopRun (tagVersionRun options repo) versions res t ->
  forall t1 ev t2 repo' rev sha,
    t = (t1 ++ ev :: t2)%list ->
    ev = existT Reply (RevParseTag repo' rev) (inl sha) ->
    t2 = [] /\ res = Some (New ("tag " ++ rev ++ " already exists")).
Proof.
  induction 1 as [|version versions e t Ht|version versions res t t' Ht _ IH];
    intros t1 ev t2 repo' rev sha Heq Hev.
  - now destruct t1.
  - eapply tagVersionRun_existing; eassumption.
  - destruct (app_eq_app_cons _ _ _ _ _ Heq) as [(l & Ht1 & _)|(l & _ & Ht2)].
    + destruct (tagVersionRun_existing _ _ _ _ Ht _ _ _ _ _ _ Ht1 Hev)
        as [_ Hres]. discriminate Hres.
    + eapply IH; eassumption.
Qed.

(** The run of [TagRepository]: the repository does not open, or it
    opens and the loop runs. *)
Lemma TagRepository_run impl h :
  let res := fst (run impl (TagRepository consts options state) h) in
  let t := snd (run impl (TagRepository consts options state) h) in
  (exists err,
      t = [existT Reply (OpenRepo (gitRoot consts)) (inr err)]
      /\ res = Some (Wrap err "open Kubernetes repository"))
  \/ (exists repo t',
        t = existT Reply (OpenRepo (gitRoot consts)) (inl repo) :: t'
        /\ loopRun (tagVersionRun options repo) (Ordered state) res t').
Proof.
  cbn. destruct (impl h (OpenRepo (gitRoot consts))) as [repo|err]; cbn.
  - right. exists repo.
    pose proof (forVersions_loopRun impl (tagVersion consts options state repo)
                  (tagVersionRun options repo)
                  (fun version h0 => tagVersion_run impl repo version h0)
                  (Ordered state)
                  (h ++ [existT Reply (OpenRepo (gitRoot consts)) (inl repo)]))
      as Hloop.
    destruct (run impl
                (forVersions (tagVersion consts options state repo)
                   (Ordered state))
                (h ++ [existT Reply (OpenRepo (gitRoot consts)) (inl repo)]))
      as [res t']. cbn in *. eauto.
  - left. eauto.
Qed.

Lemma TagRepository_split (Q : Event -> Prop)
    (R : list Event -> Event -> Prop) :
  (forall t0 t1 ev, R t1 ev -> R (t0 ++ t1)%list ev) ->
  (forall repo version res t, tagVersionRun options repo version res t ->
     forall t1 ev t2, t = (t1 ++ ev :: t2)%list -> Q ev -> R t1 ev) ->
  (forall ev repoPath, Q ev -> projT1 ev <> OpenRepo repoPath) ->
  forall impl h t1 ev t2,
    snd (run impl (TagRepository consts options state) h)
    = (t1 ++ ev :: t2)%list ->
    Q ev -> R t1 ev.
Proof.
  intros Hmono Hturn Hopen impl h t1 ev t2 Heq Hq.
  destruct (TagRepository_run impl h)
    as [(err & Ht & _)|(repo & t' & Ht & Hloop)];
    rewrite Ht in Heq; clear Ht;
    (destruct t1 as [|ev1 t1];
     cbn in Heq; apply cons_eq in Heq; destruct Heq as [Heq0 Heq];
     [now elim (Hopen ev (gitRoot consts) Hq); rewrite <- Heq0|]).
  - now destruct t1.
  - apply (Hmono [ev1]).
    eapply (loopRun_split (tagVersionRun options repo) Q R Hmono);
      [apply Hturn | exact Hloop | exact Heq | exact Hq].
Qed.

(** X18: [TagRepository] tags a version only after [RevParseTag] answered
    for that version, in that repository, that there is no such tag, and
    the message of the tag is "Kubernetes <type> release <version>". *)
Theorem TagRepository_tags_missing_versions impl h t1 repo name message r t2 :
  snd (run impl (TagRepository consts options state) h)
  = (t1 ++ existT Reply (Tag repo name message) r :: t2)%list ->
  message = "Kubernetes " ++ ReleaseType options ++ " release " ++ name
  /\ exists e, In (existT Reply (RevParseTag repo name) (inr e)) t1.
Proof.
  intros Heq.
  assert (H : exists repo' name' e,
             Tag repo name message = Tag repo' name' (tagMessage options name')
             /\ In (existT Reply (RevParseTag repo' name') (inr e)) t1).
  { apply (TagRepository_split
             (fun ev => exists repo' name' message',
                  projT1 ev = Tag repo' name' message')
             (fun t1 ev => exists repo' name' e,
                  projT1 ev = Tag repo' name' (tagMessage options name')
                  /\ In (existT Reply (RevParseTag repo' name') (inr e)) t1))
      with (impl := impl) (h := h) (t2 := t2)
           (ev := existT Reply (Tag repo name message) r).
    - intros t0 t3 ev (repo' & name' & e & Hev & Hin).
      exists repo', name', e. split; [exact Hev|]. apply in_or_app. now right.
    - intros repo' version res t. apply tagVersionRun_Tag.
    - intros ev repoPath (repo' & name' & message' & Hev). now rewrite Hev.
    - exact Heq.
    - cbn. eauto. }
  destruct H as (repo' & name' & e & Hev & Hin).
  injection Hev as -> -> ->. split; [reflexivity|eauto].
Qed.

(** X19: when [TagRepository] returns no error, the tags it made are the
    versions, in their order, each once, each with its message. *)
Theorem TagRepository_tags_every_version impl h :
  fst (run impl (TagRepository consts options state) h) = None ->
  tagsOf (snd (run impl (TagRepository consts options state) h))
  = map (fun version =>
           (version,
            "Kubernetes " ++ ReleaseType options ++ " release " ++ version))
        (Ordered state).
Proof.
  intros Hres.
  destruct (TagRepository_run impl h)
    as [(err & _ & Hres')|(repo & t' & Ht & Hloop)].
  - rewrite Hres in Hres'. discriminate Hres'.
  - rewrite Ht. cbn [tagsOf projT1].
    exact (loopRun_tagsOf _ _ _ _ Hloop Hres).
Qed.

(** X20: when [RevParseTag] finds the tag of a version, [TagRepository]
    makes no call after it and returns "tag <version> already exists". *)
Theorem TagRepository_stops_at_existing_tag impl h t1 repo rev sha t2 :
  snd (run impl (TagRepository consts options state) h)
  = (t1 ++ existT Reply (RevParseTag repo rev) (inl sha) :: t2)%list ->
  t2 = []
  /\ fst (run impl (TagRepository consts options state) h)
     = Some (New ("tag " ++ rev ++ " already exists")).
Proof.
  intros Heq.
  destruct (TagRepository_run impl h)
    as [(err & Ht & _)|(repo' & t' & Ht & Hloop)];
    rewrite Ht in Heq; clear Ht;
    (destruct t1 as [|ev1 t1];
     cbn in Heq; apply cons_eq in Heq; destruct Heq as [Heq0 Heq];
     [apply (f_equal (@projT1 _ _)) in Heq0; discriminate Heq0|]).
  - now destruct t1.
  - eapply loopRun_existing; [exact Hloop | exact Heq | reflexivity].
Qed.

(** X21: [TagRepository] makes an empty commit only right after
    [CurrentBranch] answered a branch whose name starts with "release-". *)
Theorem TagRepository_commits_on_release_branch impl h t1 repo msg r t2 :
  snd (run impl (TagRepository consts options state) h)
  = (t1 ++ existT Reply (CommitEmpty repo msg) r :: t2)%list ->
  exists t0 repo' branch,
    t1 = (t0 ++ [existT Reply (CurrentBranch repo') (inl branch)])%list
    /\ HasPrefix branch "release-" = true.
Proof.
  intros Heq.
  assert (H : exists t0 p, t1 = (t0 ++ [p])%list /\ onReleaseBranch p).
  { apply (TagRepository_split
             (fun ev => exists repo' msg', projT1 ev = CommitEmpty repo' msg')
             (fun t1 ev => exists t0 p,
                  t1 = (t0 ++ [p])%list /\ onReleaseBranch p))
      with (impl := impl) (h := h) (t2 := t2)
           (ev := existT Reply (CommitEmpty repo msg) r).
    - intros t0 t3 ev (t4 & p & -> & Hp).
      exists (t0 ++ t4)%list, p. now rewrite app_assoc.
    - intros repo' version res t. apply tagVersionRun_CommitEmpty.
    - intros ev repoPath (repo' & msg' & Hev). now rewrite Hev.
    - exact Heq.
    - cbn. eauto. }
  destruct H as (t0 & p & -> & repo' & branch & -> & Hb). eauto.
Qed.

End TagRepositoryFacts.

Section PlanFacts.
Context (consts : Constants) (options : StageOptions) (state : StageState).

Lemma callsOf_app t t' : callsOf (t ++ t') = (callsOf t ++ callsOf t')%list.
Proof. apply map_app. Qed.

Lemma planned_nil : planned [] None [].
Proof.
  split; [intros _; split; [reflexivity | constructor]|].
  intros e H. discriminate H.
Qed.

(** One statement after the other follows the two plans one after the
    other. *)
Lemma planned_andThen impl p q plan plan' :
  (forall h, planned plan (fst (run impl p h)) (snd (run impl p h))) ->
  (forall h, planned plan' (fst (run impl q h)) (snd (run impl q h))) ->
  forall h,
    planned (plan ++ plan')
      (fst (run impl (andThen p q) h)) (snd (run impl (andThen p q) h)).
Proof.
  intros Hp Hq h. rewrite run_andThen. specialize (Hp h).
  destruct (run impl p h) as [[e|] t]; cbn [fst snd] in *.
  - split; [intros H; discriminate H|].
    intros e' He'. destruct Hp as [_ Hp].
    destruct (Hp e' He') as (t0 & ev & cause & message & rest
                             & -> & Hok & Hev & -> & ->).
    exists t0, ev, cause, message, (rest ++ plan')%list.
    repeat split; auto. now rewrite app_assoc.
  - destruct Hp as [Hp _]. destruct (Hp eq_refl) as [Hcalls Hok].
    specialize (Hq (h ++ t)%list).
    destruct (run impl q (h ++ t)) as [r t']; cbn [fst snd] in *.
    destruct Hq as [Hq Hq']. split.
    + intros Hr. destruct (Hq Hr) as [Hcalls' Hok']. split.
      * now rewrite callsOf_app, Hcalls, Hcalls'.
      * apply Forall_app. now split.
    + intros e He.
      destruct (Hq' e He) as (t0 & ev & cause & message & rest
                              & -> & Hok' & Hev & -> & ->).
      exists (t ++ t0)%list, ev, cause, message, rest.
      repeat split; auto.
      * now rewrite app_assoc.
      * apply Forall_app. now split.
      * now rewrite <- Hcalls, !callsOf_app, !app_assoc.
Qed.

(** A loop follows the plans of its turns one after the other. *)
Lemma planned_forVersions impl body (planOf : string -> list Call) :
  (forall version h,
     planned (planOf version)
       (fst (run impl (body version) h)) (snd (run impl (body version) h))) ->
  forall versions h,
    planned (flat_map planOf versions)
      (fst (run impl (forVersions body versions) h))
      (snd (run impl (forVersions body versions) h)).
Proof.
  intros Hbody versions.
  induction versions as [|version versions IH]; intros h.
  - apply planned_nil.
  - cbn [forVersions flat_map]. apply planned_andThen; [apply Hbody | exact IH].
Qed.

(** A call that answers an error only, followed by
    [if err != nil { return errors.Wrap(err, message) }]. *)
Lemma planned_call (c : Call) (k : Reply c -> option error) message r :
  errorOf (existT Reply c r) = k r ->
  planned [c]
    (match k r with Some e => Some (Wrap e message) | None => None end)
    [existT Reply c r].
Proof.
  intros Herr. split.
  - intros Hres. split; [reflexivity|].
    constructor; [|constructor]. rewrite Herr. now destruct (k r).
  - intros e He. destruct (k r) as [cause|] eqn:Hk; [|discriminate He].
    exists [], (existT Reply c r), cause, message, [].
    injection He as <-. repeat split; auto.
Qed.

(** X22: [Build] logs into Docker Hub and then builds the versions in
    their order, one call of [MakeCross] each.  It stops at the first call
    that answers an error and returns that error, wrapped; when it
    returns no error, it made all the calls and none answered one. *)
Theorem Build_plan impl h :
  planned (DockerHubLogin :: map MakeCross (Ordered state))
    (fst (run impl (Build state) h)) (snd (run impl (Build state) h)).
Proof.
  replace (map MakeCross (Ordered state))
    with (flat_map (fun version => [MakeCross version]) (Ordered state))
    by (induction (Ordered state) as [|v l IH]; cbn; [|rewrite IH]; reflexivity).
  change (DockerHubLogin
            :: flat_map (fun version => [MakeCross version]) (Ordered state))
    with ([DockerHubLogin]
            ++ flat_map (fun version => [MakeCross version]) (Ordered state))%list.
  unfold Build. revert h. apply planned_andThen.
  - intros h. cbn [run wrapped fst snd].
    apply (planned_call DockerHubLogin (fun r => r)). reflexivity.
  - apply planned_forVersions. intros version h. cbn [run wrapped fst snd].
    apply (planned_call (MakeCross version) (fun r => r)). reflexivity.
Qed.

(** One turn of the loop of [GenerateBillOfMaterials]. *)
Lemma GenerateBillOfMaterials_turn impl spdxDOC version h :
  planned
    [WriteSourceBOM spdxDOC version; GenerateVersionArtifactsBOM version]
    (fst (run impl
            (andThen
               (Do (WriteSourceBOM spdxDOC version)
                   (wrapped ("writing SBOM for version " ++ version)))
               (Do (GenerateVersionArtifactsBOM version)
                   (wrapped ("generating SBOM for version " ++ version))))
            h))
    (snd (run impl
            (andThen
               (Do (WriteSourceBOM spdxDOC version)
                   (wrapped ("writing SBOM for version " ++ version)))
               (Do (GenerateVersionArtifactsBOM version)
                   (wrapped ("generating SBOM for version " ++ version))))
            h)).
Proof.
  revert h.
  apply (planned_andThen impl _ _ [WriteSourceBOM spdxDOC version]
           [GenerateVersionArtifactsBOM version]);
    intros h; cbn [run wrapped fst snd].
  - apply (planned_call (WriteSourceBOM spdxDOC version) (fun r => r)).
    reflexivity.
  - apply (planned_call (GenerateVersionArtifactsBOM version) (fun r => r)).
    reflexivity.
Qed.

(** X23: [GenerateBillOfMaterials] first generates the SBOM of the source
    tree, once.  When that fails it makes no other call and returns the
    error, wrapped.  Otherwise it goes through the versions in their
    order and, for each, writes the source SBOM from that one document and
    then generates the SBOM of the artifacts; it stops at the first call
    that answers an error and returns that error, wrapped. *)
Theorem GenerateBillOfMaterials_plan impl h :
  let res := fst (run impl (GenerateBillOfMaterials consts state) h) in
  let t := snd (run impl (GenerateBillOfMaterials consts state) h) in
  exists r t',
    t = existT Reply
          (GenerateSourceTreeBOM
             {| ProcessGoModules := true;
                License := LicenseIdentifier consts;
                OutputFile := "/tmp/kubernetes-source.spdx";
                Namespace := "https://sbom.k8s.io/REPLACE/source";
                ScanLicenses := true;
                Directories := [gitRoot consts] |}) r :: t'
    /\ match r with
       | inr err =>
           t' = []
           /\ res = Some (Wrap err "generating the kubernetes source SBOM")
       | inl spdxDOC =>
           planned
             (flat_map
                (fun version =>
                   [WriteSourceBOM spdxDOC version;
                    GenerateVersionArtifactsBOM version])
                (Ordered state))
             res t'
       end.
Proof.
  cbn [run GenerateBillOfMaterials fst snd].
  set (c := GenerateSourceTreeBOM _).
  destruct (impl h c) as [spdxDOC|err].
  - pose proof (planned_forVersions impl _ _
                  (GenerateBillOfMaterials_turn impl spdxDOC) (Ordered state)
                  (h ++ [existT Reply c (inl spdxDOC)])) as Hloop.
    cbv beta in Hloop.
    destruct (run impl _ (h ++ [existT Reply c (inl spdxDOC)])) as [res t'].
    exists (inl spdxDOC), t'. split; [reflexivity | exact Hloop].
  - exists (inr err), []. split; [reflexivity|]. split; reflexivity.
Qed.

End PlanFacts.

End StepsFacts.
Section StepsWitnesses.
Import GoStrings SPDX Steps SampleSteps.

Local Abbreviation repo := "/workspace/src/k8s.io/kubernetes".

Lemma TagRepository_tags_missing_versions_witness :
  "Kubernetes official release v1.20.0"
  = "Kubernetes " ++ ReleaseType options ++ " release " ++ "v1.20.0"
  /\ exists e,
       In (existT Reply (RevParseTag repo "v1.20.0") (inr e))
          (firstn 6 (snd (run (git []) (TagRepository consts options state)
                            []))).
Proof.
  apply (TagRepository_tags_missing_versions consts options state (git []) []
           (firstn 6 (snd (run (git []) (TagRepository consts options state)
                             [])))
           repo "v1.20.0" "Kubernetes official release v1.20.0" None
           (skipn 7 (snd (run (git []) (TagRepository consts options state)
                            [])))).
  vm_compute. reflexivity.
Defined.

Lemma TagRepository_tags_every_version_witness :
  tagsOf (snd (run (git []) (TagRepository consts options state) []))
  = [("v1.20.0", "Kubernetes official release v1.20.0");
     ("v1.20.1-rc.0", "Kubernetes official release v1.20.1-rc.0")].
Proof.
  assert (Hres : fst (run (git []) (TagRepository consts options state) [])
                 = None) by (vm_compute; reflexivity).
  exact (TagRepository_tags_every_version consts options state (git []) []
           Hres).
Defined.

Lemma TagRepository_stops_at_existing_tag_witness :
  @nil Event = []
  /\ fst (run (git ["v1.20.1-rc.0"]) (TagRepository consts options state) [])
     = Some (New "tag v1.20.1-rc.0 already exists").
Proof.
  apply (TagRepository_stops_at_existing_tag consts options state
           (git ["v1.20.1-rc.0"]) []
           (firstn 7 (snd (run (git ["v1.20.1-rc.0"])
                             (TagRepository consts options state) [])))
           repo "v1.20.1-rc.0" "abcdef0" []).
  vm_compute. reflexivity.
Defined.

Lemma TagRepository_commits_on_release_branch_witness :
  exists t0 repo' branch,
    firstn 4 (snd (run (git []) (TagRepository consts options state) []))
    = (t0 ++ [existT Reply (CurrentBranch repo') (inl branch)])%list
    /\ HasPrefix branch "release-" = true.
Proof.
  apply (TagRepository_commits_on_release_branch consts options state
           (git []) []
           (firstn 4 (snd (run (git []) (TagRepository consts options state)
                             [])))
           repo "Release commit for Kubernetes v1.20.0" None
           (skipn 5 (snd (run (git []) (TagRepository consts options state)
                            [])))).
  vm_compute. reflexivity.
Defined.

End StepsWitnesses.
(** ** The attestation of a run *)

Section AttestFacts.
Import GoStrings IDString SPDX Provenance Steps Attest.

Lemma take_drop n : forall s, take n s ++ drop n s = s.
Proof.
  induction n as [|n IH]; intros [|c s]; simpl; try reflexivity.
  now rewrite IH.
Qed.

Lemma take_app s : forall t, take (String.length s) (s ++ t) = s.
Proof.
  induction s as [|c s IH]; intros t; simpl.
  - now destruct t.
  - now rewrite IH.
Qed.

Lemma drop_app s : forall t, drop (String.length s) (s ++ t) = t.
Proof. induction s as [|c s IH]; intros t; simpl; auto. Qed.

Lemma take_length n : forall s,
  n <= String.length s -> String.length (take n s) = n.
Proof.
  induction n as [|n IH]; intros [|c s] H; simpl in *; try reflexivity;
    try lia.
  rewrite IH; lia.
Qed.

Lemma spaces_drop s : spaces s ++ drop (String.length (spaces s)) s = s.
Proof.
  induction s as [|c s IH]; simpl; [reflexivity|].
  destruct (isSpace c); simpl; [now rewrite IH | reflexivity].
Qed.

Lemma allChars_spaces s : allChars isSpace (spaces s) = true.
Proof.
  induction s as [|c s IH]; simpl; [reflexivity|].
  destruct (isSpace c) eqn:E; simpl; [now rewrite E | reflexivity].
Qed.

Lemma prefix_drop p : forall s,
  String.prefix p s = true -> s = p ++ drop (String.length p) s.
Proof.
  induction p as [|c p IH]; intros [|d s] H; simpl in *;
    try reflexivity; try discriminate.
  destruct (ascii_dec c d) as [->|]; [|discriminate].
  now rewrite <- IH.
Qed.

Lemma prefix_self_app p : forall t, String.prefix p (p ++ t) = true.
Proof.
  induction p as [|c p IH]; intros t; simpl.
  - now destruct t.
  - destruct (ascii_dec c c) as [_|H]; [apply IH | now elim H].
Qed.

(** No byte is white space and a hexadecimal digit. *)
Lemma isHex_not_isSpace c : isHex c = true -> isSpace c = false.
Proof.
  unfold isHex, isSpace, inRange. intros H.
  repeat match goal with
         | |- context [(?n =? ?m)%nat] =>
             destruct (Nat.eqb_spec n m) as [E|_];
             [rewrite E in H; discriminate H|]
         end.
  reflexivity.
Qed.

(** The white space in front of a hexadecimal digit. *)
Lemma spaces_app ws : forall c rest,
  allChars isSpace ws = true -> isHex c = true ->
  spaces (ws ++ String c rest) = ws.
Proof.
  induction ws as [|d ws IH]; intros c rest Hws Hc; simpl in *.
  - now rewrite (isHex_not_isSpace _ Hc).
  - apply andb_prop in Hws. destruct Hws as [Hd Hws].
    rewrite Hd. now rewrite IH.
Qed.

(** A match at the start of the text is a match of the expression. *)
Lemma matchAt_Some s m :
  matchAt s = Some m ->
  exists ws hex post,
    s = "commit" ++ ws ++ hex ++ post /\ m = "commit" ++ ws ++ hex
    /\ nonEmpty ws = true /\ allChars isSpace ws = true
    /\ String.length hex = 40 /\ allChars isHex hex = true.
Proof.
  unfold matchAt, HasPrefix.
  destruct (String.prefix "commit" s) eqn:Hp; [|discriminate].
  apply prefix_drop in Hp. change (String.length "commit") with 6 in Hp.
  set (rest := drop 6 s) in *. set (ws := spaces rest).
  set (hex := take 40 (drop (String.length ws) rest)).
  destruct (nonEmpty ws) eqn:Hws; [|discriminate].
  destruct (String.length hex =? 40)%nat eqn:Hlen; [|discriminate].
  destruct (allChars isHex hex) eqn:Hhex; [|discriminate].
  intros [= <-].
  exists ws, hex, (drop 40 (drop (String.length ws) rest)).
  repeat split; auto.
  - unfold hex. rewrite take_drop. unfold ws. now rewrite spaces_drop.
  - apply allChars_spaces.
  - now apply Nat.eqb_eq.
Qed.

(** A match of the expression at the start of the text is found. *)
Lemma matchAt_match ws hex post :
  nonEmpty ws = true -> allChars isSpace ws = true ->
  String.length hex = 40 -> allChars isHex hex = true ->
  matchAt ("commit" ++ ws ++ hex ++ post) = Some ("commit" ++ ws ++ hex).
Proof.
  intros Hne Hws Hlen Hhex. unfold matchAt.
  unfold HasPrefix. rewrite prefix_self_app.
  change (drop 6 ("commit" ++ ws ++ hex ++ post)) with (ws ++ hex ++ post).
  cbv zeta.
  destruct hex as [|c hex]; [discriminate Hlen|].
  assert (Hc : isHex c = true) by (simpl in Hhex; now apply andb_prop in Hhex).
  change (String c hex ++ post) with (String c (hex ++ post)).
  rewrite (spaces_app ws c (hex ++ post) Hws Hc), drop_app, Hne.
  change (String c (hex ++ post)) with (String c hex ++ post).
  rewrite <- Hlen, take_app, Nat.eqb_refl, Hhex. reflexivity.
Qed.

Lemma FindString_sound s :
  FindString s <> "" ->
  exists pre ws hex post,
    s = pre ++ "commit" ++ ws ++ hex ++ post
    /\ FindString s = "commit" ++ ws ++ hex
    /\ nonEmpty ws = true /\ allChars isSpace ws = true
    /\ String.length hex = 40 /\ allChars isHex hex = true.
Proof.
  induction s as [|c s IH].
  - cbn. intros H. now elim H.
  - intros H.
    assert (Hcase : (exists m, matchAt (String c s) = Some m
                               /\ FindString (String c s) = m)
                    \/ (matchAt (String c s) = None
                        /\ FindString (String c s) = FindString s)).
    { cbn [FindString]. destruct (matchAt (String c s)); eauto. }
    destruct Hcase as [(m & Hm & Hf)|[Hm Hf]].
    + destruct (matchAt_Some _ _ Hm)
        as (ws & hex & post & Hs & -> & Hrest).
      exists "", ws, hex, post. now rewrite Hf.
    + rewrite Hf in *.
      destruct (IH H) as (pre & ws & hex & post & -> & Hrest).
      exists (String c pre), ws, hex, post. split; [reflexivity | exact Hrest].
Qed.

Lemma FindString_complete s : hasCommit s -> FindString s <> "".
Proof.
  intros (pre & ws & hex & post & -> & Hne & Hws & Hlen & Hhex).
  induction pre as [|c pre IH].
  - change ("" ++ "commit" ++ ws ++ hex ++ post)
      with ("commit" ++ ws ++ hex ++ post).
    assert (Hm := matchAt_match ws hex post Hne Hws Hlen Hhex).
    destruct ws as [|d ws]; [discriminate Hne|].
    cbn [FindString append] in *. rewrite Hm. discriminate.
  - change (String c pre ++ "commit" ++ ws ++ hex ++ post)
      with (String c (pre ++ "commit" ++ ws ++ hex ++ post)).
    cbn [FindString].
    destruct (matchAt (String c (pre ++ "commit" ++ ws ++ hex ++ post)))
      as [m|] eqn:Hm; [|exact IH].
    destruct (matchAt_Some _ _ Hm) as (ws' & hex' & post' & _ & -> & _).
    discriminate.
Qed.

(** The leftmost match is the one at the start, when there is one. *)
Lemma FindString_at_start ws hex post :
  nonEmpty ws = true -> allChars isSpace ws = true ->
  String.length hex = 40 -> allChars isHex hex = true ->
  FindString ("commit" ++ ws ++ hex ++ post) = "commit" ++ ws ++ hex.
Proof.
  intros Hne Hws Hlen Hhex.
  assert (Hm := matchAt_match ws hex post Hne Hws Hlen Hhex).
  change ("commit" ++ ws ++ hex ++ post)
    with (String "c" ("ommit" ++ ws ++ hex ++ post)) in *.
  cbn [FindString]. now rewrite Hm.
Qed.

Section GenerateAttestationFacts.
Context (w : World) (consts : Constants) (state : StageState)
  (options : StageOptions).

Local Abbreviation material sha :=
  (set_Predicate (NewSLSAStatement w)
     (AddMaterial w (predicate w state options)
        "git+https://github.com/kubernetes/kubernetes" [("sha1", sha)])).

(** X24: the digest that [GenerateAttestation] records under "sha1" for
    the material is not the hash of the last commit but the whole text the
    expression matched in the output of git: the word "commit", the white
    space and the forty digits, 47 bytes or more. *)
Theorem GenerateAttestation_digest_is_whole_match att :
  GenerateAttestation w consts state options = inl att ->
  exists repo logData ws hex pre post,
    git_OpenRepo w (gitRoot consts) = inl repo
    /\ ShowLastCommit w repo = inl logData
    /\ logData = pre ++ "commit" ++ ws ++ hex ++ post
    /\ String.length hex = 40
    /\ 47 <= String.length ("commit" ++ ws ++ hex)
    /\ att = material ("commit" ++ ws ++ hex).
Proof.
  unfold GenerateAttestation.
  destruct (git_OpenRepo w (gitRoot consts)) as [repo|e] eqn:Hrepo;
    [|discriminate].
  cbn [orWrap bind].
  destruct (ShowLastCommit w repo) as [logData|e] eqn:Hshow; [|discriminate].
  cbn [orWrap bind].
  destruct (FindString logData =? "") eqn:Hf; [discriminate|].
  apply String.eqb_neq in Hf. intros [= <-].
  destruct (FindString_sound _ Hf)
    as (pre & ws & hex & post & Hlog & -> & Hne & _ & Hlen & _).
  exists repo, logData, ws, hex, pre, post.
  split; [reflexivity|]. split; [exact Hshow|]. split; [exact Hlog|].
  split; [exact Hlen|]. split; [|reflexivity].
  apply nonEmpty_length in Hne.
  rewrite !length_app. cbn. lia.
Qed.

(** X25: on the output of git for a commit, which starts with "commit",
    a space and the hash, [GenerateAttestation] succeeds and the digest it
    records is "commit", the space and the hash. *)
Theorem GenerateAttestation_git_output repo sha rest :
  git_OpenRepo w (gitRoot consts) = inl repo ->
  ShowLastCommit w repo = inl ("commit " ++ sha ++ rest) ->
  String.length sha = 40 ->
  allChars isHex sha = true ->
  GenerateAttestation w consts state options
  = inl (material ("commit " ++ sha)).
Proof.
  intros Hrepo Hlog Hlen Hhex. unfold GenerateAttestation.
  rewrite Hrepo. cbn [orWrap bind]. rewrite Hlog. cbn [orWrap bind].
  change ("commit " ++ sha ++ rest) with ("commit" ++ " " ++ sha ++ rest).
  rewrite (FindString_at_start " " sha rest eq_refl eq_refl Hlen Hhex).
  reflexivity.
Qed.

(** X26: when the repository opens and git answers, [GenerateAttestation]
    fails with "Unable to find last commit sha in git output" exactly when
    the output has nowhere the word "commit" followed by white space and
    forty lower-case hexadecimal digits. *)
Theorem GenerateAttestation_unable_iff_no_commit repo logData :
  git_OpenRepo w (gitRoot consts) = inl repo ->
  ShowLastCommit w repo = inl logData ->
  GenerateAttestation w consts state options
  = inr (New "Unable to find last commit sha in git output")
  <-> ~ hasCommit logData.
Proof.
  intros Hrepo Hlog. unfold GenerateAttestation.
  rewrite Hrepo. cbn [orWrap bind]. rewrite Hlog. cbn [orWrap bind].
  destruct (FindString logData =? "") eqn:Hf.
  - apply String.eqb_eq in Hf. split; [|reflexivity].
    intros _ Hc. now apply (FindString_complete _ Hc).
  - apply String.eqb_neq in Hf. split; [discriminate|].
    intros Hno. elim Hno.
    destruct (FindString_sound _ Hf)
      as (pre & ws & hex & post & Hs & _ & Hrest).
    now exists pre, ws, hex, post.
Qed.

End GenerateAttestationFacts.

End AttestFacts.
Section AttestWitnesses.
Import GoStrings IDString SPDX Provenance Steps Attest SampleAttest.

Local Abbreviation consts := SampleSteps.consts.
Local Abbreviation state := SampleSteps.state.
Local Abbreviation options := SampleSteps.options.
Local Abbreviation gitRoot := "/workspace/src/k8s.io/kubernetes".

Lemma GenerateAttestation_digest_is_whole_match_witness :
  exists repo logData ws hex pre post,
    git_OpenRepo (world commitLog) gitRoot = inl repo
    /\ ShowLastCommit (world commitLog) repo = inl logData
    /\ logData = pre ++ "commit" ++ ws ++ hex ++ post
    /\ String.length hex = 40
    /\ 47 <= String.length ("commit" ++ ws ++ hex)
    /\ set_Predicate (NewSLSAStatement (world commitLog))
         (AddMaterial (world commitLog)
            (predicate (world commitLog) state options)
            "git+https://github.com/kubernetes/kubernetes"
            [("sha1", "commit " ++ sha)])
       = set_Predicate (NewSLSAStatement (world commitLog))
           (AddMaterial (world commitLog)
              (predicate (world commitLog) state options)
              "git+https://github.com/kubernetes/kubernetes"
              [("sha1", "commit" ++ ws ++ hex)]).
Proof.
  apply (GenerateAttestation_digest_is_whole_match (world commitLog) consts
           state options).
  vm_compute. reflexivity.
Defined.

Lemma GenerateAttestation_git_output_witness :
  GenerateAttestation (world commitLog) consts state options
  = inl (set_Predicate (NewSLSAStatement (world commitLog))
           (AddMaterial (world commitLog)
              (predicate (world commitLog) state options)
              "git+https://github.com/kubernetes/kubernetes"
              [("sha1", "commit " ++ sha)])).
Proof.
  apply (GenerateAttestation_git_output (world commitLog) consts state
           options gitRoot sha (String "010" "Author: Release Manager"));
    vm_compute; reflexivity.
Defined.

Lemma GenerateAttestation_unable_iff_no_commit_witness :
  GenerateAttestation (world emptyLog) consts state options
  = inr (New "Unable to find last commit sha in git output")
  <-> ~ hasCommit emptyLog.
Proof.
  apply (GenerateAttestation_unable_iff_no_commit (world emptyLog) consts
           state options gitRoot emptyLog); reflexivity.
Defined.

End AttestWitnesses.
(** ** Staging the artifacts *)

Section StageArtifactsFacts.
Import GoStrings SPDX Provenance Steps.
Context (consts : Constants) (options : StageOptions) (state : StageState).

Lemma run_bindP {A B} impl (p : Prog (result A)) :
  forall (k : A -> Prog (result B)) h,
  run impl (bindP p k) h
  = match run impl p h with
    | (inr e, t) => (inr e, t)
    | (inl a, t) =>
        let '(r, t') := run impl (k a) (h ++ t) in (r, (t ++ t')%list)
    end.
Proof.
  induction p as [[a|e]|c f IH]; intros k h; cbn.
  - rewrite app_nil_r. now destruct (run impl (k a) h).
  - reflexivity.
  - rewrite IH.
    destruct (run impl (f (impl h c)) (h ++ [existT Reply c (impl h c)]))
      as [[a|e] t]; [|reflexivity].
    replace ((h ++ [existT Reply c (impl h c)]) ++ t)%list
      with (h ++ existT Reply c (impl h c) :: t)%list
      by (now rewrite <- app_assoc).
    destruct (run impl (k a) (h ++ existT Reply c (impl h c) :: t)).
    reflexivity.
Qed.

Lemma subjectsOf_app t t' :
  subjectsOf (t ++ t') = (subjectsOf t ++ subjectsOf t')%list.
Proof. apply flat_map_app. Qed.

Lemma outputDirsOf_app t t' :
  outputDirsOf (t ++ t') = (outputDirsOf t ++ outputDirsOf t')%list.
Proof. apply flat_map_app. Qed.

(** Two runs one after the other stop at the first error when each
    does. *)
Lemma stopsAtFirstError_app {A B} (a : A) (res : result B) t t' :
  stopsAtFirstError (inl a) t -> stopsAtFirstError res t' ->
  stopsAtFirstError res (t ++ t').
Proof.
  intros [Hok _] [Hok' Herr]. split.
  - intros b Hb. apply Forall_app. split; [eapply Hok | eapply Hok']; eauto.
  - intros e He.
    destruct (Herr e He) as (t0 & ev & cause & message & -> & H0 & Hev & ->).
    exists (t ++ t0)%list, ev, cause, message.
    repeat split; auto.
    + now rewrite app_assoc.
    + apply Forall_app. split; [eapply Hok|]; eauto.
Qed.

Lemma stopsAtFirstError_inr {A B} e t :
  @stopsAtFirstError A (inr e) t -> @stopsAtFirstError B (inr e) t.
Proof.
  intros [_ Herr]. split; [discriminate|].
  intros e' [= <-]. now apply Herr.
Qed.

Ltac stop_here :=
  first [ eexists [], _, _, _; split; [reflexivity|]
        | eexists [_], _, _, _; split; [reflexivity|]
        | eexists [_; _], _, _, _; split; [reflexivity|]
        | eexists [_; _; _], _, _, _; split; [reflexivity|]
        | eexists [_; _; _; _], _, _, _; split; [reflexivity|] ].

Ltac all_events :=
  repeat match goal with
         | |- Forall _ [] => constructor
         | |- Forall _ (_ :: _) => constructor
         end.

(** One turn of the loop of [StageArtifacts]. *)
Lemma stageVersion_run impl s version h :
  stageVersionsRun consts s [version]
    (fst (run impl (stageVersion consts options s version) h))
    (snd (run impl (stageVersion consts options s version) h)).
Proof.
  unfold stageVersionsRun, stageVersion.
  cbn [run bindP checked got fst snd].
  repeat (match goal with
          | |- context [match ?i ?hh ?c with _ => _ end] =>
              is_var i; destruct (i hh c) eqn:?
          | |- context [orWrap (?i ?hh ?c) _] =>
              is_var i; destruct (i hh c) eqn:?
          end; cbn [run bindP checked got orWrap fst snd]).
  all: split;
    [all_events; (split;
       [intros (? & ? & ? & Hev); apply (f_equal (@projT1 _ _)) in Hev;
        discriminate Hev
       |intros o Ho; cbn in Ho;
        first [discriminate Ho
              |injection Ho as <-; exists version;
               split; [now left|reflexivity]]])|].
  all: split;
    [split;
       [intros a Ha; first [discriminate Ha | all_events; reflexivity]
       |intros e' He;
        first [discriminate He
              |injection He as <-; stop_here;
               split; [all_events; reflexivity|]; split; reflexivity]]|].
  all: intros s' Hs'; first [discriminate Hs' | injection Hs' as <-].
  cbn. rewrite app_nil_r. repeat split; reflexivity.
Qed.

Lemma stagesVersion_weaken o version versions versions' ev :
  (forall v, In v versions -> In v versions') ->
  stagesVersion consts (forVersion consts o version) versions ev ->
  stagesVersion consts o versions' ev.
Proof.
  intros Hin [Hpush Ho]. split; [exact Hpush|].
  intros o' Ho'. destruct (Ho o' Ho') as (v & Hv & ->).
  exists v. split; [auto | reflexivity].
Qed.

(** The loop of [StageArtifacts]. *)
Lemma foldVersions_run impl : forall versions s h,
  stageVersionsRun consts s versions
    (fst (run impl (foldVersions (stageVersion consts options) versions s) h))
    (snd (run impl (foldVersions (stageVersion consts options) versions s) h)).
Proof.
  induction versions as [|version versions IH]; intros s h.
  - cbn. split; [constructor|]. split.
    + split; [constructor | discriminate].
    + intros s' [= <-]. now rewrite app_nil_r.
  - cbn [foldVersions]. rewrite run_bindP.
    pose proof (stageVersion_run impl s version h) as (Hev & Hstop & Hs).
    destruct (run impl (stageVersion consts options s version) h)
      as [[s1|e] t]; cbn [fst snd] in *.
    + destruct (Hs s1 eq_refl) as (Ho & Hsub & Hpred & Hdirs).
      cbn [fold_left] in Ho.
      pose proof (IH s1 (h ++ t)%list) as (Hev' & Hstop' & Hs').
      destruct (run impl
                  (foldVersions (stageVersion consts options) versions s1)
                  (h ++ t)) as [res t']; cbn [fst snd] in *.
      split; [|split].
      * apply Forall_app. split.
        -- eapply Forall_impl; [|exact Hev].
           intros ev [Hpush Hopt]. split; [exact Hpush|].
           intros o Hopt'. destruct (Hopt o Hopt') as (v & [<-|[]] & ->).
           exists version. split; [now left | reflexivity].
        -- eapply Forall_impl; [|exact Hev'].
           intros ev. rewrite Ho.
           apply stagesVersion_weaken. intros v Hv. now right.
      * eapply stopsAtFirstError_app; eassumption.
      * intros s' ->. destruct (Hs' s' eq_refl) as (Ho' & Hsub' & Hpred' & Hdirs').
        repeat split.
        -- cbn [fold_left]. now rewrite <- Ho.
        -- now rewrite Hsub', Hsub, subjectsOf_app, app_assoc.
        -- congruence.
        -- rewrite outputDirsOf_app, Hdirs, Hdirs'. reflexivity.
    + split; [|split].
      * eapply Forall_impl; [|exact Hev].
        intros ev [Hpush Hopt]. split; [exact Hpush|].
        intros o Hopt'. destruct (Hopt o Hopt') as (v & [<-|[]] & ->).
        exists version. split; [now left | reflexivity].
      * exact Hstop.
      * discriminate.
Qed.

(** The push options the loop leaves behind. *)
Lemma fold_forVersion versions : forall o,
  fold_left (forVersion consts) versions o
  = match versions with
    | [] => o
    | _ :: _ => forVersion consts o (last versions "")
    end.
Proof.
  induction versions as [|version versions IH]; intros o; [reflexivity|].
  cbn [fold_left]. rewrite IH.
  destruct versions as [|version' versions]; reflexivity.
Qed.

Lemma last_In (versions : list string) d :
  versions <> [] -> In (last versions d) versions.
Proof.
  induction versions as [|v [|v' versions] IH]; intros H.
  - now elim H.
  - now left.
  - right. apply IH. discriminate.
Qed.

Ltac not_push :=
  let Hev := fresh "Hev" in
  intros (? & ? & ? & Hev); apply (f_equal (@projT1 _ _)) in Hev;
  discriminate Hev.

Ltac made_options :=
  let o := fresh "o" in
  let Ho := fresh "Ho" in
  intros o Ho; cbn in Ho;
  first [discriminate Ho | injection Ho as <-; left; reflexivity].

Ltac error_run :=
  split;
  [split;
   [intros ? He; discriminate He
   |let e' := fresh "e" in
    let He := fresh "He" in
    intros e' He; injection He as <-; stop_here;
    split; [all_events; reflexivity|]; split; reflexivity]
  |split;
   [all_events; made_options
   |left; all_events; not_push]].

Local Abbreviation outputDirs :=
  (map (fun version => (Join consts [buildDir consts version], version))
     (Ordered state)).

(** The run of [StageArtifacts]. *)
Lemma StageArtifacts_run impl h :
  let res := fst (run impl (StageArtifacts consts options state) h) in
  let t := snd (run impl (StageArtifacts consts options state) h) in
  stopsAtFirstError res t
  /\ Forall (pushOptionsOK consts options state) t
  /\ (Forall (fun ev => ~ isPushAttestation ev) t
      \/ exists statement0 t1 statement r t2,
           t = (existT Reply (GenerateAttestation state options)
                  (inl statement0) :: t1
                ++ existT Reply (PushAttestation statement options) r :: t2)%list
           /\ Forall (fun ev => ~ isPushAttestation ev) t1
           /\ Forall (fun ev => ~ isPushAttestation ev) t2
           /\ Subject_ statement
              = (Subject_ statement0 ++ subjectsOf t1)%list
           /\ Statement_Predicate statement = Statement_Predicate statement0
           /\ outputDirsOf t1 = outputDirs).
Proof.
  unfold StageArtifacts. cbn [run bindP got checked orWrap fst snd].
  destruct (impl h (GenerateAttestation state options)) as [statement0|e1];
    cbn [run bindP got checked orWrap fst snd]; [|error_run].
  set (ev1 := existT Reply (GenerateAttestation state options)
                (inl statement0)).
  destruct (impl _
              (CheckReleaseBucket (newPushBuildOptions consts options)))
    as [e2|]; cbn [run bindP got checked orWrap fst snd]; [error_run|].
  set (ev2 := existT Reply
                (CheckReleaseBucket (newPushBuildOptions consts options))
                None).
  destruct (impl _
              (StageLocalSourceTree (newPushBuildOptions consts options)
                 (workspaceDir consts) (BuildVersion options)))
    as [e3|]; cbn [run bindP got checked orWrap fst snd]; [error_run|].
  set (ev3 := existT Reply
                (StageLocalSourceTree (newPushBuildOptions consts options)
                   (workspaceDir consts) (BuildVersion options)) None).
  destruct (impl _
              (GetProvenanceSubjects options
                 (Join consts [workspaceDir consts; SourcesTar consts])))
    as [subjects|e4]; cbn [run bindP got checked orWrap fst snd];
    [|error_run].
  set (ev4 := existT Reply
                (GetProvenanceSubjects options
                   (Join consts [workspaceDir consts; SourcesTar consts]))
                (inl subjects)).
  set (h4 := ((((h ++ [ev1]) ++ [ev2]) ++ [ev3]) ++ [ev4])%list).
  rewrite run_bindP.
  pose proof (foldVersions_run impl (Ordered state)
                (newPushBuildOptions consts options,
                 addSubjects statement0 subjects) h4)
    as (Hev & Hstop & Hs).
  assert (Hstart : stopsAtFirstError (inl tt) [ev1; ev2; ev3; ev4]).
  { split; [intros _ _; all_events; reflexivity | discriminate]. }
  assert (Hopts : forall tl,
             Forall (stagesVersion consts (newPushBuildOptions consts options)
                       (Ordered state)) tl ->
             Forall (pushOptionsOK consts options state) tl).
  { intros tl. apply Forall_impl. intros ev [_ Ho] o Hopt. right. auto. }
  assert (Hnot : forall tl,
             Forall (stagesVersion consts (newPushBuildOptions consts options)
                       (Ordered state)) tl ->
             Forall (fun ev => ~ isPushAttestation ev) tl).
  { intros tl. apply Forall_impl. now intros ev [Hpush _]. }
  destruct (run impl
              (foldVersions (stageVersion consts options) (Ordered state)
                 (newPushBuildOptions consts options,
                  addSubjects statement0 subjects)) h4)
    as [[s1|e] tl]; cbn [fst snd] in *.
  2:{ split; [|split].
      - apply (stopsAtFirstError_app tt (inr e) [ev1; ev2; ev3; ev4] tl Hstart).
        exact (stopsAtFirstError_inr e tl Hstop).
      - all_events; [made_options..|]. now apply Hopts.
      - left. all_events; [not_push..|]. now apply Hnot. }
  destruct (Hs s1 eq_refl) as (Ho & Hsub & Hpred & Hdirs).
  cbn [run bindP got checked orWrap fst snd].
  set (push := PushAttestation (snd s1) options).
  assert (Hlast : pushOptionsOK consts options state
                    (existT Reply
                       (DeleteLocalSourceTarball (fst s1)
                          (workspaceDir consts)) None)
                  /\ forall e,
                       pushOptionsOK consts options state
                         (existT Reply
                            (DeleteLocalSourceTarball (fst s1)
                               (workspaceDir consts)) (Some e))).
  { assert (H : fst s1 = newPushBuildOptions consts options
                \/ exists version,
                     In version (Ordered state)
                     /\ fst s1
                        = forVersion consts
                            (newPushBuildOptions consts options) version).
    { rewrite Ho, fold_forVersion.
      destruct (Ordered state) as [|v vs] eqn:Hvs; [now left|].
      right. exists (last (v :: vs) ""). split; [|reflexivity].
      apply last_In. discriminate. }
    split; [|intros e]; intros o Hopt; cbn in Hopt; injection Hopt as <-;
      exact H. }
  destruct Hlast as [Hlast Hlast'].
  assert (Hright : forall r t2,
             Forall (fun ev => ~ isPushAttestation ev) t2 ->
             exists statement1 t1 statement r' t3,
               ev1 :: ev2 :: ev3 :: ev4 :: (tl ++ existT Reply push r :: t2)%list
               = (existT Reply (GenerateAttestation state options)
                    (inl statement1) :: t1
                  ++ existT Reply (PushAttestation statement options) r' :: t3)%list
               /\ Forall (fun ev => ~ isPushAttestation ev) t1
               /\ Forall (fun ev => ~ isPushAttestation ev) t3
               /\ Subject_ statement
                  = (Subject_ statement1 ++ subjectsOf t1)%list
               /\ Statement_Predicate statement
                  = Statement_Predicate statement1
               /\ outputDirsOf t1 = outputDirs).
  { intros r t2 Ht2.
    exists statement0, (ev2 :: ev3 :: ev4 :: tl), (snd s1), r, t2.
    split; [reflexivity|]. split; [|split; [exact Ht2|]].
    - all_events; [not_push..|]. now apply Hnot.
    - split; [|split; [exact Hpred|exact Hdirs]].
      rewrite Hsub. cbn. now rewrite app_assoc. }
  destruct (impl _ push) as [e5|] eqn:E5;
    cbn [run bindP got checked orWrap fst snd].
  - split; [|split].
    + apply (stopsAtFirstError_app tt _ [ev1; ev2; ev3; ev4] _ Hstart).
      apply (stopsAtFirstError_app s1 _ tl _ Hstop).
      split; [discriminate|]. intros e' [= <-].
      exists [], (existT Reply push (Some e5)), e5,
        "writing provenance metadata to disk".
      repeat split. constructor.
    + all_events; [made_options..|]. apply Forall_app. split.
      * now apply Hopts.
      * all_events. intros o Hopt. discriminate Hopt.
    + right. apply Hright. constructor.
  - set (delete := DeleteLocalSourceTarball (fst s1) (workspaceDir consts)).
    destruct (impl _ delete)
      as [e6|] eqn:E6; cbn [run bindP got checked orWrap fst snd].
    + split; [|split].
      * apply (stopsAtFirstError_app tt _ [ev1; ev2; ev3; ev4] _ Hstart).
        apply (stopsAtFirstError_app s1 _ tl _ Hstop).
        split; [discriminate|]. intros e' [= <-].
        exists [existT Reply push None], (existT Reply delete (Some e6)), e6,
          "delete source tarball".
        repeat split. all_events. reflexivity.
      * all_events; [made_options..|]. apply Forall_app. split.
        -- now apply Hopts.
        -- all_events; [intros o Hopt; discriminate Hopt | apply Hlast'].
      * right. apply Hright. all_events. not_push.
    + split; [|split].
      * apply (stopsAtFirstError_app tt _ [ev1; ev2; ev3; ev4] _ Hstart).
        apply (stopsAtFirstError_app s1 _ tl _ Hstop).
        split; [|discriminate]. intros _ _. all_events; reflexivity.
      * all_events; [made_options..|]. apply Forall_app. split.
        -- now apply Hopts.
        -- all_events; [intros o Hopt; discriminate Hopt | apply Hlast].
      * right. apply Hright. all_events. not_push.
Qed.

(** Where the one event of its kind lies. *)
Lemma split_unique (Q : Event -> Prop) t1 : forall t t2 ev ev' t2',
  Forall (fun ev => ~ Q ev) t -> Forall (fun ev => ~ Q ev) t2 -> Q ev' ->
  (t ++ ev :: t2)%list = (t1 ++ ev' :: t2')%list ->
  t1 = t /\ ev' = ev.
Proof.
  induction t1 as [|a t1 IH]; intros [|b t] t2 ev ev' t2' Ht Ht2 Hq Heq;
    cbn in Heq; apply cons_eq in Heq; destruct Heq as [Heq0 Heq].
  - auto.
  - subst b. apply Forall_inv in Ht. now elim Ht.
  - subst t2. apply Forall_elt in Ht2. now elim Ht2.
  - subst b. apply Forall_inv_tail in Ht.
    destruct (IH _ _ _ _ _ Ht Ht2 Hq Heq) as [-> ->]. auto.
Qed.

Lemma Forall_not_split (Q : Event -> Prop) t t1 ev t2 :
  Forall (fun ev => ~ Q ev) t -> t = (t1 ++ ev :: t2)%list -> ~ Q ev.
Proof. intros Ht ->. now apply Forall_elt in Ht. Qed.

(** X27: the statement that [StageArtifacts] hands to [PushAttestation],
    with its own options, is the one [GenerateAttestation] answered, with
    the subjects of the
    sources tarball and of the output directory of every version added to
    its own, in the order of the versions. *)
Theorem StageArtifacts_attests_every_subject impl h t1 statement o r t2 :
  snd (run impl (StageArtifacts consts options state) h)
  = (t1 ++ existT Reply (PushAttestation statement o) r :: t2)%list ->
  o = options
  /\ Subject_ statement = subjectsOf t1
  /\ outputDirsOf t1
     = map (fun version =>
              (Join consts
                 [Join consts
                    [gitRoot consts;
                     release_BuildDir consts ++ "-" ++ version]],
               version))
         (Ordered state)
  /\ exists statement0 t0,
       t1 = existT Reply (GenerateAttestation state options) (inl statement0)
            :: t0
       /\ Statement_Predicate statement = Statement_Predicate statement0.
Proof.
  intros Heq.
  assert (Hpush : isPushAttestation
                    (existT Reply (PushAttestation statement o) r))
    by (now exists statement, o, r).
  destruct (StageArtifacts_run impl h) as (_ & _ & [Hnone|Hone]).
  - now elim (Forall_not_split _ _ _ _ _ Hnone Heq).
  - destruct Hone as (statement0 & t0 & statement' & r' & t2' & Ht & Ht0
                      & Ht2 & Hsub & Hpred & Hdirs).
    rewrite Ht in Heq.
    destruct (split_unique isPushAttestation t1
                (existT Reply (GenerateAttestation state options)
                   (inl statement0) :: t0) t2'
                (existT Reply (PushAttestation statement' options) r')
                (existT Reply (PushAttestation statement o) r) t2)
      as [-> Hev]; auto.
    { constructor; [not_push | exact Ht0]. }
    apply (f_equal (@projT1 _ _)) in Hev. cbn in Hev.
    injection Hev as -> ->. split; [|split; [|split]].
    + reflexivity.
    + rewrite Hsub. reflexivity.
    + exact Hdirs.
    + eauto.
Qed.

(** X28: the push options that [StageArtifacts] hands to a call name its
    bucket and its registry, allow duplicates and ask for the validation
    of the digests of the remote images; they are as they were made, or
    they are set for one of the versions, and then the build directory is
    the one of that version. *)
Theorem StageArtifacts_push_options impl h ev o :
  In ev (snd (run impl (StageArtifacts consts options state) h)) ->
  pushOptionsOf (projT1 ev) = Some o ->
  build.Bucket o = Bucket consts options
  /\ build.Registry o = ContainerRegistry consts options
  /\ build.AllowDup o = true
  /\ build.ValidateRemoteImageDigests o = true
  /\ ((build.Version o = "" /\ build.BuildDir o = "")
      \/ (In (build.Version o) (Ordered state)
          /\ build.BuildDir o
             = Join consts
                 [gitRoot consts;
                  release_BuildDir consts ++ "-" ++ build.Version o])).
Proof.
  intros Hin Ho.
  destruct (StageArtifacts_run impl h) as (_ & Hopts & _).
  eapply Forall_forall in Hopts; [|exact Hin].
  destruct (Hopts o Ho) as [->|(version & Hv & ->)].
  - repeat split; auto.
  - repeat split; auto.
Qed.

(** X29: [StageArtifacts] stops at the first call that answers an error
    and returns that error, wrapped; when it returns no error, no call
    answered one. *)
Theorem StageArtifacts_stops_at_first_error impl h :
  stopsAtFirstError
    (fst (run impl (StageArtifacts consts options state) h))
    (snd (run impl (StageArtifacts consts options state) h)).
Proof. apply StageArtifacts_run. Qed.

End StageArtifactsFacts.
Section StageArtifactsWitnesses.
Import GoStrings SPDX Provenance Steps SampleSteps.

Lemma StageArtifacts_attests_every_subject_witness :
  options = options
  /\ Subject_ pushed
     = subjectsOf
         (firstn 14 (snd (run staging (StageArtifacts consts options state)
                            [])))
  /\ outputDirsOf
       (firstn 14 (snd (run staging (StageArtifacts consts options state)
                          [])))
     = map (fun version =>
              (Join consts
                 [Join consts
                    [gitRoot consts;
                     release_BuildDir consts ++ "-" ++ version]],
               version))
         (Ordered state)
  /\ exists statement0 t0,
       firstn 14 (snd (run staging (StageArtifacts consts options state) []))
       = existT Reply (GenerateAttestation state options) (inl statement0)
         :: t0
       /\ Statement_Predicate pushed = Statement_Predicate statement0.
Proof.
  apply (StageArtifacts_attests_every_subject consts options state staging []
           (firstn 14 (snd (run staging (StageArtifacts consts options state)
                              [])))
           pushed options None
           (skipn 15 (snd (run staging (StageArtifacts consts options state)
                             [])))).
  vm_compute. reflexivity.
Defined.

Local Abbreviation o :=
  (forVersion consts (newPushBuildOptions consts options) "v1.20.0").

Lemma StageArtifacts_push_options_witness :
  build.Bucket o = Bucket consts options
  /\ build.Registry o = ContainerRegistry consts options
  /\ build.AllowDup o = true
  /\ build.ValidateRemoteImageDigests o = true
  /\ ((build.Version o = "" /\ build.BuildDir o = "")
      \/ (In (build.Version o) (Ordered state)
          /\ build.BuildDir o
             = Join consts
                 [gitRoot consts;
                  release_BuildDir consts ++ "-" ++ build.Version o])).
Proof.
  apply (StageArtifacts_push_options consts options state staging []
           (existT Reply (PushContainerImages o) None) o).
  - vm_compute. do 7 right. left. reflexivity.
  - reflexivity.
Defined.

End StageArtifactsWitnesses.
